(** * OpenClaw on Cloudflare: gateway state sync, restore and admin helpers

    A shallow embedding of
    - [src/gateway/sync.ts]  (parseSSEEvents, isCleanPath, listContainerFiles,
      syncDirectory, cleanCorruptedR2Keys, syncToR2),
    - the R2 restore module  (shouldSkipKey, mkdirCached, restorePrefix,
      restoreFromR2),
    - the admin API module   (readFile, execCommand, cleanupOrphanedProcesses,
      the device-listing handler; the routes for the device list, the
      approval of one device, the storage status and the manual sync),
    - [src/gateway/utils.ts] (waitForProcess),
    together with the properties the specification states about them, and
    further properties read off the code.

    JavaScript strings are modelled by [string]: sequences of code units
    below 256.  Asynchronous calls into the sandbox and into the R2 bucket
    are modelled by an explicit interaction trace: every call is answered by
    the [World] (as a function of the calls made so far) and is appended,
    with its answer, to the trace.  A call either resolves or rejects; a
    rejected call is a JavaScript exception at the [await].  Real time is not
    modelled: a sleep is an event of the trace, and a read raced against a
    timer is answered by the world with either the settled read or the
    timer.  An awaited call that never settles leaves no run to speak of and
    is outside the model.  The two [do ... while (cursor)] loops over a
    paginated listing are given a budget of iterations. *)

From Stdlib Require Import ZArith Ascii String List Bool Lia DecimalString.
From stdpp Require Import base option list strings gmap.

Set Warnings "-register-all".
Set Warnings "-clear-no-such-hyp".

Local Open Scope string_scope.
Local Open Scope list_scope.

(** ** JavaScript strings *)

Module Js.

(** The characters that cannot be written inside a literal here. *)
Definition LF : string := String "010"%char EmptyString.
Definition DQUOTE : string := String "034"%char EmptyString.
(** The two characters backslash and [n]: the JavaScript literal ['\\n']. *)
Definition BACKSLASH_N : string := "\n".
(** Two backslashes: the JavaScript literal ['\\\\']. *)
Definition BACKSLASH_BACKSLASH : string := "\\".

(** [s.startsWith(p)] *)
Fixpoint startsWith (s p : string) {struct p} : bool :=
  match p with
  | EmptyString => true
  | String c p' =>
      match s with
      | EmptyString => false
      | String d s' => Ascii.eqb c d && startsWith s' p'
      end
  end.

(** [s.includes(needle)] *)
Fixpoint includes (s needle : string) : bool :=
  startsWith s needle ||
  match s with
  | EmptyString => false
  | String _ s' => includes s' needle
  end.

(** [s.slice(n)] for [0 <= n] *)
Fixpoint slice_from (n : nat) (s : string) : string :=
  match n, s with
  | O, _ => s
  | S _, EmptyString => EmptyString
  | S n', String _ s' => slice_from n' s'
  end.

(** [s.slice(0, n)] for [0 <= n] *)
Fixpoint slice_to (n : nat) (s : string) : string :=
  match n, s with
  | O, _ => EmptyString
  | S _, EmptyString => EmptyString
  | S n', String c s' => String c (slice_to n' s')
  end.

(** [s.endsWith(p)] *)
Definition endsWith (s p : string) : bool :=
  (String.length p <=? String.length s)%nat &&
  String.eqb (slice_from (String.length s - String.length p) s) p.

(** [s.split(sep)] for a non-empty separator: the pieces between the
    leftmost, non-overlapping occurrences of [sep].  [skip] counts the
    characters of a separator still to be passed over, [cur] is the piece
    being collected. *)
Fixpoint split_go (sep : string) (skip : nat) (cur s : string) : list string :=
  match s with
  | EmptyString => [cur]
  | String c s' =>
      match skip with
      | S k => split_go sep k cur s'
      | O =>
          if startsWith s sep
          then cur :: split_go sep (String.length sep - 1) EmptyString s'
          else split_go sep 0 (cur +:+ String c EmptyString) s'
      end
  end.

Definition split (s sep : string) : list string := split_go sep 0 EmptyString s.

(** White space of [String.prototype.trim] among the code units below 256:
    TAB, LF, VT, FF, CR, SPACE and NBSP. *)
Definition is_white_space (c : ascii) : bool :=
  let n := nat_of_ascii c in
  (n =? 9)%nat || (n =? 10)%nat || (n =? 11)%nat || (n =? 12)%nat
  || (n =? 13)%nat || (n =? 32)%nat || (n =? 160)%nat.

Fixpoint trimStart (s : string) : string :=
  match s with
  | EmptyString => EmptyString
  | String c s' => if is_white_space c then trimStart s' else s
  end.

Fixpoint trimEnd (s : string) : string :=
  match s with
  | EmptyString => EmptyString
  | String c s' =>
      match trimEnd s' with
      | EmptyString => if is_white_space c then EmptyString else String c EmptyString
      | r => String c r
      end
  end.

(** [s.trim()] *)
Definition trim (s : string) : string := trimEnd (trimStart s).

(** [s.lastIndexOf(c)] for a one-character pattern, [-1] when absent. *)
Fixpoint lastIndexOf_from (i : Z) (c : ascii) (s : string) : Z :=
  match s with
  | EmptyString => (-1)%Z
  | String d s' =>
      let r := lastIndexOf_from (i + 1) c s' in
      if (0 <=? r)%Z then r else if Ascii.eqb c d then i else (-1)%Z
  end.

Definition lastIndexOf (s : string) (c : ascii) : Z := lastIndexOf_from 0 c s.

(** [s.replace(pat, '')] with a string pattern: only the first occurrence
    of [pat] is removed. *)
Fixpoint remove_first (pat s : string) : string :=
  if startsWith s pat then slice_from (String.length pat) s
  else match s with
       | EmptyString => EmptyString
       | String c s' => String c (remove_first pat s')
       end.

(** [xs.join(sep)] *)
Fixpoint join (sep : string) (xs : list string) : string :=
  match xs with
  | [] => EmptyString
  | [x] => x
  | x :: rest => x +:+ sep +:+ join sep rest
  end.

(** [s || dflt]: the empty string is falsy. *)
Definition or_else (s dflt : string) : string :=
  match s with EmptyString => dflt | _ => s end.

(** Template interpolation of a number. *)
Definition of_Z (n : Z) : string := NilZero.string_of_int (Z.to_int n).
Definition of_nat (n : nat) : string := NilZero.string_of_uint (Nat.to_uint n).

(** [s.match(/\{[\s\S]*\}/)]: the leftmost match starts at the first [{]
    that has a [}] somewhere after it, and the greedy star extends it to
    the last [}] of the string.  [upto_last_rbrace s] is the longest prefix
    of [s] that ends in [}]. *)
Fixpoint upto_last_rbrace (s : string) : option string :=
  match s with
  | EmptyString => None
  | String c s' =>
      match upto_last_rbrace s' with
      | Some r => Some (String c r)
      | None => if Ascii.eqb c "}"%char then Some (String c EmptyString) else None
      end
  end.

Fixpoint match_braces (s : string) : option string :=
  match s with
  | EmptyString => None
  | String c s' =>
      if Ascii.eqb c "{"%char
      then match upto_last_rbrace s' with
           | Some r => Some (String c r)
           | None => match_braces s'
           end
      else match_braces s'
  end.

End Js.

(** ** JSON values and [JSON.parse] *)

Inductive json : Type :=
| JNull
| JBool (b : bool)
| JNumber (lexeme : string)
| JString (s : string)
| JArray (items : list json)
| JObject (members : list (string * json)).

(** The JavaScript runtime's [JSON.parse]: [None] stands for the
    [SyntaxError] it throws.  The gateway code is embedded over any such
    function; [Json.parse] below is a concrete one. *)
Class JsonRuntime := JSON_parse : string -> option json.

Module Json.

(** Own property of a parsed object; a repeated name keeps its last value. *)
Fixpoint lookup (k : string) (ms : list (string * json)) : option json :=
  match ms with
  | [] => None
  | (k', v) :: rest =>
      match lookup k rest with
      | Some w => Some w
      | None => if String.eqb k k' then Some v else None
      end
  end.

Definition is_json_ws (c : ascii) : bool :=
  let n := nat_of_ascii c in
  (n =? 32)%nat || (n =? 9)%nat || (n =? 10)%nat || (n =? 13)%nat.

Fixpoint skip_ws (s : string) : string :=
  match s with
  | String c s' => if is_json_ws c then skip_ws s' else s
  | EmptyString => EmptyString
  end.

Definition is_digit (c : ascii) : bool :=
  let n := nat_of_ascii c in (48 <=? n)%nat && (n <=? 57)%nat.

Definition hex_value (c : ascii) : option nat :=
  let n := nat_of_ascii c in
  if (48 <=? n)%nat && (n <=? 57)%nat then Some (n - 48)
  else if (65 <=? n)%nat && (n <=? 70)%nat then Some (n - 55)
  else if (97 <=? n)%nat && (n <=? 102)%nat then Some (n - 87)
  else None.

(** Digits at the head of [s]: the digits and the rest. *)
Fixpoint span_digits (s : string) : string * string :=
  match s with
  | String c s' =>
      if is_digit c
      then let '(d, r) := span_digits s' in (String c d, r)
      else (EmptyString, s)
  | EmptyString => (EmptyString, EmptyString)
  end.

(** A JSON number: an optional minus sign, an integer part without a
    leading zero, an optional fraction and an optional exponent.  The value
    keeps its lexeme; doubles are not modelled. *)
Definition parse_number (s : string) : option (string * string) :=
  let '(sign, s1) :=
    match s with
    | String "-"%char r => ("-", r)
    | _ => (EmptyString, s)
    end in
  let '(int, s2) := span_digits s1 in
  match int with
  | EmptyString => None
  | String d ds =>
      if Ascii.eqb d "0"%char && negb (String.eqb ds EmptyString) then None
      else
        let frac :=
          match s2 with
          | String "."%char r =>
              let '(f, r') := span_digits r in
              match f with
              | EmptyString => None
              | _ => Some ("." +:+ f, r')
              end
          | _ => Some (EmptyString, s2)
          end in
        match frac with
        | None => None
        | Some (f, s3) =>
            let expo :=
              match s3 with
              | String e r =>
                  if Ascii.eqb e "e"%char || Ascii.eqb e "E"%char
                  then
                    let '(sg, r1) :=
                      match r with
                      | String "+"%char r0 => ("+", r0)
                      | String "-"%char r0 => ("-", r0)
                      | _ => (EmptyString, r)
                      end in
                    let '(x, r2) := span_digits r1 in
                    match x with
                    | EmptyString => None
                    | _ => Some (String e sg +:+ x, r2)
                    end
                  else Some (EmptyString, s3)
              | EmptyString => Some (EmptyString, s3)
              end in
            match expo with
            | None => None
            | Some (x, s4) => Some (sign +:+ int +:+ f +:+ x, s4)
            end
        end
  end.

(** The characters of a string literal after its opening quote.  Escapes
    of code units from 256 on are outside the model and rejected. *)
Fixpoint parse_chars (s : string) : option (string * string) :=
  match s with
  | EmptyString => None
  | String c s' =>
      if Ascii.eqb c "034"%char then Some (EmptyString, s')
      else if (nat_of_ascii c <? 32)%nat then None
      else if Ascii.eqb c "\"%char then
        match s' with
        | String e r =>
            let simple (x : ascii) :=
              match parse_chars r with
              | Some (t, r') => Some (String x t, r')
              | None => None
              end in
            if Ascii.eqb e "034"%char then simple "034"%char
            else if Ascii.eqb e "\"%char then simple "\"%char
            else if Ascii.eqb e "/"%char then simple "/"%char
            else if Ascii.eqb e "b"%char then simple "008"%char
            else if Ascii.eqb e "f"%char then simple "012"%char
            else if Ascii.eqb e "n"%char then simple "010"%char
            else if Ascii.eqb e "r"%char then simple "013"%char
            else if Ascii.eqb e "t"%char then simple "009"%char
            else if Ascii.eqb e "u"%char then
              match r with
              | String h1 (String h2 (String h3 (String h4 r4))) =>
                  match hex_value h1, hex_value h2, hex_value h3, hex_value h4 with
                  | Some 0, Some 0, Some a, Some b =>
                      match parse_chars r4 with
                      | Some (t, r') => Some (String (ascii_of_nat (16 * a + b)) t, r')
                      | None => None
                      end
                  | _, _, _, _ => None
                  end
              | _ => None
              end
            else None
        | EmptyString => None
        end
      else
        match parse_chars s' with
        | Some (t, r') => Some (String c t, r')
        | None => None
        end
  end.

Section Sequences.
Variable parse_value : string -> option (json * string).

(** The elements of an array after the first one has been announced:
    [value (, value)* ]]. *)
Fixpoint parse_elements (n : nat) (acc : list json) (s : string)
  : option (list json * string) :=
  match n with
  | O => None
  | S n' =>
      match parse_value s with
      | None => None
      | Some (v, r) =>
          match skip_ws r with
          | String c r' =>
              if Ascii.eqb c ","%char then parse_elements n' (acc ++ [v]) r'
              else if Ascii.eqb c "]"%char then Some (acc ++ [v], r')
              else None
          | EmptyString => None
          end
      end
  end.

(** The members of an object: [string : value (, string : value)* }]. *)
Fixpoint parse_members (n : nat) (acc : list (string * json)) (s : string)
  : option (list (string * json) * string) :=
  match n with
  | O => None
  | S n' =>
      match skip_ws s with
      | String q r =>
          if Ascii.eqb q "034"%char then
            match parse_chars r with
            | None => None
            | Some (k, r1) =>
                match skip_ws r1 with
                | String c r2 =>
                    if Ascii.eqb c ":"%char then
                      match parse_value r2 with
                      | None => None
                      | Some (v, r3) =>
                          match skip_ws r3 with
                          | String d r4 =>
                              if Ascii.eqb d ","%char
                              then parse_members n' (acc ++ [(k, v)]) r4
                              else if Ascii.eqb d "}"%char
                              then Some (acc ++ [(k, v)], r4)
                              else None
                          | EmptyString => None
                          end
                      end
                    else None
                | EmptyString => None
                end
            end
          else None
      | EmptyString => None
      end
  end.
End Sequences.

(** One JSON value at the head of [s], and the rest of [s]. *)
Fixpoint parse_value (fuel : nat) (s : string) : option (json * string) :=
  match fuel with
  | O => None
  | S f =>
      match skip_ws s with
      | EmptyString => None
      | String c r as s0 =>
          if Ascii.eqb c "{"%char then
            match skip_ws r with
            | String "}"%char r' => Some (JObject [], r')
            | r0 =>
                match parse_members (parse_value f) (String.length r0) [] r0 with
                | Some (ms, r') => Some (JObject ms, r')
                | None => None
                end
            end
          else if Ascii.eqb c "["%char then
            match skip_ws r with
            | String "]"%char r' => Some (JArray [], r')
            | r0 =>
                match parse_elements (parse_value f) (String.length r0) [] r0 with
                | Some (xs, r') => Some (JArray xs, r')
                | None => None
                end
            end
          else if Ascii.eqb c "034"%char then
            match parse_chars r with
            | Some (t, r') => Some (JString t, r')
            | None => None
            end
          else if Js.startsWith s0 "true" then Some (JBool true, Js.slice_from 4 s0)
          else if Js.startsWith s0 "false" then Some (JBool false, Js.slice_from 5 s0)
          else if Js.startsWith s0 "null" then Some (JNull, Js.slice_from 4 s0)
          else
            match parse_number s0 with
            | Some (lx, r') => Some (JNumber lx, r')
            | None => None
            end
      end
  end.

(** A whole text is one value surrounded by JSON white space.  Nesting is
    bounded by the length of the text, so that much fuel is enough.

    This parser runs the examples; the properties are stated for every
    [JsonRuntime].  It differs from the runtime's in two places: a number
    keeps its lexeme, and an escape of a code unit above 255 is refused,
    the strings here holding none. *)
Definition parse (s : string) : option json :=
  match parse_value (S (String.length s)) s with
  | Some (v, r) =>
      match skip_ws r with
      | EmptyString => Some v
      | _ => None
      end
  | None => None
  end.

End Json.

(** ** The sandbox, the bucket and the interaction trace *)

(** A thrown value: an [Error] with its message, or anything else. *)
Inductive js_exn : Type :=
| JsError (message : string)
| JsThrown.

(** How an awaited call settles. *)
Inductive result (A : Type) : Type :=
| Resolved (a : A)
| Rejected (e : js_exn).
Arguments Resolved {A} a.
Arguments Rejected {A} e.

(** A read raced against a timer: the read settles first, or the timer does. *)
Inductive race : Type :=
| Settled (r : result string)
| TimerFirst.

(** One page of [bucket.list]: the keys of its objects, and the continuation. *)
Record r2_objects : Type := {
  list_objects : list string;
  list_truncated : bool;
  list_cursor : option string
}.

(** An entry of [sandbox.listProcesses()]. *)
Record process : Type := {
  id : string;
  command : string;
  status : string
}.

(** A call together with its answer. *)
Inductive event : Type :=
| EvBucketGet (key : string) (r : result (option string))
| EvBucketPut (key value : string) (r : result unit)
| EvBucketDelete (key : string) (r : result unit)
| EvBucketList (prefix cursor : option string) (r : result r2_objects)
| EvExecStream (cmd : string) (r : result string)
| EvReadFileStream (path : string) (r : result string)
| EvReadFileRace (path : string) (timeoutMs : Z) (r : race)
| EvWriteFile (path content : string) (r : result unit)
| EvMkdir (path : string) (r : result unit)
| EvStartProcess (cmd : string) (r : result unit)
| EvListProcesses (r : result (list process))
| EvKill (proc : process) (r : result unit)
| EvEnsureGateway (r : result unit)
| EvSleep (ms : Z)
| EvTimer (ms : Z) (first : bool)
| EvDateNow (ms : Z)
| EvToISOString (iso : string).

Definition trace : Type := list event.

(** The environment of a run.  Every answer may depend on the calls made so
    far.  [ensureMoltbotGateway] belongs to a module that is not part of the
    sources at hand; it is a call like the others. *)
Record World : Type := {
  MOLTBOT_BUCKET : bool;
  MOLTBOT_GATEWAY_TOKEN : option string;
  bucket_get : trace -> string -> result (option string);
  bucket_put : trace -> string -> string -> result unit;
  bucket_delete : trace -> string -> result unit;
  bucket_list : trace -> option string -> option string -> result r2_objects;
  sandbox_execStream : trace -> string -> result string;
  sandbox_readFileStream : trace -> string -> result string;
  sandbox_readFileRace : trace -> string -> Z -> race;
  sandbox_writeFile : trace -> string -> string -> result unit;
  sandbox_mkdir : trace -> string -> result unit;
  sandbox_startProcess : trace -> string -> result unit;
  sandbox_listProcesses : trace -> result (list process);
  process_kill : trace -> process -> result unit;
  ensureMoltbotGateway : trace -> result unit;
  timer_first : trace -> Z -> bool;
  Date_now : trace -> Z;
  Date_toISOString : trace -> string
}.

(** What a run of an async function comes to: a value, an exception, or a
    loop that used up its budget of iterations. *)
Inductive outcome (A : Type) : Type :=
| Ret (a : A)
| Throw (e : js_exn)
| OutOfFuel.
Arguments Ret {A} a.
Arguments Throw {A} e.
Arguments OutOfFuel {A}.

(** An async function, run in a world after the calls [t]: what it comes to,
    and the calls it makes, in order. *)
Definition M (A : Type) : Type := World -> trace -> outcome A * trace.

Definition ret {A} (a : A) : M A := fun _ _ => (Ret a, []).

Definition throw {A} (e : js_exn) : M A := fun _ _ => (Throw e, []).

Definition out_of_fuel {A} : M A := fun _ _ => (OutOfFuel, []).

Definition bind {A B} (m : M A) (k : A -> M B) : M B :=
  fun W t =>
    match m W t with
    | (Ret a, d) => let '(o, d') := k a W (t ++ d) in (o, d ++ d')
    | (Throw e, d) => (Throw e, d)
    | (OutOfFuel, d) => (OutOfFuel, d)
    end.

(** [try { m } catch (e) { h e }] *)
Definition try_catch {A} (m : M A) (h : js_exn -> M A) : M A :=
  fun W t =>
    match m W t with
    | (Throw e, d) => let '(o, d') := h e W (t ++ d) in (o, d ++ d')
    | other => other
    end.

Declare Scope js_scope.
Delimit Scope js_scope with js.
Notation "x <- m ;; k" := (bind m (fun x => k))
  (at level 20, m at level 99, k at level 200, only parsing) : js_scope.
Notation "m ;; k" := (bind m (fun _ => k))
  (at level 100, k at level 200, only parsing) : js_scope.
Local Open Scope js_scope.

(** [for (const x of xs) body], with the variables the body updates as [s]. *)
Fixpoint for_of {A S} (xs : list A) (body : A -> S -> M S) (s : S) : M S :=
  match xs with
  | [] => ret s
  | x :: rest => s' <- body x s ;; for_of rest body s'
  end.

(** An awaited call: ask the world, record the call and its answer. *)
Definition await {A} (ask : World -> trace -> result A) (ev : result A -> event) : M A :=
  fun W t =>
    let r := ask W t in
    (match r with Resolved a => Ret a | Rejected e => Throw e end, [ev r]).

(** A call that cannot fail. *)
Definition observe {A} (ask : World -> trace -> A) (ev : A -> event) : M A :=
  fun W t => let a := ask W t in (Ret a, [ev a]).

Module Bucket.
Definition bound : M bool := fun W _ => (Ret (MOLTBOT_BUCKET W), []).
Definition get (key : string) : M (option string) :=
  await (fun W t => bucket_get W t key) (EvBucketGet key).
Definition put (key value : string) : M unit :=
  await (fun W t => bucket_put W t key value) (EvBucketPut key value).
Definition delete (key : string) : M unit :=
  await (fun W t => bucket_delete W t key) (EvBucketDelete key).
Definition list (prefix cursor : option string) : M r2_objects :=
  await (fun W t => bucket_list W t prefix cursor) (EvBucketList prefix cursor).
End Bucket.

Module Sandbox.
Definition execStream (cmd : string) : M string :=
  await (fun W t => sandbox_execStream W t cmd) (EvExecStream cmd).
Definition readFileStream (path : string) : M string :=
  await (fun W t => sandbox_readFileStream W t path) (EvReadFileStream path).
Definition readFileRace (path : string) (timeoutMs : Z) : M race :=
  observe (fun W t => sandbox_readFileRace W t path timeoutMs) (EvReadFileRace path timeoutMs).
Definition writeFile (path content : string) : M unit :=
  await (fun W t => sandbox_writeFile W t path content) (EvWriteFile path content).
Definition mkdir (path : string) : M unit :=
  await (fun W t => sandbox_mkdir W t path) (EvMkdir path).
Definition startProcess (cmd : string) : M unit :=
  await (fun W t => sandbox_startProcess W t cmd) (EvStartProcess cmd).
Definition listProcesses : M (list process) :=
  await (fun W t => sandbox_listProcesses W t) EvListProcesses.
Definition kill (proc : process) : M unit :=
  await (fun W t => process_kill W t proc) (EvKill proc).
End Sandbox.

Definition sleep (ms : Z) : M unit := fun _ _ => (Ret tt, [EvSleep ms]).
Definition timer_wins (ms : Z) : M bool :=
  observe (fun W t => timer_first W t ms) (EvTimer ms).
Definition now_ms : M Z := observe Date_now EvDateNow.
Definition now_iso : M string := observe Date_toISOString EvToISOString.
Definition gateway_token : M (option string) :=
  fun W _ => (Ret (MOLTBOT_GATEWAY_TOKEN W), []).
Definition ensure_gateway : M unit := await ensureMoltbotGateway EvEnsureGateway.

(** Code that makes no call: it comes to a value or to an exception. *)
Definition lift {A} (o : outcome A) : M A := fun _ _ => (o, []).

Definition and_then {A B} (o : outcome A) (k : A -> outcome B) : outcome B :=
  match o with
  | Ret a => k a
  | Throw e => Throw e
  | OutOfFuel => OutOfFuel
  end.

Notation "x <~ o ;; k" := (and_then o (fun x => k))
  (at level 20, o at level 99, k at level 200, only parsing) : js_scope.

(** [for (const x of xs) body] in code that makes no call. *)
Fixpoint each {A S} (xs : list A) (body : A -> S -> outcome S) (s : S) : outcome S :=
  match xs with
  | [] => Ret s
  | x :: rest => s' <~ body x s ;; each rest body s'
  end.

(** [v.name] on a parsed value: reading a property of [null] throws a
    [TypeError]; on an object it is the own property or [undefined]; the
    other values have none of the properties read here ([type], [data]). *)
Definition get_prop (v : json) (name : string) : outcome (option json) :=
  match v with
  | JNull => Throw (JsError ("Cannot read properties of null (reading '" +:+ name +:+ "')"))
  | JObject ms => Ret (Json.lookup name ms)
  | _ => Ret None
  end.

(** [v === 'literal'] *)
Definition strict_eq (v : option json) (literal : string) : bool :=
  match v with
  | Some (JString s) => String.eqb s literal
  | _ => false
  end.

(** [typeof v === 'string'], with the string. *)
Definition typeof_string (v : option json) : option string :=
  match v with
  | Some (JString s) => Some s
  | _ => None
  end.

(** ** src/gateway/sync.ts *)

Section Sync.
Context `{JsonRuntime}.

Record SyncResult : Type := {
  success : bool;
  lastSync : option string;
  error : option string;
  details : option string
}.

(** Parse SSE-formatted stream output: blocks separated by a blank line,
    each an optional [data: ] prefix and a JSON text. *)
Definition parseSSEEvents (raw : string) : list json :=
  fold_left
    (fun events block =>
       let line := Js.trim block in
       match line with
       | EmptyString => events
       | _ =>
           let jsonStr :=
             if Js.startsWith line "data: " then Js.slice_from 6 line else line in
           match JSON_parse jsonStr with
           | Some v => events ++ [v]
           | None => events
           end
       end)
    (Js.split raw (Js.LF +:+ Js.LF)) [].

Definition isCleanPath (path : string) : bool :=
  if Js.includes path Js.DQUOTE || Js.includes path "{" || Js.includes path "}"
  then false
  else if Js.includes path Js.BACKSLASH_N || Js.includes path Js.BACKSLASH_BACKSLASH
  then false
  else if Js.includes path "timestamp" && Js.includes path "data" then false
  else if Js.includes path "tdout" || Js.includes path "omplete" then false
  else if Js.includes path "exitCode" then false
  else true.

Definition find_command (dirPath : string) (excludeDirs : list string) : string :=
  let excludeArgs :=
    Js.join " "
      (map (fun d => "-not -path " +:+ Js.DQUOTE +:+ "*/" +:+ d +:+ "/*" +:+ Js.DQUOTE)
         excludeDirs) in
  "find " +:+ dirPath +:+ " -type f " +:+ excludeArgs
  +:+ " -not -path " +:+ Js.DQUOTE +:+ "*/.git/*" +:+ Js.DQUOTE
  +:+ " -not -name " +:+ Js.DQUOTE +:+ "*.lock" +:+ Js.DQUOTE
  +:+ " -not -name " +:+ Js.DQUOTE +:+ "*.log" +:+ Js.DQUOTE
  +:+ " -not -name " +:+ Js.DQUOTE +:+ "*.tmp" +:+ Js.DQUOTE
  +:+ " 2>/dev/null || true".

(** The paths one [stdout] event contributes to the listing. *)
Definition stdout_paths (data : string) : list string :=
  List.filter
    (fun path =>
       negb (String.eqb path EmptyString) && Js.startsWith path "/" && isCleanPath path)
    (Js.split (Js.trim data) Js.LF).

(** The loop over the events of a listing. *)
Definition listed_paths (events : list json) : outcome (list string) :=
  each events
    (fun evt files =>
       ty <~ get_prop evt "type" ;;
       if strict_eq ty "stdout" then
         data <~ get_prop evt "data" ;;
         match typeof_string data with
         | Some d => Ret (files ++ stdout_paths d)
         | None => Ret files
         end
       else Ret files)
    [].

Definition listContainerFiles (dirPath : string) (excludeDirs : list string)
  : M (list string) :=
  let cmd := find_command dirPath excludeDirs in
  raw <- Sandbox.execStream cmd ;;
  let events := parseSSEEvents raw in
  lift (listed_paths events).

(** The content of a file: the [data] of its [chunk] events, in order. *)
Definition chunk_content (events : list json) : outcome string :=
  each events
    (fun evt fileContent =>
       ty <~ get_prop evt "type" ;;
       if strict_eq ty "chunk" then
         data <~ get_prop evt "data" ;;
         match typeof_string data with
         | Some d => Ret (fileContent +:+ d)
         | None => Ret fileContent
         end
       else Ret fileContent)
    EmptyString.

Definition r2Key_of (containerDir r2Prefix filePath : string) : string :=
  let relativePath := Js.slice_from (String.length containerDir + 1) filePath in
  r2Prefix +:+ "/" +:+ relativePath.

Definition syncDirectory (containerDir r2Prefix : string) (excludeDirs : list string)
  : M nat :=
  files <- listContainerFiles containerDir excludeDirs ;;
  for_of files
    (fun filePath count =>
       try_catch
         (let r2Key := r2Key_of containerDir r2Prefix filePath in
          raw <- Sandbox.readFileStream filePath ;;
          let events := parseSSEEvents raw in
          fileContent <- lift (chunk_content events) ;;
          match fileContent with
          | EmptyString => ret count
          | _ => Bucket.put r2Key fileContent ;; ret (S count)
          end)
         (fun _ => ret count))
    0%nat.

(** The corruption test of the sweep. *)
Definition isCorruptedKey (key : string) : bool :=
  Js.includes key Js.DQUOTE || Js.includes key "{" || Js.includes key Js.BACKSLASH_N.

(** [while (cursor)]: [undefined] and the empty string end the loop. *)
Definition truthy (cursor : option string) : bool :=
  match cursor with
  | Some (String _ _) => true
  | _ => false
  end.

(** The [do ... while (cursor)] of the sweep; [fuel] bounds its iterations. *)
Fixpoint cleanCorruptedR2Keys_pages (fuel : nat) (cursor : option string) (deleted : nat)
  : M nat :=
  match fuel with
  | O => out_of_fuel
  | S fuel' =>
      list <- Bucket.list None cursor ;;
      deleted' <- for_of (list_objects list)
        (fun key deleted =>
           if isCorruptedKey key
           then try_catch (Bucket.delete key ;; ret (S deleted)) (fun _ => ret deleted)
           else ret deleted)
        deleted ;;
      let cursor' := if list_truncated list then list_cursor list else None in
      if truthy cursor' then cleanCorruptedR2Keys_pages fuel' cursor' deleted'
      else ret deleted'
  end.

Definition cleanCorruptedR2Keys (fuel : nat) : M unit :=
  cleanCorruptedR2Keys_pages fuel None 0%nat ;; ret tt.

(** The detection of one candidate config directory. *)
Definition probe (configDir : option string) (dir : string) : M (option string) :=
  match configDir with
  | Some _ => ret configDir
  | None =>
      try_catch
        (files <- listContainerFiles dir [] ;;
         ret (if (0 <? length files)%nat then Some dir else None))
        (fun _ => ret None)
  end.

Definition error_details (err : js_exn) : string :=
  match err with
  | JsError message => message
  | JsThrown => "Unknown error"
  end.

(** Lines 25 to 41: which config directory exists. *)
Definition detectConfigDir : M (option string) :=
  configDir <- probe None "/root/.openclaw" ;;
  probe configDir "/root/.clawdbot".

(** Lines 56 to 78: the three trees, and [totalFiles] after them. *)
Definition syncTrees (configDir : string) : M nat :=
  configFiles <- syncDirectory configDir "openclaw" [] ;;
  let totalFiles := configFiles in
  totalFiles <-
    try_catch
      (workspaceFiles <- syncDirectory "/root/clawd" "workspace" ["skills"] ;;
       ret (totalFiles + workspaceFiles)%nat)
      (fun _ => ret totalFiles) ;;
  try_catch
    (skillsFiles <- syncDirectory "/root/clawd/skills" "skills" [] ;;
     ret (totalFiles + skillsFiles)%nat)
    (fun _ => ret totalFiles).

Definition synced (now : string) (totalFiles : nat) : SyncResult :=
  {| success := true; lastSync := Some now; error := None;
     details := Some ("Synced " +:+ Js.of_nat totalFiles
                      +:+ " files to R2 (direct file transfer)") |}.

Definition failed (error details : string) : SyncResult :=
  {| success := false; lastSync := None; error := Some error; details := Some details |}.

Definition syncToR2 (fuel : nat) : M SyncResult :=
  bucket <- Bucket.bound ;;
  if negb bucket then
    ret {| success := false; lastSync := None;
           error := Some "R2 bucket binding not configured"; details := None |}
  else
    configDir <- detectConfigDir ;;
    match configDir with
    | None =>
        ret (failed "Nothing to sync"
               "No config directory found in the container. Pair a device first to generate config.")
    | Some configDir =>
        cleanCorruptedR2Keys fuel ;;
        try_catch
          (totalFiles <- syncTrees configDir ;;
           if (0 <? totalFiles)%nat then
             now <- now_iso ;;
             Bucket.put ".last-sync" now ;;
             ret (synced now totalFiles)
           else
             ret (failed "Nothing to sync"
                    "Config directory exists but contained no syncable files."))
          (fun err => ret (failed "Sync error" (error_details err)))
    end.

End Sync.

(** ** The R2 restore module *)

Section Restore.

(** R2 prefix and container directory, in the order of [Object.entries]. *)
Definition RESTORE_PREFIXES : list (string * string) :=
  [("openclaw/", "/root/.openclaw"); ("workspace/", "/root/clawd")].

Definition SKIP_EXTENSIONS : list string := [".jsonl"; ".bak"].

Definition shouldSkipKey (key : string) : bool :=
  if Js.endsWith key "/" then true
  else if existsb (fun ext => Js.includes key ext) SKIP_EXTENSIONS then true
  else if Js.includes key Js.DQUOTE || Js.includes key "{" || Js.includes key Js.BACKSLASH_N
  then true
  else false.

Definition mkdirCached (dir : string) (cache : gset string) : M (gset string) :=
  if decide (dir ∈ cache) then ret cache
  else
    try_catch (Sandbox.mkdir dir) (fun _ => ret tt) ;;
    ret ({[dir]} ∪ cache).

(** One object of a listing page.  The set of created directories is
    mutated in place, so what [mkdirCached] added to it stays when a later
    call of the same iteration throws; nothing before [mkdirCached] can
    throw, which is why the [try] can start after it here. *)
Definition restoreObject (prefix containerDir key : string)
    (st : nat * gset string) : M (nat * gset string) :=
  let '(count, createdDirs) := st in
  if shouldSkipKey key then ret (count, createdDirs)
  else
    let relativePath := Js.slice_from (String.length prefix) key in
    match relativePath with
    | EmptyString => ret (count, createdDirs)
    | _ =>
        let containerPath := containerDir +:+ "/" +:+ relativePath in
        let lastSlash := Js.lastIndexOf containerPath "/"%char in
        createdDirs <-
          (if (0 <? lastSlash)%Z
           then mkdirCached (Js.slice_to (Z.to_nat lastSlash) containerPath) createdDirs
           else ret createdDirs) ;;
        try_catch
          (r2Obj <- Bucket.get key ;;
           match r2Obj with
           | None => ret (count, createdDirs)
           | Some content =>
               Sandbox.writeFile containerPath content ;;
               ret (S count, createdDirs)
           end)
          (fun _ => ret (count, createdDirs))
    end.

(** The [do ... while (cursor)] of [restorePrefix]. *)
Fixpoint restorePrefix_pages (fuel : nat) (prefix containerDir : string)
    (cursor : option string) (st : nat * gset string) : M (nat * gset string) :=
  match fuel with
  | O => out_of_fuel
  | S fuel' =>
      listResult <- Bucket.list (Some prefix) cursor ;;
      st' <- for_of (list_objects listResult) (restoreObject prefix containerDir) st ;;
      let cursor' :=
        if list_truncated listResult then list_cursor listResult else None in
      if truthy cursor' then restorePrefix_pages fuel' prefix containerDir cursor' st'
      else ret st'
  end.

Definition restorePrefix (fuel : nat) (prefix containerDir : string) : M nat :=
  createdDirs <- mkdirCached containerDir ∅ ;;
  st <- restorePrefix_pages fuel prefix containerDir None (0%nat, createdDirs) ;;
  ret (fst st).

Definition restoreFromR2 (fuel : nat) : M bool :=
  bucket <- Bucket.bound ;;
  if negb bucket then ret false
  else
    lastSyncObj <- Bucket.get ".last-sync" ;;
    match lastSyncObj with
    | None => ret false
    | Some lastSync =>
        totalFiles <- for_of RESTORE_PREFIXES
          (fun '(prefix, containerDir) totalFiles =>
             try_catch
               (count <- restorePrefix fuel prefix containerDir ;;
                ret (totalFiles + count)%nat)
               (fun _ => ret totalFiles))
          0%nat ;;
        if (0 <? totalFiles)%nat then
          try_catch (Sandbox.writeFile "/root/.openclaw/.last-sync" lastSync)
            (fun _ => ret tt) ;;
          ret true
        else ret false
    end.

End Restore.

(** ** The admin API module *)

Section Api.
Context `{JsonRuntime}.

Definition CLI_TIMEOUT_MS : Z := 15000.
Definition DONE_MARKER : string := "__EXEC_DONE__".
Definition DEVICES_TIMEOUT_MS : Z := 20000.

(** Read a file with a timeout: [null] when the read fails or the timer
    fires first. *)
Definition readFile (path : string) (timeoutMs : Z) : M (option string) :=
  result <- Sandbox.readFileRace path timeoutMs ;;
  match result with
  | Settled (Resolved out) => ret (Some out)
  | Settled (Rejected _) => ret None
  | TimerFirst => ret None
  end.

(** [cmd.replace(/'/g, "'\\''")] *)
Fixpoint escape_single_quotes (cmd : string) : string :=
  match cmd with
  | EmptyString => EmptyString
  | String c rest =>
      if Ascii.eqb c "'"%char then "'\''" +:+ escape_single_quotes rest
      else String c (escape_single_quotes rest)
  end.

(** [content.replace(DONE_MARKER, '').trim()] *)
Definition strip_marker (content : string) : string :=
  Js.trim (Js.remove_first DONE_MARKER content).

Definition execCommand (cmd : string) (timeoutMs : Z) : M string :=
  tag <- now_ms ;;
  let outFile := "/tmp/exec-" +:+ Js.of_Z tag +:+ ".out" in
  let escaped := escape_single_quotes cmd in
  let shellCmd :=
    "sh -c 'timeout 12 " +:+ escaped +:+ " > " +:+ outFile +:+ " 2>&1; echo "
    +:+ DONE_MARKER +:+ " >> " +:+ outFile +:+ "'" in
  Sandbox.startProcess shellCmd ;;
  let waitMs := Z.min (timeoutMs - 2000) 10000 in
  sleep waitMs ;;
  content <- readFile outFile 5000 ;;
  let done :=
    match content with
    | Some c => Js.includes c DONE_MARKER
    | None => false
    end in
  if done then
    ret (strip_marker (default EmptyString content))
  else
    sleep 3000 ;;
    retry <- readFile outFile 5000 ;;
    match retry with
    | Some r => ret (strip_marker r)
    | None =>
        ret match content with
            | Some c => strip_marker c
            | None => EmptyString
            end
    end.

Definition isGateway (proc : process) : bool :=
  Js.includes (command proc) "start-openclaw.sh"
  || Js.includes (command proc) "openclaw gateway"
  || Js.includes (command proc) "start-moltbot.sh"
  || Js.includes (command proc) "clawdbot gateway".

Definition isLive (proc : process) : bool :=
  String.eqb (status proc) "running" || String.eqb (status proc) "starting".

Definition cleanupOrphanedProcesses : M nat :=
  try_catch
    (processes <- Sandbox.listProcesses ;;
     if (length processes <=? 5)%nat then ret 0%nat
     else
       for_of processes
         (fun proc killed =>
            if negb (isGateway proc) && isLive proc
            then try_catch (Sandbox.kill proc ;; ret (S killed)) (fun _ => ret killed)
            else ret killed)
         0%nat)
    (fun _ => ret 0%nat).

(** What the handler answers when the CLI output holds no usable JSON. *)
Definition no_devices (stdout : string) : json :=
  JObject [("pending", JArray []); ("paired", JArray []);
           ("raw", JString (Js.or_else stdout "No output from CLI"))].

(** The tail of the handler: from the CLI output to the answer. *)
Definition devices_of_output (stdout : string) : json :=
  match Js.match_braces stdout with
  | Some jsonMatch =>
      match JSON_parse jsonMatch with
      | Some v => v
      | None => no_devices stdout
      end
  | None => no_devices stdout
  end.

Definition tokenArg (token : option string) : string :=
  match token with
  | Some (String _ _ as t) => " --token " +:+ t
  | _ => EmptyString
  end.

(** The [handler] closure of [GET /devices]. *)
Definition devices_handler : M json :=
  ensure_gateway ;;
  cleanupOrphanedProcesses ;;
  token <- gateway_token ;;
  let cmd :=
    "openclaw devices list --json --url ws://localhost:18789" +:+ tokenArg token in
  stdout <- execCommand cmd CLI_TIMEOUT_MS ;;
  ret (devices_of_output stdout).

(** The promise of an async function that has been called: its calls are
    made, and what it comes to is there to be looked at. *)
Definition settled {A} (m : M A) : M (outcome A) :=
  fun W t =>
    match m W t with
    | (OutOfFuel, d) => (OutOfFuel, d)
    | (o, d) => (Ret o, d)
    end.

(** [GET /devices]: the handler raced against the endpoint's timer; the
    status and the JSON body of the response.  The handler makes its calls
    whatever the timer does; the race goes to the timer, which rejects, or
    to what the handler came to. *)
Definition get_devices : M (Z * json) :=
  try_catch
    (handled <- settled devices_handler ;;
     late <- timer_wins DEVICES_TIMEOUT_MS ;;
     if late then throw (JsError "Devices endpoint timed out")
     else result <- lift handled ;; ret (200%Z, result))
    (fun error =>
       ret (500%Z, JObject [("error", JString (error_details error));
                            ("pending", JArray []); ("paired", JArray [])])).

End Api.

(** ** The loop of the event stream parser, block by block

    The body of the loop of [parseSSEEvents] as a function of one block,
    so that the loop is a map over the blocks.  These are the code's own
    steps under other names; what they come to is stated, in words that
    do not use them, under the properties. *)

Section ParserSpec.
Context `{JsonRuntime}.

(** [line.startsWith('data: ') ? line.slice(6) : line] *)
Definition strip_data_prefix (line : string) : string :=
  if Js.startsWith line "data: " then Js.slice_from 6 line else line.

(** One turn of the loop: [block.trim()], [continue] when nothing is left,
    and [JSON.parse] in its [try]. *)
Definition decode_block (block : string) : option json :=
  match Js.trim block with
  | EmptyString => None
  | line => JSON_parse (strip_data_prefix line)
  end.

End ParserSpec.

(** ** What a run did: projections of its trace *)

Module Calls.

Definition deletes (d : trace) : list string :=
  omap (fun e => match e with EvBucketDelete key _ => Some key | _ => None end) d.

(** Every [put], with its key and value. *)
Definition puts (d : trace) : list (string * string) :=
  omap (fun e => match e with EvBucketPut key value _ => Some (key, value) | _ => None end) d.

(** The [put]s the bucket accepted. *)
Definition stored (d : trace) : list (string * string) :=
  omap (fun e => match e with
                 | EvBucketPut key value (Resolved _) => Some (key, value)
                 | _ => None
                 end) d.

(** The answered [list] calls: prefix, cursor and page. *)
Definition listings (d : trace) : list (option string * option string * r2_objects) :=
  omap (fun e => match e with
                 | EvBucketList prefix cursor (Resolved page) => Some (prefix, cursor, page)
                 | _ => None
                 end) d.

(** The keys the bucket listed, page after page. *)
Definition listed (d : trace) : list string :=
  concat (map (fun l => list_objects (snd l)) (listings d)).

Definition gets (d : trace) : list string :=
  omap (fun e => match e with EvBucketGet key _ => Some key | _ => None end) d.

(** The objects the bucket returned: key and content. *)
Definition fetched (d : trace) : list (string * string) :=
  omap (fun e => match e with
                 | EvBucketGet key (Resolved (Some content)) => Some (key, content)
                 | _ => None
                 end) d.

Definition writes (d : trace) : list (string * string) :=
  omap (fun e => match e with
                 | EvWriteFile path content _ => Some (path, content)
                 | _ => None
                 end) d.

Definition written (d : trace) : list (string * string) :=
  omap (fun e => match e with
                 | EvWriteFile path content (Resolved _) => Some (path, content)
                 | _ => None
                 end) d.

Definition mkdirs (d : trace) : list string :=
omap (fun e => match e with EvMkdir path _ => Some path | _ => None end) d.

Definition kills (d : trace) : list process :=
  omap (fun e => match e with EvKill proc _ => Some proc | _ => None end) d.

Definition killed (d : trace) : list process :=
  omap (fun e => match e with EvKill proc (Resolved _) => Some proc | _ => None end) d.

(** What the raced reads of the output file gave: the text, or nothing. *)
Definition reads (d : trace) : list (option string) :=
  omap (fun e => match e with
                 | EvReadFileRace _ _ (Settled (Resolved out)) => Some (Some out)
                 | EvReadFileRace _ _ _ => Some None
                 | _ => None
                 end) d.

(** The calls into the sandbox. *)
Definition is_sandbox (e : event) : bool :=
  match e with
  | EvExecStream _ _ | EvReadFileStream _ _ | EvReadFileRace _ _ _
  | EvWriteFile _ _ _ | EvMkdir _ _ | EvStartProcess _ _
  | EvListProcesses _ | EvKill _ _ | EvEnsureGateway _ => true
  | _ => false
  end.

Definition sandbox (d : trace) : trace := List.filter is_sandbox d.

End Calls.

(** ** Vocabulary of the properties *)

(** A process the cleanup is after: not the gateway, and running or
    starting. *)
Definition isOrphan (proc : process) : bool :=
  negb (isGateway proc) && isLive proc.

Definition is_kill (e : event) : bool :=
  match e with EvKill _ _ => true | _ => false end.

(** A read of the output file observes completion when it returns a text
    that holds the sentinel. *)
Definition observed_done (read : option string) : bool :=
  match read with
  | Some content => Js.includes content DONE_MARKER
  | None => false
  end.

(** The text [execCommand] goes by: the first read when it observed
    completion; otherwise the retry when it returned a text at all;
    otherwise what the first read returned. *)
Definition chosen_read (first retry : option string) : option string :=
  if observed_done first then first
  else match retry with
       | Some r => Some r
       | None => first
       end.

Definition shell_command (cmd : string) (tag : Z) : string :=
  let outFile := "/tmp/exec-" +:+ Js.of_Z tag +:+ ".out" in
  "sh -c 'timeout 12 " +:+ escape_single_quotes cmd +:+ " > " +:+ outFile +:+ " 2>&1; echo "
  +:+ DONE_MARKER +:+ " >> " +:+ outFile +:+ "'".

(** The answer of a raced read as [readFile] hands it on. *)
Definition read_of (r : race) : option string :=
  match r with
  | Settled (Resolved out) => Some out
  | _ => None
  end.

(** ** The specification's reading of the device payload *)

Module SpecWords.

(** After an opening brace, with [depth] braces open: the text up to and
    including the brace that closes the first one. *)
Fixpoint balanced_tail (depth : nat) (s : string) : option string :=
  match s with
  | EmptyString => None
  | String c rest =>
      if Ascii.eqb c "{"%char then String c <$> balanced_tail (S depth) rest
      else if Ascii.eqb c "}"%char then
        match depth with
        | O => Some (String c EmptyString)
        | S depth' => String c <$> balanced_tail depth' rest
        end
      else String c <$> balanced_tail depth rest
  end.

(** The first balanced [{...}] span of a text. *)
Fixpoint first_balanced_span (s : string) : option string :=
  match s with
  | EmptyString => None
  | String c rest =>
      if Ascii.eqb c "{"%char then
        match balanced_tail 0 rest with
        | Some r => Some (String c r)
        | None => first_balanced_span rest
        end
      else first_balanced_span rest
  end.

End SpecWords.

(** The substrings [isCleanPath] looks for, beyond the quote, the braces and
    the escaped newline. *)
Definition has_sse_fragment (path : string) : bool :=
  Js.includes path "tdout" || Js.includes path "omplete" || Js.includes path "exitCode"
  || (Js.includes path "timestamp" && Js.includes path "data").

Section SyncVocabulary.
Context `{JsonRuntime}.

(** What the read of a file leads to: the object to upload, when the read
    went through and the content put together from its chunks is not
    empty. *)
Definition upload_of (containerDir r2Prefix : string) (e : event)
  : option (string * string) :=
  match e with
  | EvReadFileStream filePath (Resolved raw) =>
      match chunk_content (parseSSEEvents raw) with
      | Ret (String c rest) =>
          Some (r2Key_of containerDir r2Prefix filePath, String c rest)
      | _ => None
      end
  | _ => None
  end.

(** The reads whose reconstructed content is the empty string. *)
Definition is_empty_read (e : event) : bool :=
  match e with
  | EvReadFileStream _ (Resolved raw) =>
      match chunk_content (parseSSEEvents raw) with
      | Ret EmptyString => true
      | _ => false
      end
  | _ => false
  end.

Definition read_paths (d : trace) : list string :=
  omap (fun e => match e with EvReadFileStream path _ => Some path | _ => None end) d.

End SyncVocabulary.

(** ** Paginated listings *)

(** The cursor a page hands on: [list.truncated ? list.cursor : undefined]. *)
Definition continuation (page : r2_objects) : option string :=
  if list_truncated page then list_cursor page else None.

(** The listing of a prefix comes to an end: every [list] call is answered,
    and following the cursor of a page brings the end closer, [remaining]
    being a bound on the pages still to come. *)
Definition listing_ends (W : World) (prefix : option string)
    (remaining : option string -> nat) : Prop :=
  forall t cursor, exists page,
    bucket_list W t prefix cursor = Resolved page
    /\ (truthy (continuation page) = true ->
        (remaining (continuation page) < remaining cursor)%nat).

(** The [list] calls of a run walk a whole listing: the first from [cursor],
    each following one from the cursor of the page before, the last page
    handing on no cursor. *)
Inductive walked (prefix : option string)
  : option string -> list (option string * option string * r2_objects) -> Prop :=
| walked_last cursor page :
    truthy (continuation page) = false ->
    walked prefix cursor [(prefix, cursor, page)]
| walked_next cursor page rest :
    truthy (continuation page) = true ->
    walked prefix (continuation page) rest ->
    walked prefix cursor ((prefix, cursor, page) :: rest).

Definition is_list_or_delete (e : event) : bool :=
  match e with
  | EvBucketList _ _ _ | EvBucketDelete _ _ => true
  | _ => false
  end.

Definition is_delete (e : event) : bool :=
  match e with EvBucketDelete _ _ => true | _ => false end.

(** ** Vocabulary of the restore *)

(** Where an object of a prefix goes in the container. *)
Definition target_path (prefix containerDir key : string) : string :=
  containerDir +:+ "/" +:+ Js.slice_from (String.length prefix) key.

(** An object restorePrefix goes on to fetch: its key is not skipped and is
    longer than the prefix. *)
Definition restorable (prefix key : string) : bool :=
  negb (shouldSkipKey key)
  && negb (String.eqb (Js.slice_from (String.length prefix) key) EmptyString).

(** The bucket returns every object it is asked for. *)
Definition bucket_serves (W : World) : Prop :=
  forall t key, exists content, bucket_get W t key = Resolved (Some content).

(** The specification's reading of an excluded extension: the key ends in
    it. *)
Definition has_excluded_extension (key : string) : bool :=
  existsb (fun ext => Js.endsWith key ext) SKIP_EXTENSIONS.

Definition is_restore_step (e : event) : bool :=
  match e with
  | EvBucketGet _ _ | EvMkdir _ _ | EvWriteFile _ _ _ => true
  | _ => false
  end.

(** What a caller gets from a settled promise.  JavaScript keeps booleans and
    numbers apart: [false] and [0] are different values. *)
Inductive js_value : Type :=
| JsBoolean (b : bool)
| JsNumber (n : Z).

Definition restoreFromR2_value (fuel : nat) : M js_value :=
  bind (restoreFromR2 fuel) (fun restored => ret (JsBoolean restored)).

Definition is_list_or_restore_step (e : event) : bool :=
  match e with
  | EvBucketList _ _ _ => true
  | _ => is_restore_step e
  end.

(** A key of one of the three synced trees. *)
Definition is_tree_key (key : string) : bool :=
  Js.startsWith key "openclaw/" || Js.startsWith key "workspace/"
  || Js.startsWith key "skills/".

(** ** Test doubles

    Worlds in the manner of the repository's test suite ([sync.test.ts]):
    mocks whose answers are scripted, the [n]-th call of a kind getting the
    [n]-th answer, and SSE text as the sandbox streams it. *)

Module Mock.

(** [JSON.stringify] of a string without control characters other than
    the line feed. *)
Fixpoint stringify_chars (s : string) : string :=
  match s with
  | EmptyString => EmptyString
  | String c rest =>
      (if Ascii.eqb c "034"%char then "\" +:+ Js.DQUOTE
       else if Ascii.eqb c "\"%char then "\\"
       else if Ascii.eqb c "010"%char then "\n"
       else String c EmptyString) +:+ stringify_chars rest
  end.

Definition stringify (s : string) : string :=
  Js.DQUOTE +:+ stringify_chars s +:+ Js.DQUOTE.

Definition sse (payload : string) : string :=
  "data: " +:+ payload +:+ Js.LF +:+ Js.LF.

Definition sseStdout (data : string) : string :=
  sse ("{" +:+ stringify "type" +:+ ":" +:+ stringify "stdout" +:+ ","
       +:+ stringify "data" +:+ ":" +:+ stringify data +:+ "}").

Definition sseChunk (data : string) : string :=
  sse ("{" +:+ stringify "type" +:+ ":" +:+ stringify "chunk" +:+ ","
       +:+ stringify "data" +:+ ":" +:+ stringify data +:+ "}").

Definition sseMetadata : string :=
  sse ("{" +:+ stringify "type" +:+ ":" +:+ stringify "metadata" +:+ ","
       +:+ stringify "mimeType" +:+ ":" +:+ stringify "text/plain" +:+ ","
       +:+ stringify "size" +:+ ":100," +:+ stringify "isBinary" +:+ ":false}").

Definition sseComplete : string :=
  sse ("{" +:+ stringify "type" +:+ ":" +:+ stringify "complete" +:+ ","
       +:+ stringify "bytesRead" +:+ ":100}").

(** The stream of a file with the given content. *)
Definition fileStream (content : string) : string :=
  sseMetadata +:+ sseChunk content +:+ sseComplete.

Definition is_execStream (e : event) : bool :=
  match e with EvExecStream _ _ => true | _ => false end.
Definition is_readFileStream (e : event) : bool :=
  match e with EvReadFileStream _ _ => true | _ => false end.
Definition is_readFileRace (e : event) : bool :=
  match e with EvReadFileRace _ _ _ => true | _ => false end.

(** [mockResolvedValueOnce] chains: the answer to the next call of a kind
    is picked by the number of calls of that kind made so far. *)
Definition scripted {A} (kind : event -> bool) (answers : list A) (dflt : A)
    (t : trace) : A :=
  nth (length (List.filter kind t)) answers dflt.

Definition no_objects : r2_objects :=
  {| list_objects := []; list_truncated := false; list_cursor := None |}.

(** A bucket listing in pages.  The cursor to page [i] is a text of [i]
    characters; a page is truncated when another one follows it. *)
Fixpoint cursor_to (i : nat) : string :=
  match i with
  | O => EmptyString
  | S i' => String ">"%char (cursor_to i')
  end.

Definition page_index (cursor : option string) : nat :=
  match cursor with
  | None => 0
  | Some c => String.length c
  end.

Definition paged (pages : list (list string)) (cursor : option string) : r2_objects :=
  let i := page_index cursor in
  {| list_objects := nth i pages [];
     list_truncated := (S i <? length pages)%nat;
     list_cursor := Some (cursor_to (S i)) |}.

(** A sandbox whose [execStream] and [readFileStream] are scripted, with a
    bucket that accepts every write except those of the keys in [refused]
    and lists its keys in the pages [pages]. *)
Definition syncWorld (execs reads : list (result string)) (pages : list (list string))
    (refused : list string) : World :=
  {| MOLTBOT_BUCKET := true;
     MOLTBOT_GATEWAY_TOKEN := None;
     bucket_get := fun _ _ => Resolved None;
     bucket_put := fun _ key _ =>
       if existsb (String.eqb key) refused then Rejected (JsError "put failed")
       else Resolved tt;
     bucket_delete := fun _ _ => Resolved tt;
     bucket_list := fun _ _ cursor => Resolved (paged pages cursor);
     sandbox_execStream := fun t _ =>
       scripted is_execStream execs (Resolved (sseStdout EmptyString)) t;
     sandbox_readFileStream := fun t _ =>
       scripted is_readFileStream reads (Rejected (JsError "File not found")) t;
     sandbox_readFileRace := fun _ _ _ => TimerFirst;
     sandbox_writeFile := fun _ _ _ => Resolved tt;
     sandbox_mkdir := fun _ _ => Resolved tt;
     sandbox_startProcess := fun _ _ => Resolved tt;
     sandbox_listProcesses := fun _ => Resolved [];
     process_kill := fun _ _ => Resolved tt;
     ensureMoltbotGateway := fun _ => Resolved tt;
     timer_first := fun _ _ => false;
     Date_now := fun _ => 1767225600000%Z;
     Date_toISOString := fun _ => "2026-01-01T00:00:00.000Z" |}.

(** A bucket holding [store], its keys listed in the pages [pages], in
    front of a sandbox that accepts every write.  (The listing takes no
    account of the prefix: the pages are those of the prefix at hand.) *)
Definition restoreWorld (store : list (string * string)) (pages : list (list string))
    : World :=
  {| MOLTBOT_BUCKET := true;
     MOLTBOT_GATEWAY_TOKEN := None;
     bucket_get := fun _ key =>
       Resolved (snd <$> List.find (fun kv => String.eqb (fst kv) key) store);
     bucket_put := fun _ _ _ => Resolved tt;
     bucket_delete := fun _ _ => Resolved tt;
     bucket_list := fun _ _ cursor => Resolved (paged pages cursor);
     sandbox_execStream := fun _ _ => Resolved (sseStdout EmptyString);
     sandbox_readFileStream := fun _ _ => Rejected (JsError "File not found");
     sandbox_readFileRace := fun _ _ _ => TimerFirst;
     sandbox_writeFile := fun _ _ _ => Resolved tt;
     sandbox_mkdir := fun _ _ => Resolved tt;
     sandbox_startProcess := fun _ _ => Resolved tt;
     sandbox_listProcesses := fun _ => Resolved [];
     process_kill := fun _ _ => Resolved tt;
     ensureMoltbotGateway := fun _ => Resolved tt;
     timer_first := fun _ _ => false;
     Date_now := fun _ => 1767225600000%Z;
     Date_toISOString := fun _ => "2026-01-01T00:00:00.000Z" |}.

(** A sandbox for the admin API: the raced reads are scripted, the process
    table is [processes], [startProcess] answers [started] and killing a
    process whose id is in [unkillable] fails. *)
Definition adminWorld (started : result unit) (races : list race)
    (processes : list process) (unkillable : list string) : World :=
  {| MOLTBOT_BUCKET := true;
     MOLTBOT_GATEWAY_TOKEN := None;
     bucket_get := fun _ _ => Resolved None;
     bucket_put := fun _ _ _ => Resolved tt;
     bucket_delete := fun _ _ => Resolved tt;
     bucket_list := fun _ _ _ => Resolved no_objects;
     sandbox_execStream := fun _ _ => Resolved (sseStdout EmptyString);
     sandbox_readFileStream := fun _ _ => Rejected (JsError "File not found");
     sandbox_readFileRace := fun t _ _ => scripted is_readFileRace races TimerFirst t;
     sandbox_writeFile := fun _ _ _ => Resolved tt;
     sandbox_mkdir := fun _ _ => Resolved tt;
     sandbox_startProcess := fun _ _ => started;
     sandbox_listProcesses := fun _ => Resolved processes;
     process_kill := fun _ proc =>
       if existsb (String.eqb (id proc)) unkillable then Rejected (JsError "kill failed")
       else Resolved tt;
     ensureMoltbotGateway := fun _ => Resolved tt;
     timer_first := fun _ _ => false;
     Date_now := fun _ => 1767225600000%Z;
     Date_toISOString := fun _ => "2026-01-01T00:00:00.000Z" |}.

(** The same world without the bucket binding. *)
Definition withoutBucket (W : World) : World :=
  {| MOLTBOT_BUCKET := false;
     MOLTBOT_GATEWAY_TOKEN := MOLTBOT_GATEWAY_TOKEN W;
     bucket_get := bucket_get W;
     bucket_put := bucket_put W;
     bucket_delete := bucket_delete W;
     bucket_list := bucket_list W;
     sandbox_execStream := sandbox_execStream W;
     sandbox_readFileStream := sandbox_readFileStream W;
     sandbox_readFileRace := sandbox_readFileRace W;
     sandbox_writeFile := sandbox_writeFile W;
     sandbox_mkdir := sandbox_mkdir W;
     sandbox_startProcess := sandbox_startProcess W;
     sandbox_listProcesses := sandbox_listProcesses W;
     process_kill := process_kill W;
     ensureMoltbotGateway := ensureMoltbotGateway W;
     timer_first := timer_first W;
     Date_now := Date_now W;
     Date_toISOString := Date_toISOString W |}.

End Mock.

(** ** Example runs *)

Module Examples.
Import Mock.

Definition proc (id command status : string) : process :=
  {| id := id; command := command; status := status |}.

(** Six processes: the gateway, a finished command, and four stragglers
    of which one cannot be killed. *)
Definition six_processes : list process :=
  [ proc "p1" "/usr/local/bin/start-openclaw.sh" "running";
    proc "p2" "sh -c 'timeout 12 openclaw devices list'" "completed";
    proc "p3" "sh -c 'timeout 12 openclaw devices list'" "running";
    proc "p4" "sh -c 'timeout 12 openclaw devices approve x'" "starting";
    proc "p5" "cat /tmp/exec-1.out" "running";
    proc "p6" "sleep 1000" "failed" ].

Definition crowded : World := adminWorld (Resolved tt) [] six_processes ["p4"].

(** Both reads of the output file return a text without the sentinel. *)
Definition slow_command : World :=
  adminWorld (Resolved tt)
    [Settled (Resolved "Connecting to gateway"); Settled (Resolved "Connecting to gateway...")]
    [] [].

(** The sandbox refuses to start the process. *)
Definition no_start : World :=
  adminWorld (Rejected (JsError "Too many processes")) [] [] [].

(** The command completed before the first read. *)
Definition quick_command : World :=
  adminWorld (Resolved tt)
    [Settled (Resolved ("paired: none" +:+ Js.LF +:+ "__EXEC_DONE__" +:+ Js.LF))] [] [].

(** The JSON payload of the device list, then a log line. *)
Definition devices_json : string :=
  "{" +:+ stringify "pending" +:+ ":[]," +:+ stringify "paired" +:+ ":[]}".
Definition chatty_output : string :=
  devices_json +:+ Js.LF +:+ "[info] {gateway} connected".

(** A workspace listing with a file whose name holds [omplete]. *)
Definition workspace_listing : string :=
  sseStdout ("/root/clawd/IDENTITY.md" +:+ Js.LF +:+ "/root/clawd/incomplete.md" +:+ Js.LF
             +:+ "relative/path.md" +:+ Js.LF).
Definition workspace : World := syncWorld [Resolved workspace_listing] [] [] [].

(** A config directory with two files, the second of them empty. *)
Definition config_listing : string :=
  sseStdout ("/root/.openclaw/openclaw.json" +:+ Js.LF
             +:+ "/root/.openclaw/notes.txt" +:+ Js.LF).
Definition empty_file_stream : string := sseMetadata +:+ sseComplete.
Definition one_empty_file : World :=
  syncWorld [Resolved config_listing]
    [Resolved (fileStream "{}"); Resolved empty_file_stream] [] [].

(** A bucket of two pages with keys left behind by the faulty sync. *)
Definition dirty_pages : list (list string) :=
  [ ["openclaw/openclaw.json";
     "openclaw/{" +:+ Js.DQUOTE +:+ "type" +:+ Js.DQUOTE +:+ ":" +:+ Js.DQUOTE +:+ "stdout";
     "workspace/notes}.md"];
    ["workspace/a\nb"; "workspace/IDENTITY.md"] ].
Definition dirty_bucket : World := syncWorld [] [] dirty_pages [].

(** First boot: an empty bucket. *)
Definition first_boot : World := restoreWorld [] [].

(** A workspace backup of five objects: two with excluded extensions and one
    with a corrupted key. *)
Definition five_keys : list string :=
[ "workspace/IDENTITY.md";
  "workspace/sessions/2026-01-01.jsonl";
  "workspace/openclaw.json.bak";
  "workspace/{" +:+ Js.DQUOTE +:+ "type" +:+ Js.DQUOTE +:+ ":" +:+ Js.DQUOTE +:+ "stdout";
  "workspace/memory/notes.md" ].
Definition five_objects : World :=
restoreWorld (map (fun key => (key, "content of " +:+ key)) five_keys) [five_keys].

(** A workspace backup with a file in a directory named my.bakery. *)
Definition bakery_keys : list string :=
[ "workspace/my.bakery/menu.md"; "workspace/IDENTITY.md" ].
Definition bakery : World :=
restoreWorld (map (fun key => (key, "content of " +:+ key)) bakery_keys) [bakery_keys].

(** The run of the test suite's [syncs files to R2 and returns success]: two
    config files and one workspace file. *)
Definition openclaw_listing : string :=
sseStdout ("/root/.openclaw/openclaw.json" +:+ Js.LF
           +:+ "/root/.openclaw/state.json" +:+ Js.LF).
Definition three_files_listings : list (result string) :=
[ Resolved openclaw_listing; Resolved openclaw_listing;
  Resolved (sseStdout ("/root/clawd/IDENTITY.md" +:+ Js.LF));
  Resolved (sseStdout EmptyString) ].
Definition three_files_streams : list (result string) :=
[ Resolved (fileStream "{}"); Resolved (fileStream "[1, 2]");
  Resolved (fileStream "# Identity") ].
Definition three_files : World :=
syncWorld three_files_listings three_files_streams [] [].

(** The same sandbox in front of a bucket that refuses the marker. *)
Definition marker_refused : World :=
syncWorld three_files_listings three_files_streams [] [".last-sync"].

(** The run of the test suite's [handles read errors gracefully and
    continues]: the read of the second config file fails. *)
Definition other_listing : string :=
sseStdout ("/root/.openclaw/openclaw.json" +:+ Js.LF
           +:+ "/root/.openclaw/other.json" +:+ Js.LF).
Definition second_read_fails : World :=
syncWorld [Resolved other_listing; Resolved other_listing]
  [Resolved (fileStream "{}"); Rejected (JsError "File not found")] [] [].

(** The run of [returns "Nothing to sync" when no config directory exists]. *)
Definition no_config : World := syncWorld [] [] [] [].

(** A sandbox that lists the config directory once and then fails to. *)
Definition listing_fails : World :=
syncWorld [Resolved openclaw_listing; Rejected (JsError "exec failed")] [] [] [].
End Examples.

(** ** The admin API module: the other routes *)

(** [s.toLowerCase()] on code units below 256: the capitals of ASCII, and
    those of Latin-1 (192 to 222, the multiplication sign 215 apart), go 32
    units up; every other unit stays. *)
Definition toLowerCase_unit (c : ascii) : ascii :=
  let n := nat_of_ascii c in
  if ((65 <=? n)%nat && (n <=? 90)%nat)
     || ((192 <=? n)%nat && (n <=? 222)%nat && negb (n =? 215)%nat)
  then ascii_of_nat (n + 32)
  else c.

Fixpoint toLowerCase (s : string) : string :=
  match s with
  | EmptyString => EmptyString
  | String c rest => String (toLowerCase_unit c) (toLowerCase rest)
  end.

(** A property of a response body that is left out when [undefined]. *)
Definition member (name : string) (value : option string) : list (string * json) :=
  match value with
  | Some s => [(name, JString s)]
  | None => []
  end.

(** The three R2 credentials of the environment. *)
Record R2Credentials : Type := {
  R2_ACCESS_KEY_ID : option string;
  R2_SECRET_ACCESS_KEY : option string;
  CF_ACCOUNT_ID : option string
}.

Section AdminRoutes.
Context `{JsonRuntime}.

(** [POST /devices/:requestId/approve]: the status and the JSON body of the
    response. *)
Definition approve_device (requestId : option string) : M (Z * json) :=
  match requestId with
  | Some (String _ _ as requestId) =>
      try_catch
        (ensure_gateway ;;
         token <- gateway_token ;;
         stdout <- execCommand
           ("openclaw devices approve " +:+ requestId +:+ " --url ws://localhost:18789"
            +:+ tokenArg token)
           CLI_TIMEOUT_MS ;;
         let success := Js.includes (toLowerCase stdout) "approved" in
         ret (200%Z,
              JObject [("success", JBool success); ("requestId", JString requestId);
                       ("message", JString (if success then "Device approved"
                                            else "Approval may have failed"));
                       ("stdout", JString stdout)]))
        (fun error => ret (500%Z, JObject [("error", JString (error_details error))]))
  | _ => ret (400%Z, JObject [("error", JString "requestId is required")])
  end.

Definition hasCredentials (env : R2Credentials) : bool :=
  truthy (R2_ACCESS_KEY_ID env) && truthy (R2_SECRET_ACCESS_KEY env)
  && truthy (CF_ACCOUNT_ID env).

(** Which credentials are missing. *)
Definition missing (env : R2Credentials) : list string :=
  (if truthy (R2_ACCESS_KEY_ID env) then [] else ["R2_ACCESS_KEY_ID"])
  ++ (if truthy (R2_SECRET_ACCESS_KEY env) then [] else ["R2_SECRET_ACCESS_KEY"])
  ++ (if truthy (CF_ACCOUNT_ID env) then [] else ["CF_ACCOUNT_ID"]).

(** The last sync timestamp, read directly from the bucket; reading through
    a binding that is not there is a [TypeError], caught like any other. *)
Definition storage_lastSync (env : R2Credentials) : M (option string) :=
  if hasCredentials env then
    try_catch
      (bucket <- Bucket.bound ;;
       if negb bucket
       then throw (JsError "Cannot read properties of undefined (reading 'get')")
       else
         tsObj <- Bucket.get ".last-sync" ;;
         match tsObj with
         | Some text =>
             match Js.trim text with
             | EmptyString => ret None
             | timestamp => ret (Some timestamp)
             end
         | None => ret None
         end)
      (fun _ => ret None)
  else ret None.

(** [GET /storage]: the JSON body of the response (its status is 200). *)
Definition get_storage (env : R2Credentials) : M json :=
  lastSync <- storage_lastSync env ;;
  ret (JObject
         ([("configured", JBool (hasCredentials env))]
          ++ match missing env with
             | [] => []
             | names => [("missing", JArray (map JString names))]
             end
          ++ [("lastSync", match lastSync with Some s => JString s | None => JNull end);
              ("message",
               JString (if hasCredentials env
                        then "R2 storage is configured. Your data will persist across container restarts."
                        else "R2 storage is not configured. Paired devices and conversations will be lost when the container restarts."))])).

(** [POST /storage/sync]: the status and the JSON body of the response. *)
Definition post_storage_sync (fuel : nat) : M (Z * json) :=
  result <- syncToR2 fuel ;;
  if success result then
    ret (200%Z,
         JObject ([("success", JBool true);
                   ("message", JString "Sync completed successfully")]
                  ++ member "lastSync" (lastSync result)))
  else
    let status :=
      if match error result with
         | Some e => Js.includes e "not configured"
         | None => false
         end
      then 400%Z else 500%Z in
    ret (status,
         JObject ([("success", JBool false)]
                  ++ member "error" (error result) ++ member "details" (details result))).

End AdminRoutes.

(** ** src/gateway/utils.ts *)

(** What [Math.ceil(timeoutMs / pollIntervalMs)] comes to for integer
    arguments: an integer, or what a division by zero gives. *)
Inductive js_number : Type :=
| JsFinite (n : Z)
| JsInfinity
| JsNegInfinity
| JsNaN.

Definition ceil_div (timeoutMs pollIntervalMs : Z) : js_number :=
  if (pollIntervalMs =? 0)%Z then
    if (0 <? timeoutMs)%Z then JsInfinity
    else if (timeoutMs <? 0)%Z then JsNegInfinity
    else JsNaN
  else JsFinite (- ((- timeoutMs) / pollIntervalMs))%Z.

(** [attempts < maxAttempts] *)
Definition less_than (attempts : Z) (maxAttempts : js_number) : bool :=
  match maxAttempts with
  | JsFinite n => (attempts <? n)%Z
  | JsInfinity => true
  | JsNegInfinity | JsNaN => false
  end.

(** The [while] of [waitForProcess].  The status of the process object is
    whatever the sandbox has made of it by the calls so far; [fuel] bounds
    the iterations. *)
Fixpoint waitForProcess_loop (fuel : nat) (proc_status : trace -> string)
    (pollIntervalMs : Z) (maxAttempts : js_number) (attempts : Z) : M unit :=
  fun W t =>
    let status := proc_status t in
    if (String.eqb status "running" || String.eqb status "starting")
       && less_than attempts maxAttempts
    then
      match fuel with
      | O => (OutOfFuel, [])
      | S fuel' =>
          bind (sleep pollIntervalMs)
            (fun _ =>
               waitForProcess_loop fuel' proc_status pollIntervalMs maxAttempts
                 (attempts + 1)%Z)
            W t
      end
    else (Ret tt, []).

Definition waitForProcess (fuel : nat) (proc_status : trace -> string)
    (timeoutMs pollIntervalMs : Z) : M unit :=
  let maxAttempts := ceil_div timeoutMs pollIntervalMs in
  waitForProcess_loop fuel proc_status pollIntervalMs maxAttempts 0%Z.

(** ** Vocabulary of the further properties *)

(** What a run comes to, by case. *)
Definition meets {A} (R : A -> Prop) (E : js_exn -> Prop) (F : Prop) (o : outcome A)
  : Prop :=
  match o with
  | Ret a => R a
  | Throw e => E e
  | OutOfFuel => F
  end.

(** In every world and after any calls, [m] makes only calls in [P]; a
    value it returns is in [R], an exception it raises in [E], and it uses
    up its budget only if [F]. *)
Definition does_only {A} (P : event -> Prop) (R : A -> Prop) (E : js_exn -> Prop)
    (F : Prop) (m : M A) : Prop :=
  forall W t, Forall P (snd (m W t)) /\ meets R E F (fst (m W t)).

(** The calls of a sync pass: listings and reads of the sandbox, the
    timestamp, listings of the whole bucket, deletes of corrupted keys, and
    writes of uncorrupted keys under the three trees or of the marker. *)
Definition sync_call (e : event) : Prop :=
  match e with
  | EvExecStream _ _ | EvReadFileStream _ _ | EvToISOString _ => True
  | EvBucketList prefix _ _ => prefix = None
  | EvBucketDelete key _ => isCorruptedKey key = true
  | EvBucketPut key _ _ =>
      isCorruptedKey key = false /\ (is_tree_key key = true \/ key = ".last-sync")
  | _ => False
  end.

(** The calls of a restore: reads of the marker and of keys that are not
    skipped, listings of the two restored prefixes, directories, and files
    whose path is the container directory of a mapping followed by what a
    key that is not skipped has after the prefix (or the marker file). *)
Definition restore_call (e : event) : Prop :=
  match e with
  | EvBucketGet key _ => key = ".last-sync" \/ shouldSkipKey key = false
  | EvBucketList prefix _ _ => prefix = Some "openclaw/" \/ prefix = Some "workspace/"
  | EvMkdir _ _ => True
  | EvWriteFile path _ _ =>
      path = "/root/.openclaw/.last-sync"
      \/ exists prefix containerDir key,
           In (prefix, containerDir) RESTORE_PREFIXES
           /\ shouldSkipKey key = false
           /\ path = target_path prefix containerDir key
  | _ => False
  end.

Definition is_bucket (e : event) : bool :=
  match e with
  | EvBucketGet _ _ | EvBucketPut _ _ _ | EvBucketDelete _ _ | EvBucketList _ _ _ => true
  | _ => false
  end.

(** The directory [restoreObject] asks for before it writes [path]. *)
Definition parent_dir (path : string) : string :=
  Js.slice_to (Z.to_nat (Js.lastIndexOf path "/"%char)) path.

(** The time a run asks its timers for: its sleeps (a negative delay counts
    as none) and the time limits of its raced reads. *)
Definition time_budget (d : trace) : Z :=
  fold_right
    (fun e total =>
       match e with
       | EvSleep ms => Z.max 0 ms + total
       | EvReadFileRace _ timeoutMs _ => Z.max 0 timeoutMs + total
       | _ => total
       end)%Z
    0%Z d.

Definition starts (d : trace) : list string :=
  omap (fun e => match e with EvStartProcess cmd _ => Some cmd | _ => None end) d.

(** How [sh] reads a word made of single-quoted parts and of characters
    escaped by a backslash: inside single quotes every character stands for
    itself up to the closing quote; outside, a backslash makes the next
    character stand for itself.  Words with anything else outside of quotes
    are not read here. *)
Fixpoint sh_word (quoted : bool) (s : string) : option string :=
  match s with
  | EmptyString => if quoted then None else Some EmptyString
  | String c rest =>
      if quoted then
        if Ascii.eqb c "'"%char then sh_word false rest
        else String c <$> sh_word true rest
      else if Ascii.eqb c "'"%char then sh_word true rest
      else if Ascii.eqb c "\"%char then
        match rest with
        | String c' rest' => String c' <$> sh_word false rest'
        | EmptyString => None
        end
      else None
  end.

(** The text of the stream the sandbox sends for the payloads [payloads]:
    one frame for each. *)
Definition sse_stream (payloads : list string) : string :=
  fold_right (fun payload rest => Mock.sse payload +:+ rest) EmptyString payloads.

(** A payload as [JSON.stringify] writes it: on one line, not empty, and
    with no white space at either end. *)
Definition one_line (payload : string) : Prop :=
  Js.includes payload Js.LF = false
  /\ payload <> EmptyString
  /\ Js.trimStart payload = payload /\ Js.trimEnd payload = payload.

(** A process that is seen running twice and completed from then on. *)
Definition two_polls (t : trace) : string :=
  if (length t <? 2)%nat then "running" else "completed".

(** The process status the cleanup and [waitForProcess] wait on. *)
Definition live (status : string) : bool :=
  String.eqb status "running" || String.eqb status "starting".

(** What a listing lets through: absolute paths that pass [isCleanPath]. *)
Definition clean_paths (files : list string) : Prop :=
  Forall (fun path => Js.startsWith path "/" = true /\ isCleanPath path = true) files.

(** ** The results of syncToR2 *)

Definition not_configured : SyncResult :=
  {| success := false; lastSync := None;
     error := Some "R2 bucket binding not configured"; details := None |}.

Definition no_config_dir : SyncResult :=
  failed "Nothing to sync"
    "No config directory found in the container. Pair a device first to generate config.".

Definition no_files : SyncResult :=
  failed "Nothing to sync" "Config directory exists but contained no syncable files.".

(** What a run of syncToR2 comes to, and the calls it makes: [d1] are the
    calls of the detection, [d2] those of the sweep, [d3] those of the three
    trees. *)
Inductive sync_run (W : World) (t : trace) : outcome SyncResult -> trace -> Prop :=
| run_unbound :
    MOLTBOT_BUCKET W = false -> sync_run W t (Ret not_configured) []
| run_no_dir d1 :
    MOLTBOT_BUCKET W = true -> Calls.puts d1 = [] ->
    sync_run W t (Ret no_config_dir) d1
| run_sweep_raises d1 d2 c e :
    MOLTBOT_BUCKET W = true -> Calls.puts d1 = [] -> Calls.puts d2 = [] ->
    sync_run W t (Throw e) (d1 ++ d2 ++ [EvBucketList None c (Rejected e)])
| run_sweep_fuel d1 d2 :
    MOLTBOT_BUCKET W = true -> Calls.puts d1 = [] -> Calls.puts d2 = [] ->
    sync_run W t OutOfFuel (d1 ++ d2)
| run_listing_raises d1 d2 d3 e :
    MOLTBOT_BUCKET W = true -> Calls.puts d1 = [] -> Calls.puts d2 = [] ->
    Forall (fun kv => is_tree_key (fst kv) = true) (Calls.puts d3) ->
    sync_run W t (Ret (failed "Sync error" (error_details e))) (d1 ++ d2 ++ d3)
| run_no_files d1 d2 d3 :
    MOLTBOT_BUCKET W = true -> Calls.puts d1 = [] -> Calls.puts d2 = [] ->
    Forall (fun kv => is_tree_key (fst kv) = true) (Calls.puts d3) ->
    Calls.stored d3 = [] ->
    sync_run W t (Ret no_files) (d1 ++ d2 ++ d3)
| run_marker d1 d2 d3 now r :
    MOLTBOT_BUCKET W = true -> Calls.puts d1 = [] -> Calls.puts d2 = [] ->
    Forall (fun kv => is_tree_key (fst kv) = true) (Calls.puts d3) ->
    (0 < length (Calls.stored d3))%nat ->
    sync_run W t
      (Ret match r with
           | Resolved _ => synced now (length (Calls.stored d3))
           | Rejected err => failed "Sync error" (error_details err)
           end)
      (d1 ++ d2 ++ d3 ++ [EvToISOString now; EvBucketPut ".last-sync" now r]).


(** ** Further test doubles *)

Module Scenarios.

(** The same world with a bucket that fails to list. *)
Definition withBrokenListing (W : World) : World :=
  {| MOLTBOT_BUCKET := MOLTBOT_BUCKET W;
     MOLTBOT_GATEWAY_TOKEN := MOLTBOT_GATEWAY_TOKEN W;
     bucket_get := bucket_get W;
     bucket_put := bucket_put W;
     bucket_delete := bucket_delete W;
     bucket_list := fun _ _ _ => Rejected (JsError "list failed");
     sandbox_execStream := sandbox_execStream W;
     sandbox_readFileStream := sandbox_readFileStream W;
     sandbox_readFileRace := sandbox_readFileRace W;
     sandbox_writeFile := sandbox_writeFile W;
     sandbox_mkdir := sandbox_mkdir W;
     sandbox_startProcess := sandbox_startProcess W;
     sandbox_listProcesses := sandbox_listProcesses W;
     process_kill := process_kill W;
     ensureMoltbotGateway := ensureMoltbotGateway W;
     timer_first := timer_first W;
     Date_now := Date_now W;
     Date_toISOString := Date_toISOString W |}.

Definition broken_listing : World := withBrokenListing Examples.three_files.

(** A bucket holding [store] in front of a sandbox that accepts every
    write: it returns the objects it holds and lists, in one page, the keys
    under the prefix asked for. *)
Definition bucketWorld (store : list (string * string)) : World :=
  {| MOLTBOT_BUCKET := true;
     MOLTBOT_GATEWAY_TOKEN := None;
     bucket_get := fun _ key =>
       Resolved (snd <$> List.find (fun kv => String.eqb (fst kv) key) store);
     bucket_put := fun _ _ _ => Resolved tt;
     bucket_delete := fun _ _ => Resolved tt;
     bucket_list := fun _ prefix cursor =>
       Resolved (Mock.paged
                   [List.filter (fun key => Js.startsWith key (default EmptyString prefix))
                      (map fst store)]
                   cursor);
     sandbox_execStream := fun _ _ => Resolved (Mock.sseStdout EmptyString);
     sandbox_readFileStream := fun _ _ => Rejected (JsError "File not found");
     sandbox_readFileRace := fun _ _ _ => TimerFirst;
     sandbox_writeFile := fun _ _ _ => Resolved tt;
     sandbox_mkdir := fun _ _ => Resolved tt;
     sandbox_startProcess := fun _ _ => Resolved tt;
     sandbox_listProcesses := fun _ => Resolved [];
     process_kill := fun _ _ => Resolved tt;
     ensureMoltbotGateway := fun _ => Resolved tt;
     timer_first := fun _ _ => false;
     Date_now := fun _ => 1767225600000%Z;
     Date_toISOString := fun _ => "2026-01-01T00:00:00.000Z" |}.

(** A backup of a config file, a workspace file, a session log and a skill,
    with its marker. *)
Definition backup : list (string * string) :=
  [ (".last-sync", "2026-01-01T00:00:00.000Z");
    ("openclaw/openclaw.json", "{}");
    ("workspace/IDENTITY.md", "# Identity");
    ("workspace/sessions/2026-01-01.jsonl", "{}");
    ("skills/search/SKILL.md", "# Search") ].
Definition backed_up : World := bucketWorld backup.

(** The same world with a bucket that fails to list the prefix [broken]. *)
Definition withBrokenPrefix (broken : string) (W : World) : World :=
  {| MOLTBOT_BUCKET := MOLTBOT_BUCKET W;
     MOLTBOT_GATEWAY_TOKEN := MOLTBOT_GATEWAY_TOKEN W;
     bucket_get := bucket_get W;
     bucket_put := bucket_put W;
     bucket_delete := bucket_delete W;
     bucket_list := fun t prefix cursor =>
       if String.eqb (default EmptyString prefix) broken
       then Rejected (JsError "list failed")
       else bucket_list W t prefix cursor;
     sandbox_execStream := sandbox_execStream W;
     sandbox_readFileStream := sandbox_readFileStream W;
     sandbox_readFileRace := sandbox_readFileRace W;
     sandbox_writeFile := sandbox_writeFile W;
     sandbox_mkdir := sandbox_mkdir W;
     sandbox_startProcess := sandbox_startProcess W;
     sandbox_listProcesses := sandbox_listProcesses W;
     process_kill := process_kill W;
     ensureMoltbotGateway := ensureMoltbotGateway W;
     timer_first := timer_first W;
     Date_now := Date_now W;
     Date_toISOString := Date_toISOString W |}.

Definition config_unlistable : World := withBrokenPrefix "openclaw/" backed_up.

(** A process that never stops running. *)
Definition always_running (t : trace) : string := "running".

(** An output file that starts with a tab, a vertical tab, a form feed and
    a carriage return, and holds the sentinel twice. *)
Definition messy_output : string :=
  String "009" (String "011" (String "012" (String "013"
    ("its __EXEC_DONE__" +:+ Js.LF +:+ "__EXEC_DONE__" +:+ Js.LF)))).
Definition messy_command : World :=
  Mock.adminWorld (Resolved tt) [Settled (Resolved messy_output)] [] [].

(** A stream with three newlines in a row between its two frames. *)
Definition three_newlines : string :=
  Mock.sseStdout "a" +:+ Js.LF +:+ Mock.sseStdout "b".

(** The CLI answers in capitals. *)
Definition approving : World :=
  Mock.adminWorld (Resolved tt)
    [Settled (Resolved ("Device APPROVED: Req-1" +:+ Js.LF +:+ "__EXEC_DONE__" +:+ Js.LF))]
    [] [].

(** A backup with a key that climbs out of its prefix. *)
Definition climbing : World :=
  bucketWorld [ (".last-sync", "2026-01-01T00:00:00.000Z");
                ("workspace/../../etc/cron.d/x", "x") ].

End Scenarios.

(** Every file written has had its parent directory asked for: by the
    calls before it, or by those that made [made]. *)
Fixpoint parents_first (made : gset string) (d : trace) : Prop :=
  match d with
  | [] => True
  | EvMkdir dir _ :: rest => parents_first ({[dir]} ∪ made) rest
  | EvWriteFile path _ _ :: rest =>
      ((0 < Js.lastIndexOf path "/"%char)%Z -> parent_dir path ∈ made)
      /\ parents_first made rest
  | _ :: rest => parents_first made rest
  end.

(** The directories a run asks for are new ones, each asked for once, and
    its files are written after their parents were asked for. *)
Definition makes_dirs (cache : gset string) (d : trace) : Prop :=
  List.NoDup (Calls.mkdirs d)
  /\ (forall dir, In dir (Calls.mkdirs d) -> dir ∉ cache)
  /\ parents_first cache d.

(** ** Vocabulary of the admin routes *)

(** The body of a failed device listing. *)
Definition devices_error (message : string) : json :=
  JObject [("error", JString message); ("pending", JArray []); ("paired", JArray [])].

(** The success indicator of an approval: the command output, in lower
    case, holds the word. *)
Definition approved (stdout : string) : bool :=
  Js.includes (toLowerCase stdout) "approved".

(** The body of an answered approval. *)
Definition approval (requestId stdout : string) : json :=
  JObject [("success", JBool (approved stdout)); ("requestId", JString requestId);
           ("message", JString (if approved stdout then "Device approved"
                                else "Approval may have failed"));
           ("stdout", JString stdout)].

(** ** Words for texts

    What it is for a text to be split at a separator, to be taken without
    the white space around it, or to have the first occurrence of a pattern
    taken out: said with concatenation and length alone, so that the string
    operations of the code can be measured against it. *)

Definition occurs (pat s : string) : Prop :=
  exists a rest, s = a +:+ pat +:+ rest.

(** [s] is [a], then [pat], then [rest], and [pat] occurs nowhere in [s]
    further to the left. *)
Definition first_occurrence (pat s a rest : string) : Prop :=
  s = a +:+ pat +:+ rest
  /\ forall a' rest', s = a' +:+ pat +:+ rest' -> (String.length a <= String.length a')%nat.

(** The blocks of a text: what lies between the occurrences of the
    separator, found from the left, one after the end of the other. *)
Inductive blocks (sep : string) : string -> list string -> Prop :=
| blocks_last s : ~ occurs sep s -> blocks sep s [s]
| blocks_next s a rest bs :
    first_occurrence sep s a rest -> blocks sep rest bs -> blocks sep s (a :: bs).

(** The white space of ECMAScript among the code units below 256: TAB, LF,
    VT, FF, CR, SPACE and NBSP. *)
Definition white_space_codes : list nat := [9; 10; 11; 12; 13; 32; 160]%nat.

Definition white (c : ascii) : Prop := In (nat_of_ascii c) white_space_codes.

Fixpoint all_white (s : string) : Prop :=
  match s with
  | EmptyString => True
  | String c rest => white c /\ all_white rest
  end.

(** [r] is [s] without the white space around it: white space only was
    taken off each end, and none is left at either end. *)
Definition trimmed_of (s r : string) : Prop :=
  exists l t,
    s = l +:+ r +:+ t /\ all_white l /\ all_white t
    /\ (forall c r', r = String c r' -> ~ white c)
    /\ (forall r' c, r = r' +:+ String c EmptyString -> ~ white c).

(** [r] is [s] with the first occurrence of [pat] taken out, or [s] itself
    when [pat] does not occur in it. *)
Definition without_first (pat s r : string) : Prop :=
  (exists a rest, first_occurrence pat s a rest /\ r = a +:+ rest)
  \/ (~ occurs pat s /\ r = s).

(** The output of a command, from the content of its output file: the
    first occurrence of the sentinel taken out, then the white space
    around. *)
Definition stripped_of (content output : string) : Prop :=
  exists body, without_first DONE_MARKER content body /\ trimmed_of body output.

(** A read shows the sentinel: it returned a text in which it occurs. *)
Definition shows_sentinel (read : option string) : Prop :=
  exists content, read = Some content /\ occurs DONE_MARKER content.

(** The output of a command, from a read of its output file: the stripped
    content of a read that returned a text, the empty string for a read
    that returned none. *)
Definition output_of_read (read : option string) (output : string) : Prop :=
  match read with
  | Some content => stripped_of content output
  | None => output = EmptyString
  end.

Section ParserWords.
Context `{JsonRuntime}.

(** What a block of the framed text contributes.  The block is taken
    without the white space around it.  Nothing is left: no record.  What is
    left starts with the prefix [data: ]: the decoding of what follows the
    prefix.  Otherwise: the decoding of what is left.  ([None] is a failed
    decoding, and no record either.) *)
Inductive block_record (block : string) : option json -> Prop :=
| block_blank :
    trimmed_of block EmptyString -> block_record block None
| block_framed payload :
    trimmed_of block ("data: " +:+ payload) -> block_record block (JSON_parse payload)
| block_bare line :
    trimmed_of block line -> line <> EmptyString ->
    (forall payload, line <> "data: " +:+ payload) ->
    block_record block (JSON_parse line).

(** The parser as the specification words it: the text split on two
    consecutive newlines; each non-empty block stripped of the data prefix
    and decoded; the blocks that do not decode dropped.  (Nothing is said
    of white space around a block.) *)
Definition decode_as_worded (block : string) : option json :=
  match block with
  | EmptyString => None
  | _ => JSON_parse (strip_data_prefix block)
  end.

Definition sse_records_as_worded (raw : string) : list json :=
  omap decode_as_worded (Js.split raw (Js.LF +:+ Js.LF)).

End ParserWords.

(** ** Words for letters *)

(** [c] is the small letter [l] of ASCII, or its capital. *)
Definition letter_or_capital (l c : ascii) : bool :=
  (97 <=? nat_of_ascii l)%nat && (nat_of_ascii l <=? 122)%nat
  && (Ascii.eqb c l || (nat_of_ascii c + 32 =? nat_of_ascii l)%nat).

(** [text] is [word], letter by letter, in small letters or in capitals. *)
Fixpoint reads_as (word text : string) : bool :=
  match word, text with
  | EmptyString, EmptyString => true
  | String l word', String c text' => letter_or_capital l c && reads_as word' text'
  | _, _ => false
  end.

(** Every code unit below 256. *)
Definition all_units : list ascii := map ascii_of_nat (seq 0 256).

(** The small letters of ASCII. *)
Definition small_letters : list ascii := map ascii_of_nat (seq 97 26).

(** * Properties *)

(** ** Strings *)

Lemma startsWith_spec (s p : string) :
  Js.startsWith s p = true <-> exists r, s = p +:+ r.
Proof.
  revert s. induction p as [|c p IH]; intros s; simpl.
  - split; [intros _; exists s; reflexivity | reflexivity].
  - destruct s as [|d s]; [split; [discriminate | intros [r Hr]; discriminate]|].
    rewrite andb_true_iff, IH, Ascii.eqb_eq. split.
    + intros [-> [r ->]]. exists r. reflexivity.
    + intros [r Hr]. inversion Hr. split; [reflexivity | exists r; reflexivity].
Qed.

(** [includes] is the substring test. *)
Lemma includes_spec (s needle : string) :
  Js.includes s needle = true <-> exists a b, s = a +:+ needle +:+ b.
Proof.
  induction s as [|c s IH]; simpl.
  - rewrite orb_false_r, startsWith_spec. split.
    + intros [r Hr]. exists EmptyString, r. exact Hr.
    + intros [a [b Hab]]. destruct a; [exists b; exact Hab | discriminate].
  - rewrite orb_true_iff, startsWith_spec, IH. split.
    + intros [[r Hr] | [a [b Hab]]].
      * exists EmptyString, r. exact Hr.
      * exists (String c a), b. simpl. now rewrite Hab.
    + intros [a [b Hab]]. destruct a as [|c' a]; simpl in Hab.
      * left. exists b. exact Hab.
      * right. inversion Hab. exists a, b. reflexivity.
Qed.

Lemma sapp_nil (s : string) : EmptyString +:+ s = s.
Proof. reflexivity. Qed.
Lemma sapp_cons (c : ascii) (a s : string) : String c a +:+ s = String c (a +:+ s).
Proof. reflexivity. Qed.
Lemma sapp_assoc (a b c : string) : (a +:+ b) +:+ c = a +:+ b +:+ c.
Proof. induction a as [|x a IH]; [reflexivity | rewrite !sapp_cons; now f_equal]. Qed.

Lemma split_go_skip (sep u rest cur : string) :
  Js.split_go sep (String.length u) cur (u +:+ rest) = Js.split_go sep 0 cur rest.
Proof.
  revert cur. induction u as [|c u IH]; intros cur; [reflexivity|]. exact (IH cur).
Qed.

Lemma split_go_not_nil (sep : string) (skip : nat) (cur s : string) :
  Js.split_go sep skip cur s <> [].
Proof.
  revert skip cur. induction s as [|c s IH]; intros skip cur; simpl; [discriminate|].
  destruct skip as [|k]; [|apply IH].
  destruct (Js.startsWith (String c s) sep); [discriminate | apply IH].
Qed.

Lemma join_cons (sep x : string) (rest : list string) :
  rest <> [] -> Js.join sep (x :: rest) = x +:+ sep +:+ Js.join sep rest.
Proof. destruct rest; [congruence | reflexivity]. Qed.

Lemma sapp_nil_r (s : string) : s +:+ EmptyString = s.
Proof. induction s as [|c s IH]; [reflexivity | rewrite sapp_cons; now f_equal]. Qed.

Lemma length_sapp (a b : string) :
  String.length (a +:+ b) = (String.length a + String.length b)%nat.
Proof. induction a as [|c a IH]; [reflexivity | rewrite sapp_cons; simpl; now rewrite IH]. Qed.

(** Splitting on a separator and joining with it gives the text back. *)
Lemma join_split_go (sep : string) :
  sep <> EmptyString ->
  forall n s cur, (String.length s <= n)%nat ->
    Js.join sep (Js.split_go sep 0 cur s) = cur +:+ s.
Proof.
  intros Hsep. induction n as [|n IH]; intros s cur Hlen.
  - destruct s; [simpl; now rewrite sapp_nil_r | simpl in Hlen; lia].
  - destruct s as [|c s]; [simpl; now rewrite sapp_nil_r|].
    simpl Js.split_go. destruct (Js.startsWith (String c s) sep) eqn:Hstarts.
    + apply startsWith_spec in Hstarts as [rest Hrest].
      destruct sep as [|c' sep']; [congruence|].
      rewrite sapp_cons in Hrest. injection Hrest as <- ->.
      change (String.length (String c sep') - 1)%nat with (String.length sep' - 0)%nat.
      rewrite Nat.sub_0_r, split_go_skip.
      rewrite join_cons by apply split_go_not_nil.
      rewrite IH, sapp_nil; [|simpl in Hlen; rewrite length_sapp in Hlen; lia].
      now rewrite sapp_cons.
    + rewrite IH by (simpl in Hlen; lia).
      now rewrite sapp_assoc.
Qed.

Lemma join_split (s sep : string) :
  sep <> EmptyString -> Js.join sep (Js.split s sep) = s.
Proof.
  intros Hsep. unfold Js.split.
  now rewrite (join_split_go sep Hsep (String.length s) s EmptyString).
Qed.

(** ** The string operations, measured *)

Lemma sapp_inv_length (a a' x y : string) :
  a +:+ x = a' +:+ y -> String.length a = String.length a' -> a = a' /\ x = y.
Proof.
  revert a'. induction a as [|c a IH]; intros [|c' a'] Heq Hlen; try discriminate.
  - now split.
  - rewrite !sapp_cons in Heq. injection Heq as -> Heq. simpl in Hlen.
    destruct (IH a' Heq) as [-> ->]; [lia | now split].
Qed.

Lemma slice_from_sapp (p r : string) : Js.slice_from (String.length p) (p +:+ r) = r.
Proof. induction p as [|c p IH]; [now destruct r | exact IH]. Qed.

Lemma not_occurs_nil (pat : string) : pat <> EmptyString -> ~ occurs pat EmptyString.
Proof.
  intros Hpat (a & rest & Heq). destruct a; [|discriminate].
  rewrite sapp_nil in Heq. destruct pat; [congruence | discriminate].
Qed.

(** Where the text starts with the pattern, the pattern first occurs. *)
Lemma first_occurrence_here (pat rest : string) :
  first_occurrence pat (pat +:+ rest) EmptyString rest.
Proof. split; [reflexivity | intros; simpl; lia]. Qed.

(** An occurrence one character further on. *)
Lemma first_occurrence_cons (pat s a rest : string) (c : ascii) :
  Js.startsWith (String c s) pat = false ->
  first_occurrence pat s a rest ->
  first_occurrence pat (String c s) (String c a) rest.
Proof.
  intros Hstarts [-> Hmin]. split; [reflexivity|].
  intros [|c' a'] rest' Heq.
  - rewrite sapp_nil in Heq.
    assert (Js.startsWith (String c (a +:+ pat +:+ rest)) pat = true); [|congruence].
    apply startsWith_spec. now exists rest'.
  - rewrite sapp_cons in Heq. injection Heq as _ Heq. simpl. apply Hmin in Heq. lia.
Qed.

Lemma not_occurs_cons (pat s : string) (c : ascii) :
  Js.startsWith (String c s) pat = false -> ~ occurs pat s -> ~ occurs pat (String c s).
Proof.
  intros Hstarts Hno ([|c' a] & rest & Heq).
  - rewrite sapp_nil in Heq.
    assert (Js.startsWith (String c s) pat = true); [|congruence].
    apply startsWith_spec. now exists rest.
  - rewrite sapp_cons in Heq. injection Heq as _ Heq. apply Hno. now exists a, rest.
Qed.

Lemma remove_first_unfold (pat s : string) :
  Js.remove_first pat s
  = if Js.startsWith s pat then Js.slice_from (String.length pat) s
    else match s with
         | EmptyString => EmptyString
         | String c s' => String c (Js.remove_first pat s')
         end.
Proof. destruct s; reflexivity. Qed.

(** [s.replace(pat, '')] takes out the first occurrence of [pat]. *)
Lemma remove_first_spec (pat s : string) :
  pat <> EmptyString -> without_first pat s (Js.remove_first pat s).
Proof.
  intros Hpat. induction s as [|c s IH]; rewrite remove_first_unfold.
  - destruct (Js.startsWith EmptyString pat) eqn:Hstarts.
    + apply startsWith_spec in Hstarts as [r Hr]. destruct pat; [congruence | discriminate].
    + right. split; [now apply not_occurs_nil | reflexivity].
  - destruct (Js.startsWith (String c s) pat) eqn:Hstarts.
    + apply startsWith_spec in Hstarts as [r ->]. rewrite slice_from_sapp.
      left. exists EmptyString, r. split; [apply first_occurrence_here | reflexivity].
    + destruct IH as [(a & rest & Hfirst & ->)|[Hno ->]].
      * left. exists (String c a), rest. split; [|reflexivity].
        now apply first_occurrence_cons.
      * right. split; [now apply not_occurs_cons | reflexivity].
Qed.

Lemma is_white_space_white (c : ascii) : Js.is_white_space c = true <-> white c.
Proof.
  unfold Js.is_white_space, white, white_space_codes. cbv zeta.
  rewrite !orb_true_iff, !Nat.eqb_eq. simpl In. intuition auto.
Qed.

Lemma trimStart_spec (s : string) :
  exists l,
    s = l +:+ Js.trimStart s /\ all_white l
    /\ (forall c r, Js.trimStart s = String c r -> ~ white c).
Proof.
  induction s as [|c s (l & Hs & Hl & Hhead)].
  - exists EmptyString. repeat split. intros c r [=].
  - simpl Js.trimStart. destruct (Js.is_white_space c) eqn:Hc.
    + exists (String c l). rewrite sapp_cons, <- Hs. repeat split; trivial.
      now apply is_white_space_white.
    + exists EmptyString. repeat split. intros c' r [= <- _] Hw.
      apply is_white_space_white in Hw. congruence.
Qed.

Lemma sapp_singleton (r : string) (c x : ascii) (rest : string) :
  String x rest = r +:+ String c EmptyString ->
  (rest = EmptyString /\ r = EmptyString /\ x = c)
  \/ exists r', r = String x r' /\ rest = r' +:+ String c EmptyString.
Proof.
  destruct r as [|y r]; intros Heq.
  - rewrite sapp_nil in Heq. injection Heq as -> ->. now left.
  - rewrite sapp_cons in Heq. injection Heq as -> ->. right. now exists r.
Qed.

Lemma trimEnd_spec (u : string) :
  exists t,
    u = Js.trimEnd u +:+ t /\ all_white t
    /\ (forall r c, Js.trimEnd u = r +:+ String c EmptyString -> ~ white c)
    /\ (forall c r, u = String c r -> ~ white c -> exists r', Js.trimEnd u = String c r').
Proof.
  induction u as [|x u (t & Hu & Ht & Hlast & Hhead)].
  - exists EmptyString. repeat split.
    + intros r c Heq. destruct r; discriminate.
    + intros c r [=].
  - simpl Js.trimEnd. destruct (Js.trimEnd u) as [|y kept] eqn:Hkept.
    + rewrite sapp_nil in Hu. subst t. destruct (Js.is_white_space x) eqn:Hx.
      * exists (String x u). repeat split; trivial.
        -- now apply is_white_space_white.
        -- intros c r [= <- _] Hw. apply is_white_space_white in Hx. contradiction.
      * exists u. repeat split; trivial.
        -- intros r c Heq Hw. apply sapp_singleton in Heq as [(_ & _ & ->)|(r' & _ & Hno)].
           ++ apply is_white_space_white in Hw. congruence.
           ++ destruct r'; discriminate.
        -- intros c r [= <- _] _. now eexists.
    + exists t. rewrite sapp_cons, <- Hu. repeat split; trivial.
      * intros r c Heq. apply sapp_singleton in Heq as [([=] & _)|(r' & _ & Heq)].
        now apply (Hlast r' c).
      * intros c r [= <- _] _. now eexists.
Qed.

(** [s.trim()] takes the white space off both ends, and nothing else. *)
Lemma trim_spec (s : string) : trimmed_of s (Js.trim s).
Proof.
  unfold Js.trim.
  destruct (trimStart_spec s) as (l & Hs & Hl & Hhead).
  destruct (trimEnd_spec (Js.trimStart s)) as (t & Hu & Ht & Hlast & Hkeep).
  exists l, t. split; [now rewrite <- Hu|]. repeat split; trivial.
  intros c r Heq Hw.
  destruct (Js.trimStart s) as [|x u] eqn:Hstart; [discriminate|].
  destruct (Hkeep x u eq_refl (Hhead x u eq_refl)) as [r' Hr'].
  rewrite Hr' in Heq. injection Heq as -> _. exact (Hhead c u eq_refl Hw).
Qed.

(** The blocks of [s.split(sep)]. *)
Lemma split_go_blocks (sep : string) :
  sep <> EmptyString ->
  forall n s cur,
    (String.length s <= n)%nat ->
    (forall a rest, cur +:+ s = a +:+ sep +:+ rest ->
       (String.length cur <= String.length a)%nat) ->
    blocks sep (cur +:+ s) (Js.split_go sep 0 cur s).
Proof.
  intros Hsep. induction n as [|n IH]; intros s cur Hlen Hmin.
  - destruct s; [|simpl in Hlen; lia]. rewrite sapp_nil_r in *. simpl. apply blocks_last.
    intros (a & rest & Heq). pose proof (Hmin a rest Heq) as Hle.
    apply (f_equal String.length) in Heq. rewrite !length_sapp in Heq.
    destruct sep; [congruence | simpl in Heq; lia].
  - destruct s as [|c s].
    { rewrite sapp_nil_r in *. simpl. apply blocks_last.
      intros (a & rest & Heq). pose proof (Hmin a rest Heq) as Hle.
      apply (f_equal String.length) in Heq. rewrite !length_sapp in Heq.
      destruct sep; [congruence | simpl in Heq; lia]. }
    simpl Js.split_go. destruct (Js.startsWith (String c s) sep) eqn:Hstarts.
    + apply startsWith_spec in Hstarts as [rest Hrest].
      destruct sep as [|c' sep']; [congruence|].
      rewrite sapp_cons in Hrest. injection Hrest as <- ->.
      change (String.length (String c sep') - 1)%nat with (String.length sep' - 0)%nat.
      rewrite Nat.sub_0_r, split_go_skip.
      apply blocks_next with (rest := rest).
      * split; [now rewrite sapp_cons | exact Hmin].
      * rewrite <- (sapp_nil rest) at 1. apply IH.
        -- simpl in Hlen. rewrite length_sapp in Hlen. lia.
        -- intros; simpl; lia.
    + replace (cur +:+ String c s) with ((cur +:+ String c EmptyString) +:+ s)
        by now rewrite sapp_assoc.
      apply IH; [simpl in Hlen; lia|].
      intros a rest Heq. rewrite sapp_assoc in Heq. change (String c EmptyString +:+ s) with (String c s) in Heq.
      pose proof (Hmin a rest Heq) as Hle. rewrite length_sapp. simpl.
      destruct (Nat.eq_dec (String.length cur) (String.length a)) as [Hsame|]; [|lia].
      destruct (sapp_inv_length _ _ _ _ Heq Hsame) as [_ Hs].
      assert (Js.startsWith (String c s) sep = true); [|congruence].
      apply startsWith_spec. now exists rest.
Qed.

Lemma split_blocks (s sep : string) : sep <> EmptyString -> blocks sep s (Js.split s sep).
Proof.
  intros Hsep. unfold Js.split. rewrite <- (sapp_nil s) at 1.
  apply (split_go_blocks sep Hsep (String.length s)); [lia | intros; simpl; lia].
Qed.

(** The words name one result: a text has one first occurrence of a
    pattern, one sequence of blocks, one trimmed form. *)

Lemma first_occurrence_unique (pat s a rest a' rest' : string) :
  first_occurrence pat s a rest -> first_occurrence pat s a' rest' ->
  a = a' /\ rest = rest'.
Proof.
  intros [Hs Hmin] [Hs' Hmin'].
  pose proof (Hmin a' rest' Hs') as Hle. pose proof (Hmin' a rest Hs) as Hle'.
  rewrite Hs in Hs'.
  destruct (sapp_inv_length _ _ _ _ Hs' ltac:(lia)) as [-> Htail].
  now destruct (sapp_inv_length _ _ _ _ Htail eq_refl) as [_ ->].
Qed.

Lemma first_occurrence_occurs (pat s a rest : string) :
  first_occurrence pat s a rest -> occurs pat s.
Proof. intros [Hs _]. now exists a, rest. Qed.

Lemma without_first_unique (pat s r r' : string) :
  without_first pat s r -> without_first pat s r' -> r = r'.
Proof.
  intros [(a & rest & Hfirst & ->)|[Hno ->]] [(a' & rest' & Hfirst' & ->)|[Hno' ->]].
  - now destruct (first_occurrence_unique _ _ _ _ _ _ Hfirst Hfirst') as [-> ->].
  - now apply first_occurrence_occurs in Hfirst.
  - now apply first_occurrence_occurs in Hfirst'.
  - reflexivity.
Qed.

Lemma blocks_unique (sep s : string) (bs bs' : list string) :
  blocks sep s bs -> blocks sep s bs' -> bs = bs'.
Proof.
  intros Hbs. revert bs'.
  induction Hbs as [s Hno|s a rest bs Hfirst _ IH]; intros bs' Hbs'.
  - destruct Hbs' as [s _|s a rest bs' Hfirst _]; [reflexivity|].
    now apply first_occurrence_occurs in Hfirst.
  - destruct Hbs' as [s Hno|s a' rest' bs' Hfirst' Hbs'].
    + now apply first_occurrence_occurs in Hfirst.
    + destruct (first_occurrence_unique _ _ _ _ _ _ Hfirst Hfirst') as [-> ->].
      f_equal. now apply IH.
Qed.

Lemma all_white_app (a b : string) : all_white (a +:+ b) <-> all_white a /\ all_white b.
Proof.
  induction a as [|c a IH]; [simpl; tauto|]. rewrite sapp_cons. simpl. rewrite IH. tauto.
Qed.

Lemma string_last (s : string) :
  s <> EmptyString -> exists r c, s = r +:+ String c EmptyString.
Proof.
  induction s as [|x s IH]; [congruence|]. intros _. destruct s as [|y s].
  - now exists EmptyString, x.
  - destruct IH as (r & c & Hs); [discriminate|]. exists (String x r), c.
    now rewrite sapp_cons, <- Hs.
Qed.

(** The white space before the first character that is none. *)
Lemma leading_white_unique (l l' x x' : string) :
  l +:+ x = l' +:+ x' -> all_white l -> all_white l' ->
  (forall c r, x = String c r -> ~ white c) ->
  (forall c r, x' = String c r -> ~ white c) ->
  x <> EmptyString -> x' <> EmptyString ->
  x = x'.
Proof.
  revert l'. induction l as [|c l IH]; intros [|c' l'] Heq Hl Hl' Hx Hx' Hne Hne'.
  - exact Heq.
  - rewrite sapp_nil, sapp_cons in Heq. destruct Hl' as [Hc' _].
    now destruct (Hx _ _ Heq).
  - rewrite sapp_nil, sapp_cons in Heq. destruct Hl as [Hc _].
    now destruct (Hx' _ _ (eq_sym Heq)).
  - rewrite !sapp_cons in Heq. injection Heq as _ Heq.
    destruct Hl as [_ Hl], Hl' as [_ Hl']. now apply (IH l').
Qed.

(** The text before the white space at the end. *)
Lemma trailing_white_unique (r r' t t' : string) :
  r +:+ t = r' +:+ t' -> all_white t -> all_white t' ->
  (forall r0 c, r = r0 +:+ String c EmptyString -> ~ white c) ->
  (forall r0 c, r' = r0 +:+ String c EmptyString -> ~ white c) ->
  r = r'.
Proof.
  assert (Hnone : forall r t, all_white t -> t = r -> r <> EmptyString ->
                    ~ forall r0 c, r = r0 +:+ String c EmptyString -> ~ white c).
  { intros q u Hu <- Hne Hlast. destruct (string_last u Hne) as (r0 & c & Hq).
    apply (Hlast r0 c Hq). rewrite Hq in Hu. apply all_white_app in Hu as [_ [Hc _]].
    exact Hc. }
  revert r'. induction r as [|c r IH]; intros [|c' r'] Heq Ht Ht' Hr Hr'.
  - reflexivity.
  - rewrite sapp_nil in Heq. rewrite Heq in Ht. apply all_white_app in Ht as [Ht _].
    now destruct (Hnone (String c' r') (String c' r') Ht eq_refl).
  - rewrite sapp_nil in Heq. rewrite <- Heq in Ht'. apply all_white_app in Ht' as [Ht' _].
    now destruct (Hnone (String c r) (String c r) Ht' eq_refl).
  - rewrite !sapp_cons in Heq. injection Heq as <- Heq. f_equal.
    apply (IH r' Heq Ht Ht').
    + intros r0 x ->. now apply (Hr (String c r0) x).
    + intros r0 x ->. now apply (Hr' (String c r0) x).
Qed.

Lemma trimmed_of_unique (s r r' : string) : trimmed_of s r -> trimmed_of s r' -> r = r'.
Proof.
  intros (l & t & Hs & Hl & Ht & Hhead & Hlast) (l' & t' & Hs' & Hl' & Ht' & Hhead' & Hlast').
  assert (Hwhite : forall l t r l' t' r',
             l +:+ r +:+ t = l' +:+ r' +:+ t' -> r = EmptyString ->
             all_white l -> all_white t ->
             (forall c r0, r' = String c r0 -> ~ white c) -> r' = EmptyString).
  { intros a b q a' b' q' Heq -> Ha Hb Hq'. destruct q' as [|c q']; [reflexivity|].
    assert (Hall : all_white (a' +:+ String c q' +:+ b')).
    { rewrite <- Heq. apply all_white_app. split; [exact Ha|]. exact Hb. }
    apply all_white_app in Hall as [_ Hall]. rewrite sapp_cons in Hall.
    destruct Hall as [Hc _]. now destruct (Hq' c q'). }
  rewrite Hs in Hs'.
  destruct r as [|c r].
  { symmetry. now apply (Hwhite l t EmptyString l' t' r'). }
  destruct r' as [|c' r'].
  { now apply (Hwhite l' t' EmptyString l t (String c r)). }
  assert (Htails : String c r +:+ t = String c' r' +:+ t').
  { apply (leading_white_unique l l'); trivial; try discriminate.
    - intros x q Hq. rewrite sapp_cons in Hq. injection Hq as <- _. now apply (Hhead c r).
    - intros x q Hq. rewrite sapp_cons in Hq. injection Hq as <- _. now apply (Hhead' c' r'). }
  now apply (trailing_white_unique _ _ t t').
Qed.

Lemma stripped_of_unique (content output output' : string) :
  stripped_of content output -> stripped_of content output' -> output = output'.
Proof.
  intros (body & Hbody & Htrim) (body' & Hbody' & Htrim').
  rewrite (without_first_unique _ _ _ _ Hbody Hbody') in Htrim.
  exact (trimmed_of_unique _ _ _ Htrim Htrim').
Qed.

(** ** The event stream parser *)

Section ParserProperties.
Context `{JsonRuntime}.

Lemma parseSSEEvents_fold (blocks : list string) (events : list json) :
  fold_left
    (fun events block =>
       let line := Js.trim block in
       match line with
       | EmptyString => events
       | _ =>
           let jsonStr :=
             if Js.startsWith line "data: " then Js.slice_from 6 line else line in
           match JSON_parse jsonStr with
           | Some v => events ++ [v]
           | None => events
           end
       end) blocks events
  = events ++ omap decode_block blocks.
Proof.
  revert events. induction blocks as [|b blocks IH]; intros events; simpl.
  - now rewrite app_nil_r.
  - rewrite IH. unfold decode_block, strip_data_prefix.
    destruct (Js.trim b) as [|c line]; [reflexivity|].
    destruct (JSON_parse _); [|reflexivity].
    now rewrite <- app_assoc.
Qed.

(** One turn of the loop, in the words of [block_record]. *)
Lemma decode_block_record (block : string) : block_record block (decode_block block).
Proof.
  unfold decode_block. pose proof (trim_spec block) as Htrim.
  destruct (Js.trim block) as [|c line] eqn:Hline; [now apply block_blank|].
  unfold strip_data_prefix.
  destruct (Js.startsWith (String c line) "data: ") eqn:Hstarts.
  - apply startsWith_spec in Hstarts as [payload Hpayload].
    rewrite Hpayload in *.
    change 6%nat with (String.length "data: "). rewrite slice_from_sapp.
    now apply block_framed.
  - apply block_bare; [exact Htrim | discriminate |].
    intros payload Heq.
    assert (Js.startsWith (String c line) "data: " = true); [|congruence].
    apply startsWith_spec. now exists payload.
Qed.

Lemma Forall2_block_record (bs : list string) :
  Forall2 block_record bs (map decode_block bs).
Proof. induction bs; constructor; [apply decode_block_record | assumption]. Qed.

Lemma omap_map_decode (bs : list string) :
  omap (fun r => r) (map decode_block bs) = omap decode_block bs.
Proof.
  induction bs as [|b bs IH]; [reflexivity|]. cbn. rewrite IH. reflexivity.
Qed.

Lemma block_record_unique (block : string) (r r' : option json) :
  block_record block r -> block_record block r' -> r = r'.
Proof.
  intros [Hblank|payload Hframed|line Hbare Hne Hnot]
         [Hblank'|payload' Hframed'|line' Hbare' Hne' Hnot'].
  - reflexivity.
  - now pose proof (trimmed_of_unique _ _ _ Hblank Hframed').
  - pose proof (trimmed_of_unique _ _ _ Hblank Hbare'). congruence.
  - now pose proof (trimmed_of_unique _ _ _ Hblank' Hframed).
  - pose proof (trimmed_of_unique _ _ _ Hframed Hframed') as Heq.
    now destruct (sapp_inv_length _ _ _ _ Heq eq_refl) as [_ ->].
  - now destruct (Hnot' payload (trimmed_of_unique _ _ _ Hbare' Hframed)).
  - pose proof (trimmed_of_unique _ _ _ Hblank' Hbare). congruence.
  - now destruct (Hnot payload' (trimmed_of_unique _ _ _ Hbare Hframed')).
  - now rewrite (trimmed_of_unique _ _ _ Hbare Hbare').
Qed.

Lemma block_records_unique (bs : list string) (rs rs' : list (option json)) :
  Forall2 block_record bs rs -> Forall2 block_record bs rs' -> rs = rs'.
Proof.
  intros Hrs. revert rs'. induction Hrs as [|b r bs rs Hr _ IH]; intros rs' Hrs'.
  - now inversion Hrs'.
  - inversion Hrs' as [|b' r' bs' rs'' Hr' Hrest]; subst. f_equal.
    + exact (block_record_unique _ _ _ Hr Hr').
    + now apply IH.
Qed.

(** C7, as the code has it.  The event stream parser is a total function
    of the raw text (it has no way to throw).  The text falls into blocks at
    each first occurrence of two consecutive newlines.  Each block is taken
    without the white space around it; a block of which nothing is left
    gives no record; of any other block the payload (what follows the prefix
    [data: ] when the trimmed block starts with it, the trimmed block
    itself when not) is decoded, and a payload that does not decode gives no
    record.  The result holds the decoded records in the order of their
    blocks.  The blocks of a text and what each of them contributes are
    determined by these words. *)
Theorem parseSSEEvents_records (raw : string) :
  exists bs rs,
    blocks (Js.LF +:+ Js.LF) raw bs
    /\ Forall2 block_record bs rs
    /\ parseSSEEvents raw = omap (fun r => r) rs
    /\ forall bs' rs',
         blocks (Js.LF +:+ Js.LF) raw bs' -> Forall2 block_record bs' rs' ->
         bs' = bs /\ rs' = rs.
Proof.
  exists (Js.split raw (Js.LF +:+ Js.LF)), (map decode_block (Js.split raw (Js.LF +:+ Js.LF))).
  assert (Hblocks : blocks (Js.LF +:+ Js.LF) raw (Js.split raw (Js.LF +:+ Js.LF)))
    by (apply split_blocks; discriminate).
  split; [exact Hblocks|].
  split; [apply Forall2_block_record|].
  split.
  - unfold parseSSEEvents. rewrite parseSSEEvents_fold, omap_map_decode. reflexivity.
  - intros bs' rs' Hbs' Hrs'.
    rewrite (blocks_unique _ _ _ _ Hbs' Hblocks) in *. split; [reflexivity|].
    exact (block_records_unique _ _ _ Hrs' (Forall2_block_record _)).
Qed.

End ParserProperties.

(** Against C7 as the specification words it: a block is trimmed before
    anything else is done with it.  In a text with three newlines between
    two frames the second block starts with a newline; the parser takes the
    white space off, strips the prefix and decodes the record, where the
    words (the data prefix stripped from each non-empty block, the remainder
    decoded) leave a text that does not decode, and no record. *)
Lemma parseSSEEvents_trims_blocks :
  @parseSSEEvents Json.parse Scenarios.three_newlines
  = [JObject [("type", JString "stdout"); ("data", JString "a")];
     JObject [("type", JString "stdout"); ("data", JString "b")]]
  /\ @sse_records_as_worded Json.parse Scenarios.three_newlines
     = [JObject [("type", JString "stdout"); ("data", JString "a")]]
  /\ Js.split Scenarios.three_newlines (Js.LF +:+ Js.LF)
     = ["data: {" +:+ Js.DQUOTE +:+ "type" +:+ Js.DQUOTE +:+ ":" +:+ Js.DQUOTE +:+ "stdout" +:+ Js.DQUOTE +:+ ","
          +:+ Js.DQUOTE +:+ "data" +:+ Js.DQUOTE +:+ ":" +:+ Js.DQUOTE +:+ "a" +:+ Js.DQUOTE +:+ "}";
        Js.LF +:+ "data: {" +:+ Js.DQUOTE +:+ "type" +:+ Js.DQUOTE +:+ ":" +:+ Js.DQUOTE +:+ "stdout" +:+ Js.DQUOTE +:+ ","
          +:+ Js.DQUOTE +:+ "data" +:+ Js.DQUOTE +:+ ":" +:+ Js.DQUOTE +:+ "b" +:+ Js.DQUOTE +:+ "}";
        EmptyString].
Proof. repeat split; vm_compute; reflexivity. Qed.

(** ** Running a program *)

Section Runs.
Context {A B : Type}.
Implicit Types (m : M A) (k : A -> M B) (h : js_exn -> M A) (W : World) (t d : trace).

Lemma run_bind m k W t a d1 o d2 :
  m W t = (Ret a, d1) -> k a W (t ++ d1) = (o, d2) -> bind m k W t = (o, d1 ++ d2).
Proof. intros Hm Hk. unfold bind. now rewrite Hm, Hk. Qed.

Lemma run_bind_last m k W t a d o :
  m W t = (Ret a, d) -> k a W (t ++ d) = (o, []) -> bind m k W t = (o, d).
Proof. intros Hm Hk. unfold bind. now rewrite Hm, Hk, app_nil_r. Qed.

Lemma run_bind_throw m k W t e d :
  m W t = (Throw e, d) -> bind m k W t = (Throw e, d).
Proof. intros Hm. unfold bind. now rewrite Hm. Qed.

Lemma run_bind_fuel m k W t d :
  m W t = (OutOfFuel, d) -> bind m k W t = (OutOfFuel, d).
Proof. intros Hm. unfold bind. now rewrite Hm. Qed.

Lemma run_try m h W t a d :
  m W t = (Ret a, d) -> try_catch m h W t = (Ret a, d).
Proof. intros Hm. unfold try_catch. now rewrite Hm. Qed.

Lemma run_catch m h W t e d1 o d2 :
  m W t = (Throw e, d1) -> h e W (t ++ d1) = (o, d2) -> try_catch m h W t = (o, d1 ++ d2).
Proof. intros Hm Hh. unfold try_catch. now rewrite Hm, Hh. Qed.

Lemma run_catch_last m h W t e d o :
  m W t = (Throw e, d) -> h e W (t ++ d) = (o, []) -> try_catch m h W t = (o, d).
Proof. intros Hm Hh. unfold try_catch. now rewrite Hm, Hh, app_nil_r. Qed.

Lemma run_try_fuel m h W t d :
  m W t = (OutOfFuel, d) -> try_catch m h W t = (OutOfFuel, d).
Proof. intros Hm. unfold try_catch. now rewrite Hm. Qed.

(** A sequence that returns went through both of its parts. *)
Lemma bind_Ret m k W t b d :
  bind m k W t = (Ret b, d) ->
  exists a d1 d2, m W t = (Ret a, d1) /\ k a W (t ++ d1) = (Ret b, d2) /\ d = d1 ++ d2.
Proof.
  unfold bind. destruct (m W t) as [[a|e|] d1]; try discriminate.
  destruct (k a W (t ++ d1)) as [o d2] eqn:Hk. intros [= -> <-].
  now exists a, d1, d2.
Qed.

(** A guarded block that returns either returned itself or was caught. *)
Lemma try_catch_Ret m h W t a d :
  try_catch m h W t = (Ret a, d) ->
  m W t = (Ret a, d) \/
  exists e d1 d2, m W t = (Throw e, d1) /\ h e W (t ++ d1) = (Ret a, d2) /\ d = d1 ++ d2.
Proof.
  unfold try_catch. destruct (m W t) as [[a'|e|] d1]; try discriminate.
  - intros [= -> ->]. now left.
  - destruct (h e W (t ++ d1)) as [o d2] eqn:Hh. intros [= -> <-].
    right. now exists e, d1, d2.
Qed.
End Runs.

(** ** cleanupOrphanedProcesses *)

Section CleanupProperties.

(** The loop kills the orphans, one after the other, and counts the kills
    that went through. *)
Lemma cleanup_loop W (processes : list process) :
  forall t n, exists d,
    for_of processes
      (fun proc killed =>
         if negb (isGateway proc) && isLive proc
         then try_catch (bind (Sandbox.kill proc) (fun _ => ret (S killed)))
                        (fun _ => ret killed)
         else ret killed) n W t
    = (Ret (n + length (Calls.killed d))%nat, d)
    /\ Calls.kills d = List.filter isOrphan processes
    /\ forallb is_kill d = true.
Proof.
  induction processes as [|p ps IH]; intros t n; simpl.
  - exists []. repeat split. unfold ret. do 2 f_equal. simpl. lia.
  - unfold isOrphan at 1. destruct (negb (isGateway p) && isLive p) eqn:Ho.
    + destruct (process_kill W t p) as [[]|e] eqn:Hk.
      * destruct (IH (t ++ [EvKill p (Resolved ())]) (S n)) as [d (Hd & Hks & Hall)].
        exists (EvKill p (Resolved ()) :: d). repeat split.
        -- eapply (run_bind _ _ _ _ _ [_]); [|rewrite Hd; do 2 f_equal; simpl; lia].
           apply run_try. eapply (run_bind _ _ _ _ _ [_] _ []); [|reflexivity].
           unfold Sandbox.kill, await. now rewrite Hk.
        -- simpl. now rewrite Hks.
        -- exact Hall.
      * destruct (IH (t ++ [EvKill p (Rejected e)]) n) as [d (Hd & Hks & Hall)].
        exists (EvKill p (Rejected e) :: d). repeat split.
        -- eapply (run_bind _ _ _ _ _ [_]); [|rewrite Hd; reflexivity].
           eapply (run_catch _ _ _ _ _ [_] _ []); [|reflexivity].
           apply run_bind_throw. unfold Sandbox.kill, await. now rewrite Hk.
        -- simpl. now rewrite Hks.
        -- exact Hall.
    + destruct (IH t n) as [d (Hd & Hks & Hall)]. exists d. repeat split; trivial.
      eapply (run_bind _ _ _ _ _ [] _ d); [reflexivity|]. now rewrite app_nil_r.
Qed.

(** C8. Given the process listing, cleanupOrphanedProcesses always returns
    (a failing kill is swallowed).  After the listing call it makes only
    kill calls, [d].  With at most 5 entries in the listing it makes none
    and returns 0.  With more than 5 it calls kill on exactly the entries
    that match no gateway-launch signature and whose status is running or
    starting, in listing order, and returns the number of those kills that
    went through. *)
Theorem cleanupOrphanedProcesses_kills W t (processes : list process) :
  sandbox_listProcesses W t = Resolved processes ->
  exists d,
    cleanupOrphanedProcesses W t
    = (Ret (length (Calls.killed d)), EvListProcesses (Resolved processes) :: d)
    /\ forallb is_kill d = true
    /\ (length processes <= 5 -> d = [])
    /\ (5 < length processes -> Calls.kills d = List.filter isOrphan processes).
Proof.
  intros Hlist. unfold cleanupOrphanedProcesses.
  destruct (length processes <=? 5)%nat eqn:Hlen.
  - exists []. repeat split.
    + apply run_try. eapply (run_bind _ _ _ _ _ [_] _ []).
      * unfold Sandbox.listProcesses, await. rewrite Hlist. reflexivity.
      * simpl. rewrite Hlen. reflexivity.
    + apply Nat.leb_le in Hlen. lia.
  - destruct (cleanup_loop W processes (t ++ [EvListProcesses (Resolved processes)]) 0)
      as [d (Hd & Hks & Hall)].
    exists d. repeat split; trivial.
    + apply run_try. eapply (run_bind _ _ _ _ _ [_] _ d).
      * unfold Sandbox.listProcesses, await. rewrite Hlist. reflexivity.
      * simpl. rewrite Hlen. exact Hd.
    + apply Nat.leb_gt in Hlen. lia.
Qed.

(** When the listing itself fails the cleanup returns 0 and kills nothing. *)
Lemma cleanupOrphanedProcesses_no_listing W t e :
  sandbox_listProcesses W t = Rejected e ->
  cleanupOrphanedProcesses W t = (Ret 0%nat, [EvListProcesses (Rejected e)]).
Proof.
  intros Hlist. unfold cleanupOrphanedProcesses.
  eapply (run_catch _ _ _ _ _ [_] _ []); [|reflexivity].
  apply run_bind_throw. unfold Sandbox.listProcesses, await. now rewrite Hlist.
Qed.

End CleanupProperties.

Lemma cleanupOrphanedProcesses_kills_witness :
  sandbox_listProcesses Examples.crowded [] = Resolved Examples.six_processes
  /\ fst (cleanupOrphanedProcesses Examples.crowded []) = Ret 2%nat
  /\ exists d,
      cleanupOrphanedProcesses Examples.crowded []
      = (Ret (length (Calls.killed d)),
         EvListProcesses (Resolved Examples.six_processes) :: d)
      /\ forallb is_kill d = true
      /\ (length Examples.six_processes <= 5 -> d = [])
      /\ (5 < length Examples.six_processes ->
          Calls.kills d = List.filter isOrphan Examples.six_processes).
Proof.
  split; [reflexivity|]. split; [vm_compute; reflexivity|].
  apply (cleanupOrphanedProcesses_kills Examples.crowded [] Examples.six_processes).
  reflexivity.
Defined.

(** ** execCommand *)

Section ExecProperties.

Lemma readFile_run W t path timeoutMs :
  readFile path timeoutMs W t
  = (Ret (read_of (sandbox_readFileRace W t path timeoutMs)),
     [EvReadFileRace path timeoutMs (sandbox_readFileRace W t path timeoutMs)]).
Proof.
  unfold readFile, bind, Sandbox.readFileRace, observe.
  destruct (sandbox_readFileRace W t path timeoutMs) as [[out|e]|]; reflexivity.
Qed.

Lemma reads_race path timeoutMs r d :
  Calls.reads (EvReadFileRace path timeoutMs r :: d) = read_of r :: Calls.reads d.
Proof. destruct r as [[out|e]|]; reflexivity. Qed.

(** The run of execCommand once the process has started: one read that
    observed completion, or two of which the first did not. *)
Lemma execCommand_reads W t cmd timeoutMs :
  sandbox_startProcess W (t ++ [EvDateNow (Date_now W t)])
    (shell_command cmd (Date_now W t)) = Resolved tt ->
  exists s d,
    execCommand cmd timeoutMs W t = (Ret s, d)
    /\ match Calls.reads d with
       | [first] =>
           observed_done first = true /\ s = default EmptyString (strip_marker <$> first)
       | [first; retry] =>
           observed_done first = false
           /\ s = default EmptyString (strip_marker <$> chosen_read first retry)
       | _ => False
       end.
Proof.
  intros Hstart. unfold execCommand.
  set (tag := Date_now W t) in *.
  set (outFile := ("/tmp/exec-" +:+ Js.of_Z tag +:+ ".out")%string).
  set (e1 := EvDateNow tag).
  set (e2 := EvStartProcess (shell_command cmd tag) (Resolved tt)).
  set (e3 := EvSleep (Z.min (timeoutMs - 2000) 10000)).
  set (r1 := sandbox_readFileRace W (((t ++ [e1]) ++ [e2]) ++ [e3]) outFile 5000).
  set (e4 := EvReadFileRace outFile 5000 r1).
  set (r2 := sandbox_readFileRace W (((((t ++ [e1]) ++ [e2]) ++ [e3]) ++ [e4]) ++ [EvSleep 3000])
               outFile 5000).
  set (e6 := EvReadFileRace outFile 5000 r2).
  assert (Hhead : forall (k : unit -> M string) o d,
             k tt W (((t ++ [e1]) ++ [e2]) ++ [e3]) = (o, d) ->
             bind now_ms (fun tag0 =>
               bind (Sandbox.startProcess (shell_command cmd tag0)) (fun _ =>
                 bind (sleep (Z.min (timeoutMs - 2000) 10000)) k)) W t
             = (o, [e1] ++ [e2] ++ [e3] ++ d)).
  { intros k o d Hk.
    eapply (run_bind _ _ _ _ _ [_]); [reflexivity|].
    eapply (run_bind _ _ _ _ _ [_]).
    { unfold Sandbox.startProcess, await. cbv zeta.
      change (Date_now W t) with tag. unfold e1, e2. rewrite Hstart. reflexivity. }
    eapply (run_bind _ _ _ _ _ [_]); [reflexivity|]. exact Hk. }
  destruct (observed_done (read_of r1)) eqn:Hdone.
  - exists (default EmptyString (strip_marker <$> read_of r1)), [e1; e2; e3; e4]. split.
    + apply (Hhead _ _ [e4]).
      eapply (run_bind _ _ _ _ _ [_] _ []); [apply readFile_run|].
      change (Date_now W t) with tag. fold outFile. fold r1.
      unfold observed_done in Hdone.
      destruct (read_of r1) as [c|]; [|discriminate]. rewrite Hdone. reflexivity.
    + change (Calls.reads [e1; e2; e3; e4]) with (Calls.reads [e4]).
      unfold e4. rewrite reads_race. split; [exact Hdone|reflexivity].
  - exists (default EmptyString (strip_marker <$> chosen_read (read_of r1) (read_of r2))),
      [e1; e2; e3; e4; EvSleep 3000; e6]. split.
    + apply (Hhead _ _ [e4; EvSleep 3000; e6]).
      eapply (run_bind _ _ _ _ _ [_] _ [_; _]); [apply readFile_run|].
      change (Date_now W t) with tag. fold outFile. fold r1. fold e4.
      assert (Hd : match read_of r1 with Some c => Js.includes c DONE_MARKER | None => false end = false)
        by exact Hdone.
      rewrite Hd.
      eapply (run_bind _ _ _ _ _ [_] _ [_]); [reflexivity|].
      eapply (run_bind _ _ _ _ _ [_] _ []); [apply readFile_run|].
      change (Date_now W t) with tag. fold outFile. fold r1. fold e4. fold r2.
      unfold chosen_read. rewrite Hdone.
      destruct (read_of r2) as [r|]; [reflexivity|].
      destruct (read_of r1); reflexivity.
    + change (Calls.reads [e1; e2; e3; e4; EvSleep 3000; e6])
        with (Calls.reads (e4 :: [EvSleep 3000; e6])).
      unfold e4. rewrite reads_race.
      change (Calls.reads [EvSleep 3000; e6]) with (Calls.reads [e6]).
      unfold e6. rewrite reads_race. split; [exact Hdone|reflexivity].
Qed.

(** A failure to start the process is raised to the caller. *)
Lemma execCommand_start_fails W t cmd timeoutMs e :
  sandbox_startProcess W (t ++ [EvDateNow (Date_now W t)])
    (shell_command cmd (Date_now W t)) = Rejected e ->
  fst (execCommand cmd timeoutMs W t) = Throw e.
Proof.
  intros Hstart. unfold execCommand.
  erewrite (run_bind _ _ _ _ _ [_]); [| reflexivity |].
  2: { apply run_bind_throw. unfold Sandbox.startProcess, await. cbv zeta.
       change (sandbox_startProcess W (t ++ [EvDateNow (Date_now W t)]) _)
         with (sandbox_startProcess W (t ++ [EvDateNow (Date_now W t)])
                 (shell_command cmd (Date_now W t))).
       rewrite Hstart. reflexivity. }
  reflexivity.
Qed.

(** [content.replace(DONE_MARKER, '').trim()], in words. *)
Lemma strip_marker_stripped_of (content : string) :
  stripped_of content (strip_marker content).
Proof.
  exists (Js.remove_first DONE_MARKER content). split.
  - apply remove_first_spec. discriminate.
  - apply trim_spec.
Qed.

Lemma observed_done_shows (read : option string) :
  observed_done read = true <-> shows_sentinel read.
Proof.
  unfold observed_done, shows_sentinel, occurs. destruct read as [content|].
  - rewrite includes_spec. split.
    + intros Hin. now exists content.
    + now intros (c & [= <-] & Hin).
  - split; [discriminate | now intros (c & [=] & _)].
Qed.

Lemma output_of_stripped (read : option string) :
  output_of_read read (default EmptyString (strip_marker <$> read)).
Proof. destruct read as [content|]; [apply strip_marker_stripped_of | reflexivity]. Qed.

(** C5, as the code has it.  Once the sandbox has started the process,
    execCommand returns and raises nothing, whatever the reads do.  It makes
    one read of the output file, or two.  With one read, that read showed
    the sentinel, and the result is its text with the first occurrence of
    the sentinel taken out and then the white space around taken off.  With
    two, the first did not show the sentinel, and the result is, stripped
    and trimmed the same way, the text of the retry when the retry returned
    one (complete or not), else the text of the first read when it returned
    one, else the empty string.  What it is to take out a first occurrence
    and to take off white space is said by [stripped_of], with
    concatenation alone; it names one result ([stripped_of_unique]). *)
Theorem execCommand_output W t cmd timeoutMs :
  sandbox_startProcess W (t ++ [EvDateNow (Date_now W t)])
    (shell_command cmd (Date_now W t)) = Resolved tt ->
  exists s d,
    execCommand cmd timeoutMs W t = (Ret s, d)
    /\ match Calls.reads d with
       | [first] => shows_sentinel first /\ output_of_read first s
       | [first; retry] =>
           ~ shows_sentinel first
           /\ output_of_read match retry with
                             | Some _ => retry
                             | None => first
                             end s
       | _ => False
       end.
Proof.
  intros Hstart.
  destruct (execCommand_reads W t cmd timeoutMs Hstart) as (s & d & Hrun & Hreads).
  exists s, d. split; [exact Hrun|].
  destruct (Calls.reads d) as [|first [|retry [|]]]; trivial.
  - destruct Hreads as [Hdone ->]. split.
    + now apply observed_done_shows.
    + apply output_of_stripped.
  - destruct Hreads as [Hdone ->]. split.
    + intros Hshows. apply observed_done_shows in Hshows. congruence.
    + unfold chosen_read. rewrite Hdone.
      destruct retry as [r|]; apply output_of_stripped.
Qed.

Lemma execCommand_output_witness :
  sandbox_startProcess Scenarios.messy_command
    ([] ++ [EvDateNow (Date_now Scenarios.messy_command [])])
    (shell_command "openclaw devices list" (Date_now Scenarios.messy_command []))
  = Resolved tt
  /\ fst (execCommand "openclaw devices list" CLI_TIMEOUT_MS Scenarios.messy_command [])
     = Ret ("its " +:+ Js.LF +:+ "__EXEC_DONE__")
  /\ exists s d,
    execCommand "openclaw devices list" CLI_TIMEOUT_MS Scenarios.messy_command [] = (Ret s, d)
    /\ match Calls.reads d with
       | [first] => shows_sentinel first /\ output_of_read first s
       | [first; retry] =>
           ~ shows_sentinel first
           /\ output_of_read match retry with
                             | Some _ => retry
                             | None => first
                             end s
       | _ => False
       end.
Proof.
  split; [reflexivity|]. split; [vm_compute; reflexivity|].
  apply (execCommand_output Scenarios.messy_command [] "openclaw devices list" CLI_TIMEOUT_MS).
  reflexivity.
Defined.

(** Against C5 as the specification words it: when neither read of the output
    file shows the sentinel, the result is the partial text of the retry, not
    the empty string; and when the sandbox cannot start the process, the
    exception reaches the caller. *)
Lemma execCommand_partial_output :
  (exists d,
      execCommand "openclaw devices list" CLI_TIMEOUT_MS Examples.slow_command []
      = (Ret "Connecting to gateway...", d)
      /\ forallb (fun r => negb (observed_done r)) (Calls.reads d) = true
      /\ length (Calls.reads d) = 2)
  /\ fst (execCommand "openclaw devices list" CLI_TIMEOUT_MS Examples.no_start [])
     = Throw (JsError "Too many processes").
Proof.
  split; [eexists; split; [vm_compute; reflexivity | split; vm_compute; reflexivity]|].
  vm_compute. reflexivity.
Qed.

End ExecProperties.

(** ** The device listing *)

Section DeviceProperties.
Context `{JsonRuntime}.

Lemma includes_char_nil (x : ascii) : Js.includes EmptyString (String x EmptyString) = false.
Proof. reflexivity. Qed.

Lemma includes_char_cons (x c : ascii) (s : string) :
  Js.includes (String c s) (String x EmptyString)
  = Ascii.eqb x c || Js.includes s (String x EmptyString).
Proof. simpl. now rewrite andb_true_r. Qed.

Lemma upto_last_rbrace_None (s : string) :
  Js.upto_last_rbrace s = None <-> Js.includes s "}" = false.
Proof.
  induction s as [|c s IH].
  - split; reflexivity.
  - rewrite includes_char_cons. simpl Js.upto_last_rbrace.
    destruct (Js.upto_last_rbrace s) as [r|].
    + destruct IH as [_ IH]. split; [discriminate|].
      intros Hf. apply orb_false_elim in Hf as [_ Hf]. now apply IH in Hf.
    + destruct IH as [IH _]. rewrite (IH eq_refl), orb_false_r.
      rewrite (Ascii.eqb_sym c). destruct (Ascii.eqb "}" c); split; congruence.
Qed.

Lemma upto_last_rbrace_Some (s r : string) :
  Js.upto_last_rbrace s = Some r <->
  exists mid b, s = mid +:+ "}" +:+ b /\ Js.includes b "}" = false /\ r = mid +:+ "}".
Proof.
  revert r. induction s as [|c s IH]; intros r.
  - split; [discriminate|]. intros (mid & b & Hs & _). destruct mid; discriminate.
  - simpl Js.upto_last_rbrace. destruct (Js.upto_last_rbrace s) as [r'|] eqn:Hu.
    + split.
      * intros [= <-]. destruct (proj1 (IH r') eq_refl) as (mid & b & -> & Hb & ->).
        exists (String c mid), b. repeat split; trivial.
      * intros (mid & b & Hs & Hb & ->). destruct mid as [|c' mid].
        -- injection Hs as -> ->. rewrite ?sapp_nil in *. apply upto_last_rbrace_None in Hb. congruence.
        -- injection Hs as -> ->. rewrite ?sapp_nil in *.
           assert (Some r' = Some (mid +:+ "}")) as [= ->]; [|reflexivity].
           apply IH. now exists mid, b.
    + apply upto_last_rbrace_None in Hu. split.
      * destruct (Ascii.eqb c "}") eqn:Hc; [|discriminate].
        apply Ascii.eqb_eq in Hc as ->. intros [= <-].
        exists EmptyString, s. repeat split; trivial.
      * intros (mid & b & Hs & Hb & ->). destruct mid as [|c' mid].
        -- injection Hs as -> ->. rewrite ?sapp_nil in *. reflexivity.
        -- injection Hs as -> ->. rewrite ?sapp_nil in *. exfalso.
           assert (Js.includes (mid +:+ "}" +:+ b) "}" = true) as Hx.
           { apply includes_spec. now exists mid, b. }
           congruence.
Qed.

Lemma match_braces_Some (s m : string) :
  Js.match_braces s = Some m <->
  exists a mid b,
    s = a +:+ "{" +:+ mid +:+ "}" +:+ b
    /\ Js.includes a "{" = false /\ Js.includes b "}" = false
    /\ m = "{" +:+ mid +:+ "}".
Proof.
  induction s as [|c s IH].
  - split; [discriminate|]. intros (a & mid & b & Hs & _). destruct a; discriminate.
  - simpl Js.match_braces. destruct (Ascii.eqb c "{") eqn:Hc.
    + apply Ascii.eqb_eq in Hc as ->.
      destruct (Js.upto_last_rbrace s) as [r|] eqn:Hu.
      * split.
        -- intros [= <-]. apply upto_last_rbrace_Some in Hu as (mid & b & -> & Hb & ->).
           exists EmptyString, mid, b. repeat split; trivial.
        -- intros (a & mid & b & Hs & Ha & Hb & ->). destruct a as [|c a].
           ++ injection Hs as ->. rewrite ?sapp_nil in *.
              assert (Js.upto_last_rbrace (mid +:+ "}" +:+ b) = Some (mid +:+ "}")) as Hx.
              { apply upto_last_rbrace_Some. now exists mid, b. }
              rewrite Hx in Hu. now injection Hu as <-.
           ++ injection Hs as <- ->. rewrite ?sapp_nil in *. rewrite includes_char_cons in Ha. discriminate.
      * apply upto_last_rbrace_None in Hu. split.
        -- intros Hm. apply IH in Hm as (a & mid & b & -> & _).
           exfalso. assert (Js.includes (a +:+ "{" +:+ mid +:+ "}" +:+ b) "}" = true) as Hx.
           { apply includes_spec. exists (a +:+ "{" +:+ mid), b.
             now rewrite !sapp_assoc. }
           congruence.
        -- intros (a & mid & b & Hs & Ha & Hb & ->). destruct a as [|c a].
           ++ injection Hs as ->. rewrite ?sapp_nil in *. exfalso.
              assert (Js.includes (mid +:+ "}" +:+ b) "}" = true) as Hx.
              { apply includes_spec. now exists mid, b. }
              congruence.
           ++ injection Hs as <- ->. rewrite ?sapp_nil in *. rewrite includes_char_cons in Ha. discriminate.
    + rewrite IH. split.
      * intros (a & mid & b & -> & Ha & Hb & ->). exists (String c a), mid, b.
        repeat split; trivial. rewrite includes_char_cons, Ha.
        rewrite Ascii.eqb_sym, Hc. reflexivity.
      * intros (a & mid & b & Hs & Ha & Hb & ->). destruct a as [|c' a].
        -- injection Hs as ->. rewrite ?sapp_nil in *. discriminate.
        -- injection Hs as -> ->. rewrite ?sapp_nil in *. exists a, mid, b. repeat split; trivial.
           rewrite includes_char_cons in Ha. now apply orb_false_elim in Ha as [_ Ha].
Qed.

(** C6, as the code has it.  The device-listing handler takes as JSON
    payload the span of the command output that goes from its first opening
    brace to its last closing brace (which need not be balanced).  When the
    output has no such span, or the span does not parse, the answer is the
    object with empty pending and paired lists and, as raw, the output, or
    the text "No output from CLI" when the output is empty; otherwise it is
    the parsed span.  No exception arises from this step. *)
Theorem devices_of_output_span (stdout : string) :
  (forall m,
      Js.match_braces stdout = Some m <->
      exists a mid b,
        stdout = a +:+ "{" +:+ mid +:+ "}" +:+ b
        /\ Js.includes a "{" = false /\ Js.includes b "}" = false
        /\ m = "{" +:+ mid +:+ "}")
  /\ (Js.match_braces stdout = None -> devices_of_output stdout = no_devices stdout)
  /\ (forall m, Js.match_braces stdout = Some m -> JSON_parse m = None ->
                devices_of_output stdout = no_devices stdout)
  /\ (forall m v, Js.match_braces stdout = Some m -> JSON_parse m = Some v ->
                  devices_of_output stdout = v)
  /\ no_devices stdout
     = JObject [("pending", JArray []); ("paired", JArray []);
                ("raw", JString (match stdout with
                                 | EmptyString => "No output from CLI"
                                 | _ => stdout
                                 end))].
Proof.
  split; [intros m; apply match_braces_Some|].
  unfold devices_of_output. repeat split.
  - now intros ->.
  - now intros m -> ->.
  - now intros m v -> ->.
Qed.

(** The handler answers with what [devices_of_output] makes of the
    command output. *)
Lemma devices_handler_answer W t v d :
  devices_handler W t = (Ret v, d) ->
  exists stdout, v = devices_of_output stdout.
Proof.
  unfold devices_handler. intros Hrun.
  apply bind_Ret in Hrun as (_ & d1 & d2 & _ & Hrun & _).
  apply bind_Ret in Hrun as (_ & d3 & d4 & _ & Hrun & _).
  apply bind_Ret in Hrun as (token & d5 & d6 & _ & Hrun & _).
  apply bind_Ret in Hrun as (stdout & d7 & d8 & _ & Hrun & _).
  exists stdout. unfold ret in Hrun. congruence.
Qed.

End DeviceProperties.

Lemma devices_of_output_span_witness :
  Js.match_braces Examples.chatty_output
  = Some (Examples.devices_json +:+ Js.LF +:+ "[info] {gateway}")
  /\ @JSON_parse Json.parse (Examples.devices_json +:+ Js.LF +:+ "[info] {gateway}") = None
  /\ @devices_of_output Json.parse Examples.chatty_output
     = no_devices Examples.chatty_output.
Proof.
  assert (Hm : Js.match_braces Examples.chatty_output
               = Some (Examples.devices_json +:+ Js.LF +:+ "[info] {gateway}"))
    by (vm_compute; reflexivity).
  assert (Hp : @JSON_parse Json.parse (Examples.devices_json +:+ Js.LF +:+ "[info] {gateway}")
               = None)
    by (vm_compute; reflexivity).
  split; [exact Hm|]. split; [exact Hp|].
  exact (proj1 (proj2 (proj2 (@devices_of_output_span Json.parse Examples.chatty_output)))
           _ Hm Hp).
Defined.

(** Against C6 as the specification words it: on a command output that holds
    the JSON payload and then a log line with braces, the first balanced span
    is the payload and it parses, but the handler takes the span up to the
    last closing brace, which does not parse, and answers with empty lists. *)
Lemma devices_span_not_first_balanced :
  SpecWords.first_balanced_span Examples.chatty_output = Some Examples.devices_json
  /\ Json.parse Examples.devices_json
     = Some (JObject [("pending", JArray []); ("paired", JArray [])])
  /\ Js.match_braces Examples.chatty_output
     <> SpecWords.first_balanced_span Examples.chatty_output
  /\ @devices_of_output Json.parse Examples.chatty_output
     = no_devices Examples.chatty_output.
Proof.
  repeat split; try (vm_compute; reflexivity).
  vm_compute. discriminate.
Qed.

(** ** The listing of a sync pass *)

Section ListingProperties.
Context `{JsonRuntime}.

Lemma isCleanPath_true (path : string) :
  isCleanPath path = true ->
  Js.includes path Js.DQUOTE = false /\ Js.includes path "{" = false
  /\ Js.includes path "}" = false /\ Js.includes path Js.BACKSLASH_N = false
  /\ has_sse_fragment path = false.
Proof.
  unfold isCleanPath, has_sse_fragment.
  destruct (Js.includes path Js.DQUOTE); [discriminate|].
  destruct (Js.includes path "{"); [discriminate|].
  destruct (Js.includes path "}"); [discriminate|].
  destruct (Js.includes path Js.BACKSLASH_N); [discriminate|].
  destruct (Js.includes path Js.BACKSLASH_BACKSLASH); [discriminate|].
  destruct (Js.includes path "timestamp" && Js.includes path "data"); [discriminate|].
  destruct (Js.includes path "tdout"); [discriminate|].
  destruct (Js.includes path "omplete"); [discriminate|].
  destruct (Js.includes path "exitCode"); [discriminate|].
  intros _. repeat split.
Qed.

Lemma stdout_paths_clean (data : string) :
  Forall (fun path => Js.startsWith path "/" = true /\ isCleanPath path = true)
    (stdout_paths data).
Proof.
  unfold stdout_paths. apply List.Forall_forall. intros path Hin.
  apply List.filter_In in Hin as [_ Hok].
  apply andb_true_iff in Hok as [Hok Hclean].
  apply andb_true_iff in Hok as [_ Hslash]. now split.
Qed.

Lemma listed_paths_loop (events : list json) :
  forall files files',
    each events
      (fun evt files =>
         and_then (get_prop evt "type") (fun ty =>
           if strict_eq ty "stdout" then
             and_then (get_prop evt "data") (fun data =>
               match typeof_string data with
               | Some d => Ret (files ++ stdout_paths d)
               | None => Ret files
               end)
           else Ret files)) files = Ret files' ->
    Forall (fun path => Js.startsWith path "/" = true /\ isCleanPath path = true) files ->
    Forall (fun path => Js.startsWith path "/" = true /\ isCleanPath path = true) files'.
Proof.
  induction events as [|evt events IH]; intros files files'; simpl.
  - now intros [= ->].
  - destruct (get_prop evt "type") as [ty|e|]; simpl; try discriminate.
    destruct (strict_eq ty "stdout"); [|apply IH].
    destruct (get_prop evt "data") as [data|e|]; simpl; try discriminate.
    destruct (typeof_string data) as [dt|]; [|apply IH].
    intros Hrun Hfiles. apply (IH _ _ Hrun).
    apply Forall_app. split; [exact Hfiles | apply stdout_paths_clean].
Qed.

(** C10. Every path a listing lets through starts with a slash and passes
    [isCleanPath], and so holds no double quote, no brace, no backslash-n
    sequence, none of the substrings tdout, omplete and exitCode, and not
    both timestamp and data.  Consequently a path that holds one of those
    fragments, such as a file named incomplete.md, is in no listing, and
    the sync pass never sees it. *)
Theorem listContainerFiles_clean W t dirPath excludeDirs files d :
  listContainerFiles dirPath excludeDirs W t = (Ret files, d) ->
  Forall (fun path => Js.startsWith path "/" = true /\ isCleanPath path = true) files
  /\ (forall path, In path files ->
        Js.includes path Js.DQUOTE = false /\ Js.includes path "{" = false
        /\ Js.includes path "}" = false /\ Js.includes path Js.BACKSLASH_N = false
        /\ Js.includes path "tdout" = false /\ Js.includes path "omplete" = false
        /\ Js.includes path "exitCode" = false
        /\ (Js.includes path "timestamp" = true -> Js.includes path "data" = false))
  /\ (forall path, has_sse_fragment path = true -> ~ In path files).
Proof.
  intros Hrun. unfold listContainerFiles in Hrun.
  apply bind_Ret in Hrun as (raw & d1 & d2 & _ & Hrun & _).
  unfold lift in Hrun. injection Hrun as Hrun _.
  assert (Hall : Forall (fun path => Js.startsWith path "/" = true /\ isCleanPath path = true)
                   files).
  { apply (listed_paths_loop _ _ _ Hrun). constructor. }
  split; [exact Hall|].
  assert (Hfrag : forall path, In path files -> has_sse_fragment path = false
                                               /\ isCleanPath path = true).
  { intros path Hin. rewrite List.Forall_forall in Hall.
    destruct (Hall path Hin) as [_ Hclean]. split; [|exact Hclean].
    now apply isCleanPath_true in Hclean. }
  split.
  - intros path Hin. destruct (Hfrag path Hin) as [Hf Hclean].
    apply isCleanPath_true in Hclean as (Hq & Hl & Hr & Hn & _).
    unfold has_sse_fragment in Hf.
    apply orb_false_elim in Hf as [Hf Hts]. apply orb_false_elim in Hf as [Hf He].
    apply orb_false_elim in Hf as [Ht Ho].
    repeat split; trivial. intros Hstamp. now rewrite Hstamp in Hts.
  - intros path Hf Hin. destruct (Hfrag path Hin) as [Hf' _]. congruence.
Qed.
End ListingProperties.

Lemma listContainerFiles_clean_witness :
  @listContainerFiles Json.parse "/root/clawd" ["skills"] Examples.workspace []
  = (Ret ["/root/clawd/IDENTITY.md"],
     snd (@listContainerFiles Json.parse "/root/clawd" ["skills"] Examples.workspace []))
  /\ has_sse_fragment "/root/clawd/incomplete.md" = true
  /\ ~ In "/root/clawd/incomplete.md" ["/root/clawd/IDENTITY.md"].
Proof.
  assert (Hrun : @listContainerFiles Json.parse "/root/clawd" ["skills"] Examples.workspace []
                 = (Ret ["/root/clawd/IDENTITY.md"],
                    snd (@listContainerFiles Json.parse "/root/clawd" ["skills"]
                           Examples.workspace [])))
    by (vm_compute; reflexivity).
  assert (Hfrag : has_sse_fragment "/root/clawd/incomplete.md" = true)
    by (vm_compute; reflexivity).
  split; [exact Hrun|]. split; [exact Hfrag|].
  exact (proj2 (proj2 (@listContainerFiles_clean Json.parse _ _ _ _ _ _ Hrun)) _ Hfrag).
Defined.

(** ** syncDirectory *)

Section SyncDirectoryProperties.
Context `{JsonRuntime}.

Lemma each_no_fuel {A S} (xs : list A) (body : A -> S -> outcome S) :
  (forall x s, body x s <> OutOfFuel) -> forall s, each xs body s <> OutOfFuel.
Proof.
  intros Hbody. induction xs as [|x xs IH]; intros s; simpl; [discriminate|].
  specialize (Hbody x s). destruct (body x s); simpl; [apply IH | discriminate | congruence].
Qed.

Lemma get_prop_no_fuel (v : json) (name : string) : get_prop v name <> OutOfFuel.
Proof. destruct v; discriminate. Qed.

Lemma chunk_content_no_fuel (events : list json) : chunk_content events <> OutOfFuel.
Proof.
  apply each_no_fuel. intros evt s.
  pose proof (get_prop_no_fuel evt "type") as Ht.
  destruct (get_prop evt "type") as [ty|e|]; simpl; [|discriminate|congruence].
  destruct (strict_eq ty "chunk"); [|discriminate].
  pose proof (get_prop_no_fuel evt "data") as Hd.
  destruct (get_prop evt "data") as [data|e|]; simpl; [|discriminate|congruence].
  destruct (typeof_string data); discriminate.
Qed.

(** One file of the loop. *)
Lemma syncDirectory_file W t containerDir r2Prefix filePath count :
  exists d,
    try_catch
      (let r2Key := r2Key_of containerDir r2Prefix filePath in
       bind (Sandbox.readFileStream filePath) (fun raw =>
         let events := parseSSEEvents raw in
         bind (lift (chunk_content events)) (fun fileContent =>
           match fileContent with
           | EmptyString => ret count
           | _ => bind (Bucket.put r2Key fileContent) (fun _ => ret (S count))
           end)))
      (fun _ => ret count) W t
    = (Ret (count + length (Calls.stored d))%nat, d)
    /\ read_paths d = [filePath]
    /\ Calls.puts d = omap (upload_of containerDir r2Prefix) d
    /\ (length (Calls.stored d) + length (List.filter is_empty_read d) <= 1)%nat.
Proof.
  cbv zeta.
  destruct (sandbox_readFileStream W t filePath) as [raw|e] eqn:Hread.
  - pose proof (chunk_content_no_fuel (parseSSEEvents raw)) as Hfuel.
    destruct (chunk_content (parseSSEEvents raw)) as [[|c content]|e|] eqn:Hcontent;
      [| | |congruence].
    + exists [EvReadFileStream filePath (Resolved raw)]. repeat split.
      * apply run_try. eapply (run_bind _ _ _ _ _ [_] _ []).
        { unfold Sandbox.readFileStream, await. rewrite Hread. reflexivity. }
        eapply (run_bind _ _ _ _ _ [] _ []); [unfold lift; rewrite Hcontent; reflexivity|].
        unfold ret. do 2 f_equal. simpl. lia.
      * simpl. now rewrite Hcontent.
      * simpl. rewrite Hcontent. simpl. lia.
    + set (key := r2Key_of containerDir r2Prefix filePath).
      set (t1 := (t ++ [EvReadFileStream filePath (Resolved raw)]) ++ []).
      destruct (bucket_put W t1 key (String c content)) as [[]|e] eqn:Hput.
      * exists [EvReadFileStream filePath (Resolved raw);
                EvBucketPut key (String c content) (Resolved tt)]. repeat split.
        -- apply run_try. eapply (run_bind _ _ _ _ _ [_] _ [_]).
           { unfold Sandbox.readFileStream, await. rewrite Hread. reflexivity. }
           eapply (run_bind _ _ _ _ _ [] _ [_]); [unfold lift; rewrite Hcontent; reflexivity|].
           eapply (run_bind _ _ _ _ _ [_] _ []).
           { unfold Bucket.put, await. fold key. fold t1. rewrite Hput. reflexivity. }
           unfold ret. do 2 f_equal. simpl. lia.
        -- simpl. now rewrite Hcontent.
        -- simpl. rewrite Hcontent. simpl. lia.
      * exists [EvReadFileStream filePath (Resolved raw);
                EvBucketPut key (String c content) (Rejected e)]. repeat split.
        -- eapply (run_catch _ _ _ _ _ [_; _] _ []).
           { eapply (run_bind _ _ _ _ _ [_] _ [_]).
             { unfold Sandbox.readFileStream, await. rewrite Hread. reflexivity. }
             eapply (run_bind _ _ _ _ _ [] _ [_]); [unfold lift; rewrite Hcontent; reflexivity|].
             apply run_bind_throw.
             unfold Bucket.put, await. fold key. fold t1. rewrite Hput. reflexivity. }
           unfold ret. do 2 f_equal. simpl. lia.
        -- simpl. now rewrite Hcontent.
        -- simpl. rewrite Hcontent. simpl. lia.
    + exists [EvReadFileStream filePath (Resolved raw)]. repeat split.
      * eapply (run_catch _ _ _ _ _ [_] _ []).
        { eapply (run_bind _ _ _ _ _ [_] _ []).
          { unfold Sandbox.readFileStream, await. rewrite Hread. reflexivity. }
          apply run_bind_throw. unfold lift. rewrite Hcontent. reflexivity. }
        unfold ret. do 2 f_equal. simpl. lia.
      * simpl. now rewrite Hcontent.
      * simpl. rewrite Hcontent. simpl. lia.
  - exists [EvReadFileStream filePath (Rejected e)]. repeat split.
    + eapply (run_catch _ _ _ _ _ [_] _ []).
      { apply run_bind_throw.
        unfold Sandbox.readFileStream, await. rewrite Hread. reflexivity. }
      unfold ret. do 2 f_equal. simpl. lia.
    + simpl. lia.
Qed.

Lemma syncDirectory_loop W containerDir r2Prefix (files : list string) :
  forall t count, exists d,
    for_of files
      (fun filePath count =>
         try_catch
           (let r2Key := r2Key_of containerDir r2Prefix filePath in
            bind (Sandbox.readFileStream filePath) (fun raw =>
              let events := parseSSEEvents raw in
              bind (lift (chunk_content events)) (fun fileContent =>
                match fileContent with
                | EmptyString => ret count
                | _ => bind (Bucket.put r2Key fileContent) (fun _ => ret (S count))
                end)))
           (fun _ => ret count)) count W t
    = (Ret (count + length (Calls.stored d))%nat, d)
    /\ read_paths d = files
    /\ Calls.puts d = omap (upload_of containerDir r2Prefix) d
    /\ (length (Calls.stored d) + length (List.filter is_empty_read d) <= length files)%nat.
Proof.
  induction files as [|filePath files IH]; intros t count.
  - exists []. split; [simpl; unfold ret; do 2 f_equal; simpl; lia|].
    repeat split. simpl. lia.
  - destruct (syncDirectory_file W t containerDir r2Prefix filePath count)
      as [d1 (Hrun1 & Hreads1 & Hputs1 & Hle1)].
    destruct (IH (t ++ d1) (count + length (Calls.stored d1))%nat)
      as [d2 (Hrun2 & Hreads2 & Hputs2 & Hle2)].
    exists (d1 ++ d2). repeat split.
    + simpl for_of. eapply run_bind; [exact Hrun1|].
      etransitivity; [exact Hrun2|]. do 2 f_equal.
      unfold Calls.stored. rewrite omap_app, length_app. lia.
    + unfold read_paths in *. rewrite omap_app, Hreads1, Hreads2. reflexivity.
    + unfold Calls.puts in *. rewrite !omap_app, Hputs1, Hputs2. reflexivity.
    + unfold Calls.stored in *. rewrite omap_app, List.filter_app, !length_app.
      simpl length. lia.
Qed.

Lemma upload_of_not_empty containerDir r2Prefix (d : trace) :
  Forall (fun kv => snd kv <> EmptyString) (omap (upload_of containerDir r2Prefix) d).
Proof.
  induction d as [|e d IH]; [constructor|]. simpl.
  destruct (upload_of containerDir r2Prefix e) as [kv|] eqn:He; [|exact IH].
  constructor; [|exact IH].
  destruct e as [| | | | |path [raw|?]| | | | | | | | | | |]; try discriminate.
  simpl in He. destruct (chunk_content (parseSSEEvents raw)) as [[|c rest]| |];
    try discriminate.
  injection He as <-. discriminate.
Qed.

(** Given its listing, a directory sync reads every listed file and uploads
    what the reads lead to. *)
Lemma syncDirectory_run W t containerDir r2Prefix excludeDirs files d0 :
  listContainerFiles containerDir excludeDirs W t = (Ret files, d0) ->
  exists d,
    syncDirectory containerDir r2Prefix excludeDirs W t
    = (Ret (length (Calls.stored d)), d0 ++ d)
    /\ read_paths d = files
    /\ Calls.puts d = omap (upload_of containerDir r2Prefix) d
    /\ (length (Calls.stored d) + length (List.filter is_empty_read d) <= length files)%nat.
Proof.
  intros Hlist.
  destruct (syncDirectory_loop W containerDir r2Prefix files (t ++ d0) 0)
    as [d (Hrun & Hreads & Hputs & Hle)].
  exists d. repeat split; trivial.
  unfold syncDirectory. eapply run_bind; [exact Hlist | exact Hrun].
Qed.

(** C9. Given the listing of a directory, syncDirectory returns.  It reads
    every listed file once, in listing order.  Its uploads are exactly, in
    order, the reads that went through and whose content, put together from
    the chunk events, is not the empty string: a listed file whose
    reconstructed content is empty is never uploaded, and no uploaded value
    is empty.  The count it reports is the number of uploads the bucket
    accepted, so the files with empty content are not in it, and it can be
    smaller than the number of listed files. *)
Theorem syncDirectory_skips_empty W t containerDir r2Prefix excludeDirs files d0 :
  listContainerFiles containerDir excludeDirs W t = (Ret files, d0) ->
  exists d,
    syncDirectory containerDir r2Prefix excludeDirs W t
    = (Ret (length (Calls.stored d)), d0 ++ d)
    /\ read_paths d = files
    /\ Calls.puts d = omap (upload_of containerDir r2Prefix) d
    /\ Forall (fun kv => snd kv <> EmptyString) (Calls.puts d)
    /\ (length (Calls.stored d) + length (List.filter is_empty_read d) <= length files)%nat.
Proof.
  intros Hlist.
  destruct (syncDirectory_run W t containerDir r2Prefix excludeDirs files d0 Hlist)
    as [d (Hrun & Hreads & Hputs & Hle)].
  exists d. repeat split; trivial.
  rewrite Hputs. apply upload_of_not_empty.
Qed.
End SyncDirectoryProperties.

Lemma syncDirectory_skips_empty_witness :
  @listContainerFiles Json.parse "/root/.openclaw" [] Examples.one_empty_file []
  = (Ret ["/root/.openclaw/openclaw.json"; "/root/.openclaw/notes.txt"],
     snd (@listContainerFiles Json.parse "/root/.openclaw" [] Examples.one_empty_file []))
  /\ fst (@syncDirectory Json.parse "/root/.openclaw" "openclaw" [] Examples.one_empty_file [])
     = Ret 1%nat
  /\ exists d,
      @syncDirectory Json.parse "/root/.openclaw" "openclaw" [] Examples.one_empty_file []
      = (Ret (length (Calls.stored d)),
         snd (@listContainerFiles Json.parse "/root/.openclaw" [] Examples.one_empty_file [])
         ++ d)
      /\ read_paths d = ["/root/.openclaw/openclaw.json"; "/root/.openclaw/notes.txt"]
      /\ Calls.puts d = omap (@upload_of Json.parse "/root/.openclaw" "openclaw") d
      /\ Forall (fun kv => snd kv <> EmptyString) (Calls.puts d)
      /\ (length (Calls.stored d) + length (List.filter (@is_empty_read Json.parse) d)
          <= length ["/root/.openclaw/openclaw.json"; "/root/.openclaw/notes.txt"])%nat.
Proof.
  assert (Hlist : @listContainerFiles Json.parse "/root/.openclaw" [] Examples.one_empty_file []
                  = (Ret ["/root/.openclaw/openclaw.json"; "/root/.openclaw/notes.txt"],
                     snd (@listContainerFiles Json.parse "/root/.openclaw" []
                            Examples.one_empty_file [])))
    by (vm_compute; reflexivity).
  split; [exact Hlist|]. split; [vm_compute; reflexivity|].
  exact (@syncDirectory_skips_empty Json.parse Examples.one_empty_file [] "/root/.openclaw"
           "openclaw" [] _ _ Hlist).
Defined.

(** ** The corruption sweep *)

Section SweepProperties.

Lemma listings_app (d1 d2 : trace) :
  Calls.listings (d1 ++ d2) = Calls.listings d1 ++ Calls.listings d2.
Proof. apply omap_app. Qed.

Lemma listed_app (d1 d2 : trace) :
  Calls.listed (d1 ++ d2) = Calls.listed d1 ++ Calls.listed d2.
Proof. unfold Calls.listed. now rewrite listings_app, map_app, concat_app. Qed.

Lemma deletes_app (d1 d2 : trace) :
  Calls.deletes (d1 ++ d2) = Calls.deletes d1 ++ Calls.deletes d2.
Proof. apply omap_app. Qed.

Lemma only_deletes_no_listing (d : trace) :
  forallb is_delete d = true ->
  Calls.listings d = [] /\ forallb is_list_or_delete d = true.
Proof.
  induction d as [|e d IH]; [now split|]. simpl. intros Hall.
  apply andb_true_iff in Hall as [He Hd]. destruct (IH Hd) as [Hl Hld].
  destruct e; try discriminate. simpl. now split.
Qed.

(** The objects of one page: a delete for every corrupted key, and for no
    other. *)
Lemma sweep_page W (keys : list string) :
  forall t deleted, exists d deleted',
    for_of keys
      (fun key deleted =>
         if isCorruptedKey key
         then try_catch (bind (Bucket.delete key) (fun _ => ret (S deleted)))
                        (fun _ => ret deleted)
         else ret deleted) deleted W t
    = (Ret deleted', d)
    /\ Calls.deletes d = List.filter isCorruptedKey keys
    /\ forallb is_delete d = true.
Proof.
  induction keys as [|key keys IH]; intros t deleted.
  - exists [], deleted. now repeat split.
  - simpl for_of. simpl List.filter. destruct (isCorruptedKey key) eqn:Hkey.
    + destruct (bucket_delete W t key) as [[]|e] eqn:Hdel.
      * destruct (IH (t ++ [EvBucketDelete key (Resolved tt)]) (S deleted))
          as (d & deleted' & Hrun & Hdels & Hall).
        exists (EvBucketDelete key (Resolved tt) :: d), deleted'. repeat split.
        -- eapply (run_bind _ _ _ _ _ [_]); [|exact Hrun].
           apply run_try. eapply (run_bind _ _ _ _ _ [_] _ []); [|reflexivity].
           unfold Bucket.delete, await. now rewrite Hdel.
        -- simpl. now rewrite Hdels.
        -- exact Hall.
      * destruct (IH (t ++ [EvBucketDelete key (Rejected e)]) deleted)
          as (d & deleted' & Hrun & Hdels & Hall).
        exists (EvBucketDelete key (Rejected e) :: d), deleted'. repeat split.
        -- eapply (run_bind _ _ _ _ _ [_]); [|exact Hrun].
           eapply (run_catch _ _ _ _ _ [_] _ []); [|reflexivity].
           apply run_bind_throw. unfold Bucket.delete, await. now rewrite Hdel.
        -- simpl. now rewrite Hdels.
        -- exact Hall.
    + destruct (IH t deleted) as (d & deleted' & Hrun & Hdels & Hall).
      exists d, deleted'. repeat split; trivial.
      eapply (run_bind _ _ _ _ _ [] _ d); [reflexivity|]. now rewrite app_nil_r.
Qed.

Lemma sweep_pages W remaining :
  listing_ends W None remaining ->
  forall fuel cursor t deleted,
    (remaining cursor < fuel)%nat ->
    exists d deleted',
      cleanCorruptedR2Keys_pages fuel cursor deleted W t = (Ret deleted', d)
      /\ walked None cursor (Calls.listings d)
      /\ Calls.deletes d = List.filter isCorruptedKey (Calls.listed d)
      /\ forallb is_list_or_delete d = true.
Proof.
  intros Hends. induction fuel as [|fuel IH]; intros cursor t deleted Hfuel; [lia|].
  destruct (Hends t cursor) as (page & Hlist & Hcloser).
  set (e := EvBucketList None cursor (Resolved page)).
  destruct (sweep_page W (list_objects page) (t ++ [e]) deleted)
    as (d1 & deleted1 & Hrun1 & Hdels1 & Hall1).
  destruct (only_deletes_no_listing d1 Hall1) as [Hnol Hld1].
  assert (Hhead : forall o d2,
             (if truthy (continuation page)
              then cleanCorruptedR2Keys_pages fuel (continuation page) deleted1
              else ret deleted1) W ((t ++ [e]) ++ d1) = (o, d2) ->
             cleanCorruptedR2Keys_pages (S fuel) cursor deleted W t
             = (o, [e] ++ d1 ++ d2)).
  { intros o d2 Hrest. simpl cleanCorruptedR2Keys_pages.
    eapply (run_bind _ _ _ _ _ [_]).
    { unfold Bucket.list, await. rewrite Hlist. reflexivity. }
    eapply run_bind; [exact Hrun1 | exact Hrest]. }
  assert (Hle : Calls.listed [e] = list_objects page) by apply app_nil_r.
  destruct (truthy (continuation page)) eqn:Hmore.
  - destruct (IH (continuation page) ((t ++ [e]) ++ d1) deleted1)
      as (d2 & deleted' & Hrun2 & Hwalk2 & Hdels2 & Hall2).
    { specialize (Hcloser eq_refl). lia. }
    exists ([e] ++ d1 ++ d2), deleted'. repeat split.
    + apply Hhead. exact Hrun2.
    + rewrite !listings_app, Hnol. simpl. now apply walked_next.
    + rewrite !listed_app, !deletes_app, List.filter_app, List.filter_app.
      unfold Calls.listed at 2. rewrite Hnol. simpl.
      rewrite Hle, Hdels1, Hdels2. reflexivity.
    + rewrite !forallb_app, Hld1, Hall2. reflexivity.
  - exists ([e] ++ d1 ++ []), deleted1. repeat split.
    + apply Hhead. reflexivity.
    + rewrite !listings_app, Hnol. simpl. now apply walked_last.
    + rewrite !listed_app, !deletes_app, List.filter_app, List.filter_app.
      unfold Calls.listed at 2. rewrite Hnol. simpl.
      rewrite ?app_nil_r, Hle, Hdels1. reflexivity.
    + rewrite !forallb_app, Hld1. reflexivity.
Qed.

(** C2, as the code has it.  When the listing of the bucket comes to an
    end (and the loop is given that many iterations) the sweep returns.  It
    walks the whole paginated listing, following the cursors up to the page
    that hands on none.  It calls delete on exactly the listed keys that
    hold a double quote, an opening brace or the two characters backslash
    and n, in listing order, and makes no other call than list and delete:
    every other key is left untouched.  A key that holds only a closing
    brace is among those left untouched. *)
Theorem cleanCorruptedR2Keys_sweep W t fuel remaining :
  listing_ends W None remaining ->
  (remaining None < fuel)%nat ->
  exists d,
    cleanCorruptedR2Keys fuel W t = (Ret tt, d)
    /\ walked None None (Calls.listings d)
    /\ Calls.deletes d = List.filter isCorruptedKey (Calls.listed d)
    /\ forallb is_list_or_delete d = true
    /\ (forall key,
          isCorruptedKey key = true <->
          Js.includes key Js.DQUOTE = true \/ Js.includes key "{" = true
          \/ Js.includes key Js.BACKSLASH_N = true).
Proof.
  intros Hends Hfuel.
  destruct (sweep_pages W remaining Hends fuel None t 0%nat Hfuel)
    as (d & deleted & Hrun & Hwalk & Hdels & Hall).
  exists d. repeat split; trivial.
  - unfold cleanCorruptedR2Keys. eapply run_bind_last; [exact Hrun | reflexivity].
  - unfold isCorruptedKey. rewrite !orb_true_iff. tauto.
  - unfold isCorruptedKey. rewrite !orb_true_iff. tauto.
Qed.

Lemma length_cursor_to (i : nat) : String.length (Mock.cursor_to i) = i.
Proof. induction i as [|i IH]; simpl; [reflexivity | now rewrite IH]. Qed.

(** The paged listing of the test doubles comes to an end. *)
Lemma paged_listing_ends W prefix (pages : list (list string)) :
  (forall t cursor, bucket_list W t prefix cursor = Resolved (Mock.paged pages cursor)) ->
  listing_ends W prefix (fun cursor => length pages - Mock.page_index cursor)%nat.
Proof.
  intros Hpaged t cursor. exists (Mock.paged pages cursor). split; [apply Hpaged|].
  unfold continuation, Mock.paged. simpl.
  destruct (S (Mock.page_index cursor) <? length pages)%nat eqn:Hmore; [|discriminate].
  intros _. apply Nat.ltb_lt in Hmore.
  simpl Mock.page_index at 1. rewrite length_cursor_to. lia.
Qed.

End SweepProperties.

Lemma cleanCorruptedR2Keys_sweep_witness :
  exists d,
    cleanCorruptedR2Keys 3 Examples.dirty_bucket [] = (Ret tt, d)
    /\ walked None None (Calls.listings d)
    /\ Calls.deletes d = List.filter isCorruptedKey (Calls.listed d)
    /\ forallb is_list_or_delete d = true
    /\ (forall key,
          isCorruptedKey key = true <->
          Js.includes key Js.DQUOTE = true \/ Js.includes key "{" = true
          \/ Js.includes key Js.BACKSLASH_N = true).
Proof.
  apply (cleanCorruptedR2Keys_sweep Examples.dirty_bucket [] 3
           (fun cursor => length Examples.dirty_pages - Mock.page_index cursor)%nat).
  - apply paged_listing_ends. reflexivity.
  - simpl. lia.
Defined.

(** Against C2 as the specification words it: a key that holds a closing
    brace, and nothing else of the signature, is listed and is not deleted. *)
Lemma sweep_spares_closing_brace :
  fst (cleanCorruptedR2Keys 3 Examples.dirty_bucket []) = Ret tt
  /\ In "workspace/notes}.md"
       (Calls.listed (snd (cleanCorruptedR2Keys 3 Examples.dirty_bucket [])))
  /\ Js.includes "workspace/notes}.md" "}" = true
  /\ ~ In "workspace/notes}.md"
         (Calls.deletes (snd (cleanCorruptedR2Keys 3 Examples.dirty_bucket []))).
Proof.
  repeat split; try (vm_compute; reflexivity).
  - vm_compute. tauto.
  - vm_compute. intros [Hx|[Hx|[]]]; discriminate.
Qed.

(** ** The restore *)

Section RestoreProperties.

Lemma mkdirCached_run W t dir (cache : gset string) :
  exists d cache',
    mkdirCached dir cache W t = (Ret cache', d)
    /\ forallb is_restore_step d = true
    /\ Calls.gets d = [] /\ Calls.fetched d = [] /\ Calls.writes d = []
    /\ Calls.written d = [].
Proof.
  unfold mkdirCached. destruct (decide (dir ∈ cache)) as [Hin|Hnot].
  - exists [], cache. now repeat split.
  - destruct (sandbox_mkdir W t dir) as [[]|e] eqn:Hmk.
    + exists [EvMkdir dir (Resolved tt)], ({[dir]} ∪ cache). repeat split.
      eapply (run_bind_last _ _ _ _ _ [_]); [|reflexivity].
      apply run_try. unfold Sandbox.mkdir, await. now rewrite Hmk.
    + exists [EvMkdir dir (Rejected e)], ({[dir]} ∪ cache). repeat split.
      eapply (run_bind_last _ _ _ _ _ [_]); [|reflexivity].
      eapply (run_catch _ _ _ _ _ [_] _ []); [|reflexivity].
      unfold Sandbox.mkdir, await. now rewrite Hmk.
Qed.

(** One object of a page. *)
Lemma restoreObject_run W t prefix containerDir key (st : nat * gset string) :
  exists d st',
    restoreObject prefix containerDir key st W t = (Ret st', d)
    /\ forallb is_restore_step d = true
    /\ Calls.gets d = (if restorable prefix key then [key] else [])
    /\ Calls.writes d
       = map (fun kc => (target_path prefix containerDir (fst kc), snd kc)) (Calls.fetched d)
    /\ fst st' = (fst st + length (Calls.written d))%nat
    /\ (bucket_serves W -> map fst (Calls.fetched d) = Calls.gets d).
Proof.
  destruct st as [count createdDirs]. unfold restoreObject, restorable.
  destruct (shouldSkipKey key) eqn:Hskip.
  { exists [], (count, createdDirs). repeat split. simpl. lia. }
  destruct (Js.slice_from (String.length prefix) key) as [|c rel] eqn:Hrel.
  { exists [], (count, createdDirs). repeat split. simpl. lia. }
  simpl negb. simpl andb. cbv zeta.
  set (containerPath := (containerDir +:+ "/" +:+ String c rel)%string).
  assert (Hpath : containerPath = target_path prefix containerDir key).
  { unfold target_path. now rewrite Hrel. }
  assert (Hdirs : exists dm dirs,
             (if (0 <? Js.lastIndexOf containerPath "/")%Z
              then mkdirCached
                     (Js.slice_to (Z.to_nat (Js.lastIndexOf containerPath "/")) containerPath)
                     createdDirs
              else ret createdDirs) W t = (Ret dirs, dm)
             /\ forallb is_restore_step dm = true
             /\ Calls.gets dm = [] /\ Calls.fetched dm = [] /\ Calls.writes dm = []
             /\ Calls.written dm = []).
  { destruct (0 <? Js.lastIndexOf containerPath "/")%Z.
    - apply mkdirCached_run.
    - exists [], createdDirs. now repeat split. }
  destruct Hdirs as (dm & dirs & Hmk & Hstep & Hg & Hf & Hw & Hwn).
  destruct (bucket_get W (t ++ dm) key) as [[content|]|e] eqn:Hget.
  - destruct (sandbox_writeFile W ((t ++ dm) ++ [EvBucketGet key (Resolved (Some content))])
                containerPath content) as [[]|e] eqn:Hwrite.
    + exists (dm ++ [EvBucketGet key (Resolved (Some content));
                     EvWriteFile containerPath content (Resolved tt)]), (S count, dirs).
      split.
      { eapply run_bind; [exact Hmk|]. apply run_try.
        eapply (run_bind _ _ _ _ _ [_] _ [_]).
        { unfold Bucket.get, await. now rewrite Hget. }
        eapply (run_bind_last _ _ _ _ _ [_]); [|reflexivity].
        unfold Sandbox.writeFile, await. now rewrite Hwrite. }
      unfold Calls.gets, Calls.writes, Calls.fetched, Calls.written in *.
      rewrite forallb_app, !omap_app, Hstep, Hg, Hf, Hw, Hwn. simpl.
      rewrite Hpath. repeat split. lia.
    + exists (dm ++ [EvBucketGet key (Resolved (Some content));
                     EvWriteFile containerPath content (Rejected e)]), (count, dirs).
      split.
      { eapply run_bind; [exact Hmk|].
        eapply (run_catch _ _ _ _ _ [_; _] _ []); [|reflexivity].
        eapply (run_bind _ _ _ _ _ [_] _ [_]).
        { unfold Bucket.get, await. now rewrite Hget. }
        apply run_bind_throw. unfold Sandbox.writeFile, await. now rewrite Hwrite. }
      unfold Calls.gets, Calls.writes, Calls.fetched, Calls.written in *.
      rewrite forallb_app, !omap_app, Hstep, Hg, Hf, Hw, Hwn. simpl.
      rewrite Hpath. repeat split. lia.
  - exists (dm ++ [EvBucketGet key (Resolved None)]), (count, dirs).
    split.
    { eapply run_bind; [exact Hmk|]. apply run_try.
      eapply (run_bind_last _ _ _ _ _ [_]);
        [unfold Bucket.get, await; now rewrite Hget | reflexivity]. }
    unfold Calls.gets, Calls.writes, Calls.fetched, Calls.written in *.
    rewrite forallb_app, !omap_app, Hstep, Hg, Hf, Hw, Hwn. simpl.
    repeat split; [lia|].
    intros Hserves. destruct (Hserves (t ++ dm) key) as [content Hc]. congruence.
  - exists (dm ++ [EvBucketGet key (Rejected e)]), (count, dirs).
    split.
    { eapply run_bind; [exact Hmk|].
      eapply (run_catch _ _ _ _ _ [_] _ []); [|reflexivity].
      apply run_bind_throw. unfold Bucket.get, await. now rewrite Hget. }
    unfold Calls.gets, Calls.writes, Calls.fetched, Calls.written in *.
    rewrite forallb_app, !omap_app, Hstep, Hg, Hf, Hw, Hwn. simpl.
    repeat split; [lia|].
    intros Hserves. destruct (Hserves (t ++ dm) key) as [content Hc]. congruence.
Qed.

Lemma restore_steps_no_listing (d : trace) :
  forallb is_restore_step d = true ->
  Calls.listings d = [] /\ forallb is_list_or_restore_step d = true.
Proof.
  induction d as [|e d IH]; [now split|]. simpl. intros Hall.
  apply andb_true_iff in Hall as [He Hd]. destruct (IH Hd) as [Hl Hld].
  destruct e; try discriminate; simpl; now split.
Qed.

(** The objects of one page. *)
Lemma restore_page W prefix containerDir (keys : list string) :
  forall t (st : nat * gset string), exists d st',
    for_of keys (restoreObject prefix containerDir) st W t = (Ret st', d)
    /\ forallb is_restore_step d = true
    /\ Calls.gets d = List.filter (restorable prefix) keys
    /\ Calls.writes d
       = map (fun kc => (target_path prefix containerDir (fst kc), snd kc)) (Calls.fetched d)
    /\ fst st' = (fst st + length (Calls.written d))%nat
    /\ (bucket_serves W -> map fst (Calls.fetched d) = Calls.gets d).
Proof.
  induction keys as [|key keys IH]; intros t st.
  - exists [], st. repeat split. simpl. lia.
  - destruct (restoreObject_run W t prefix containerDir key st)
      as (d1 & st1 & Hrun1 & Hstep1 & Hg1 & Hw1 & Hc1 & Hs1).
    destruct (IH (t ++ d1) st1) as (d2 & st2 & Hrun2 & Hstep2 & Hg2 & Hw2 & Hc2 & Hs2).
    exists (d1 ++ d2), st2. split.
    { simpl for_of. eapply run_bind; [exact Hrun1 | exact Hrun2]. }
    unfold Calls.gets, Calls.writes, Calls.fetched, Calls.written in *.
    rewrite forallb_app, !omap_app, !map_app, length_app, Hstep1, Hstep2, Hg1, Hg2, Hw1, Hw2.
    repeat split.
    + simpl List.filter. now destruct (restorable prefix key).
    + lia.
    + intros Hserves. rewrite (Hs1 Hserves), (Hs2 Hserves), Hg1, Hg2. reflexivity.
Qed.

Lemma gets_app (d1 d2 : trace) : Calls.gets (d1 ++ d2) = Calls.gets d1 ++ Calls.gets d2.
Proof. apply omap_app. Qed.
Lemma fetched_app (d1 d2 : trace) :
  Calls.fetched (d1 ++ d2) = Calls.fetched d1 ++ Calls.fetched d2.
Proof. apply omap_app. Qed.
Lemma writes_app (d1 d2 : trace) :
  Calls.writes (d1 ++ d2) = Calls.writes d1 ++ Calls.writes d2.
Proof. apply omap_app. Qed.
Lemma written_app (d1 d2 : trace) :
  Calls.written (d1 ++ d2) = Calls.written d1 ++ Calls.written d2.
Proof. apply omap_app. Qed.

Lemma restore_pages W remaining prefix containerDir :
  listing_ends W (Some prefix) remaining ->
  forall fuel cursor t (st : nat * gset string),
    (remaining cursor < fuel)%nat ->
    exists d st',
      restorePrefix_pages fuel prefix containerDir cursor st W t = (Ret st', d)
      /\ walked (Some prefix) cursor (Calls.listings d)
      /\ forallb is_list_or_restore_step d = true
      /\ Calls.gets d = List.filter (restorable prefix) (Calls.listed d)
      /\ Calls.writes d
         = map (fun kc => (target_path prefix containerDir (fst kc), snd kc)) (Calls.fetched d)
      /\ fst st' = (fst st + length (Calls.written d))%nat
      /\ (bucket_serves W -> map fst (Calls.fetched d) = Calls.gets d).
Proof.
  intros Hends. induction fuel as [|fuel IH]; intros cursor t st Hfuel; [lia|].
  destruct (Hends t cursor) as (page & Hlist & Hcloser).
  set (e := EvBucketList (Some prefix) cursor (Resolved page)).
  destruct (restore_page W prefix containerDir (list_objects page) (t ++ [e]) st)
    as (d1 & st1 & Hrun1 & Hstep1 & Hg1 & Hw1 & Hc1 & Hs1).
  destruct (restore_steps_no_listing d1 Hstep1) as [Hnol Hld1].
  assert (Hhead : forall o d2,
             (if truthy (continuation page)
              then restorePrefix_pages fuel prefix containerDir (continuation page) st1
              else ret st1) W ((t ++ [e]) ++ d1) = (o, d2) ->
             restorePrefix_pages (S fuel) prefix containerDir cursor st W t
             = (o, [e] ++ d1 ++ d2)).
  { intros o d2 Hrest. simpl restorePrefix_pages.
    eapply (run_bind _ _ _ _ _ [_]).
    { unfold Bucket.list, await. rewrite Hlist. reflexivity. }
    eapply run_bind; [exact Hrun1 | exact Hrest]. }
  assert (Hle : Calls.listed [e] = list_objects page) by apply app_nil_r.
  assert (Hld : Calls.listed d1 = []) by (unfold Calls.listed; now rewrite Hnol).
  destruct (truthy (continuation page)) eqn:Hmore.
  - destruct (IH (continuation page) ((t ++ [e]) ++ d1) st1)
      as (d2 & st2 & Hrun2 & Hwalk2 & Hstep2 & Hg2 & Hw2 & Hc2 & Hs2).
    { specialize (Hcloser eq_refl). lia. }
    exists ([e] ++ d1 ++ d2), st2. split; [apply Hhead; exact Hrun2|].
    rewrite !listings_app, !listed_app, !gets_app, !fetched_app, !writes_app, !written_app,
      !forallb_app, Hnol, Hle, Hld, Hld1, Hstep2, Hg1, Hg2, Hw1, Hw2.
    simpl. rewrite List.filter_app, map_app, length_app. repeat split.
    + now apply walked_next.
    + lia.
    + intros Hserves. rewrite map_app, (Hs1 Hserves), (Hs2 Hserves), Hg1, Hg2. reflexivity.
  - exists ([e] ++ d1 ++ []), st1. split; [apply Hhead; reflexivity|].
    rewrite !listings_app, !listed_app, !gets_app, !fetched_app, !writes_app, !written_app,
      !forallb_app, Hnol, Hle, Hld, Hld1, Hg1, Hw1.
    simpl. rewrite ?app_nil_r. repeat split.
    + now apply walked_last.
    + lia.
    + intros Hserves. rewrite (Hs1 Hserves), Hg1. reflexivity.
Qed.

Lemma slice_from_app (p r : string) : Js.slice_from (String.length p) (p +:+ r) = r.
Proof. induction p as [|c p IH]; [now destruct r | exact IH]. Qed.

(** Under a prefix that ends in a slash, a key that is not skipped is longer
    than the prefix. *)
Lemma restorable_configured prefix containerDir key :
  In (prefix, containerDir) RESTORE_PREFIXES ->
  Js.startsWith key prefix = true ->
  restorable prefix key = negb (shouldSkipKey key).
Proof.
  intros Hin Hstarts. unfold restorable.
  destruct (Js.slice_from (String.length prefix) key) as [|c rel] eqn:Hrel;
    [|now rewrite andb_true_r].
  apply startsWith_spec in Hstarts as [r ->]. rewrite slice_from_app in Hrel. subst r.
  destruct Hin as [[= <- _]|[[= <- _]|[]]]; reflexivity.
Qed.

Lemma shouldSkipKey_true (key : string) :
  shouldSkipKey key = true <->
  Js.endsWith key "/" = true
  \/ Js.includes key ".jsonl" = true \/ Js.includes key ".bak" = true
  \/ Js.includes key Js.DQUOTE = true \/ Js.includes key "{" = true
  \/ Js.includes key Js.BACKSLASH_N = true.
Proof.
  unfold shouldSkipKey, SKIP_EXTENSIONS. simpl existsb.
  destruct (Js.endsWith key "/"); [intuition|].
  destruct (Js.includes key ".jsonl"); [intuition|].
  destruct (Js.includes key ".bak"); [intuition|]. simpl.
  destruct (Js.includes key Js.DQUOTE); [intuition|].
  destruct (Js.includes key "{"); [intuition|].
  destruct (Js.includes key Js.BACKSLASH_N); [intuition|].
  simpl. intuition discriminate.
Qed.

(** C4, as the code has it.  When the listing of a prefix comes to an end,
    restorePrefix returns after walking all of its pages.  It fetches exactly
    the listed objects that are restorable, in listing order: those whose key
    does not end in a slash, holds neither .jsonl nor .bak anywhere (not only
    as its extension), holds no double quote, no opening brace and no
    backslash-n, and is longer than the prefix, which under a configured
    prefix every key that is not skipped is.  It writes one sandbox file for
    every object the bucket returns, at the directory of the mapping followed
    by the key without its prefix, and for no other; so when the bucket
    returns every object it is asked for, the files written are exactly those
    of the restorable listed objects.  The count it returns is the number of
    writes the sandbox accepted. *)
Theorem restorePrefix_writes W t fuel remaining prefix containerDir :
  listing_ends W (Some prefix) remaining ->
  (remaining None < fuel)%nat ->
  exists d,
    restorePrefix fuel prefix containerDir W t = (Ret (length (Calls.written d)), d)
    /\ walked (Some prefix) None (Calls.listings d)
    /\ Calls.gets d = List.filter (restorable prefix) (Calls.listed d)
    /\ Calls.writes d
       = map (fun kc => (target_path prefix containerDir (fst kc), snd kc)) (Calls.fetched d)
    /\ (bucket_serves W ->
        map fst (Calls.writes d)
        = map (target_path prefix containerDir)
            (List.filter (restorable prefix) (Calls.listed d)))
    /\ (forall key,
          In (prefix, containerDir) RESTORE_PREFIXES ->
          Js.startsWith key prefix = true ->
          restorable prefix key = negb (shouldSkipKey key))
    /\ (forall key,
          shouldSkipKey key = true <->
          Js.endsWith key "/" = true
          \/ Js.includes key ".jsonl" = true \/ Js.includes key ".bak" = true
          \/ Js.includes key Js.DQUOTE = true \/ Js.includes key "{" = true
          \/ Js.includes key Js.BACKSLASH_N = true).
Proof.
  intros Hends Hfuel.
  destruct (mkdirCached_run W t containerDir ∅) as (dm & dirs & Hmk & Hstep & Hg & Hf & Hw & Hwn).
  destruct (restore_steps_no_listing dm Hstep) as [Hnol _].
  destruct (restore_pages W remaining prefix containerDir Hends fuel None (t ++ dm)
              (0%nat, dirs) Hfuel)
    as (d & st & Hrun & Hwalk & _ & Hgets & Hwrites & Hcount & Hserves).
  assert (Hld : Calls.listed dm = []) by (unfold Calls.listed; now rewrite Hnol).
  exists (dm ++ d).
  rewrite listings_app, listed_app, gets_app, fetched_app, writes_app, written_app,
    Hnol, Hld, Hg, Hf, Hw, Hwn.
  simpl in Hcount. simpl. repeat split; trivial.
  - unfold restorePrefix. eapply run_bind; [exact Hmk|].
    eapply run_bind_last; [exact Hrun|]. unfold ret. now rewrite Hcount.
  - intros Hs. rewrite Hwrites, map_map. simpl. rewrite <- Hgets, <- (Hserves Hs).
    now rewrite map_map.
  - apply restorable_configured.
  - apply shouldSkipKey_true.
  - apply shouldSkipKey_true.
Qed.

(** C3, as the code has it.  When the bucket has no [.last-sync] object,
    restoreFromR2 returns [false] (its result is a boolean, not a count) and
    makes no call into the sandbox: no writeFile, no mkdir, nothing. *)
Theorem restoreFromR2_first_boot W t fuel :
  bucket_get W t ".last-sync" = Resolved None ->
  exists d,
    restoreFromR2 fuel W t = (Ret false, d)
    /\ Calls.sandbox d = []
    /\ Calls.writes d = []
    /\ Calls.mkdirs d = [].
Proof.
  intros Hget. unfold restoreFromR2.
  destruct (MOLTBOT_BUCKET W) eqn:Hbucket.
  - exists [EvBucketGet ".last-sync" (Resolved None)]. repeat split.
    eapply (run_bind _ _ _ _ _ [] _ [_]).
    { unfold Bucket.bound. now rewrite Hbucket. }
    simpl negb. cbv iota.
    eapply (run_bind_last _ _ _ _ _ [_]);
      [unfold Bucket.get, await; rewrite app_nil_r, Hget; reflexivity | reflexivity].
  - exists []. repeat split.
    eapply (run_bind_last _ _ _ _ _ []);
      [unfold Bucket.bound; now rewrite Hbucket | reflexivity].
Qed.

End RestoreProperties.

Lemma restoreFromR2_first_boot_witness :
  bucket_get Examples.first_boot [] ".last-sync" = Resolved None
  /\ exists d,
      restoreFromR2 3 Examples.first_boot [] = (Ret false, d)
      /\ Calls.sandbox d = []
      /\ Calls.writes d = []
      /\ Calls.mkdirs d = [].
Proof.
  split; [reflexivity|].
  apply (restoreFromR2_first_boot Examples.first_boot [] 3). reflexivity.
Defined.

(** Against C3 as the specification words it, on the value returned: with no
    [.last-sync] object the caller gets the boolean [false], which is not the
    number [0]. *)
Lemma restore_returns_boolean :
  bucket_get Examples.first_boot [] ".last-sync" = Resolved None
  /\ fst (restoreFromR2_value 3 Examples.first_boot []) = Ret (JsBoolean false)
  /\ fst (restoreFromR2_value 3 Examples.first_boot []) <> Ret (JsNumber 0).
Proof.
  split; [reflexivity|]. split; [vm_compute; reflexivity|].
  vm_compute. discriminate.
Qed.

Lemma restorePrefix_writes_witness :
  map fst (Calls.writes
             (snd (restorePrefix 3 "workspace/" "/root/clawd" Examples.five_objects [])))
  = ["/root/clawd/IDENTITY.md"; "/root/clawd/memory/notes.md"]
  /\ exists d,
      restorePrefix 3 "workspace/" "/root/clawd" Examples.five_objects []
      = (Ret (length (Calls.written d)), d)
      /\ walked (Some "workspace/") None (Calls.listings d)
      /\ Calls.gets d = List.filter (restorable "workspace/") (Calls.listed d)
      /\ Calls.writes d
         = map (fun kc => (target_path "workspace/" "/root/clawd" (fst kc), snd kc))
             (Calls.fetched d)
      /\ (bucket_serves Examples.five_objects ->
          map fst (Calls.writes d)
          = map (target_path "workspace/" "/root/clawd")
              (List.filter (restorable "workspace/") (Calls.listed d)))
      /\ (forall key,
            In ("workspace/", "/root/clawd") RESTORE_PREFIXES ->
            Js.startsWith key "workspace/" = true ->
            restorable "workspace/" key = negb (shouldSkipKey key))
      /\ (forall key,
            shouldSkipKey key = true <->
            Js.endsWith key "/" = true
            \/ Js.includes key ".jsonl" = true \/ Js.includes key ".bak" = true
            \/ Js.includes key Js.DQUOTE = true \/ Js.includes key "{" = true
            \/ Js.includes key Js.BACKSLASH_N = true).
Proof.
  split; [vm_compute; reflexivity|].
  apply (restorePrefix_writes Examples.five_objects [] 3
           (fun cursor => 1 - Mock.page_index cursor)%nat "workspace/" "/root/clawd").
  - apply (paged_listing_ends Examples.five_objects (Some "workspace/") [Examples.five_keys]).
    reflexivity.
  - simpl. lia.
Defined.

(** Against C4 as the specification words it: an object whose key does not end
    in a slash, has none of the excluded extensions and holds nothing of the
    corruption signature, but lies in a directory named my.bakery, is listed
    and is not written. *)
Lemma restore_skips_bak_anywhere :
  In "workspace/my.bakery/menu.md"
    (Calls.listed (snd (restorePrefix 3 "workspace/" "/root/clawd" Examples.bakery [])))
  /\ Js.endsWith "workspace/my.bakery/menu.md" "/" = false
  /\ has_excluded_extension "workspace/my.bakery/menu.md" = false
  /\ isCorruptedKey "workspace/my.bakery/menu.md" = false
  /\ Calls.writes (snd (restorePrefix 3 "workspace/" "/root/clawd" Examples.bakery []))
     = [("/root/clawd/IDENTITY.md", "content of workspace/IDENTITY.md")].
Proof.
  repeat split; try (vm_compute; reflexivity).
  vm_compute. tauto.
Qed.

(** ** syncToR2 *)

Section SyncProperties.
Context `{JsonRuntime}.

Lemma listed_paths_no_fuel (events : list json) : listed_paths events <> OutOfFuel.
Proof.
  apply each_no_fuel. intros evt s.
  pose proof (get_prop_no_fuel evt "type") as Ht.
  destruct (get_prop evt "type") as [ty|e|]; simpl; [|discriminate|congruence].
  destruct (strict_eq ty "stdout"); [|discriminate].
  pose proof (get_prop_no_fuel evt "data") as Hd.
  destruct (get_prop evt "data") as [data|e|]; simpl; [|discriminate|congruence].
  destruct (typeof_string data); discriminate.
Qed.

(** A listing is one execStream call, and comes to a list or an exception. *)
Lemma listContainerFiles_calls W t dirPath excludeDirs :
  exists o r,
    listContainerFiles dirPath excludeDirs W t
    = (o, [EvExecStream (find_command dirPath excludeDirs) r])
    /\ o <> OutOfFuel.
Proof.
  unfold listContainerFiles. cbv zeta.
  destruct (sandbox_execStream W t (find_command dirPath excludeDirs)) as [raw|e] eqn:Hexec.
  - exists (listed_paths (parseSSEEvents raw)), (Resolved raw). split.
    + unfold bind, Sandbox.execStream, await, lift. rewrite Hexec. reflexivity.
    + apply listed_paths_no_fuel.
  - exists (Throw e), (Rejected e). split; [|discriminate].
    unfold bind, Sandbox.execStream, await. rewrite Hexec. reflexivity.
Qed.

Lemma probe_calls W t configDir dir :
  exists found d, probe configDir dir W t = (Ret found, d) /\ Calls.puts d = [].
Proof.
  unfold probe. destruct configDir as [c|].
  - exists (Some c), []. now split.
  - destruct (listContainerFiles_calls W t dir []) as (o & r & Hlist & Hfuel).
    destruct o as [files|e|]; [| |congruence].
    + exists (if (0 <? length files)%nat then Some dir else None),
        [EvExecStream (find_command dir []) r].
      split; [|reflexivity].
      apply run_try. eapply run_bind_last; [exact Hlist | reflexivity].
    + exists None, ([EvExecStream (find_command dir []) r] ++ []). split; [|reflexivity].
      eapply run_catch; [|reflexivity].
      apply run_bind_throw. exact Hlist.
Qed.

Lemma puts_app (d1 d2 : trace) : Calls.puts (d1 ++ d2) = Calls.puts d1 ++ Calls.puts d2.
Proof. apply omap_app. Qed.
Lemma stored_app (d1 d2 : trace) :
  Calls.stored (d1 ++ d2) = Calls.stored d1 ++ Calls.stored d2.
Proof. apply omap_app. Qed.

Lemma detectConfigDir_calls W t :
  exists found d, detectConfigDir W t = (Ret found, d) /\ Calls.puts d = [].
Proof.
  unfold detectConfigDir.
  destruct (probe_calls W t None "/root/.openclaw") as (c1 & d1 & Hrun1 & Hputs1).
  destruct (probe_calls W (t ++ d1) c1 "/root/.clawdbot") as (c2 & d2 & Hrun2 & Hputs2).
  exists c2, (d1 ++ d2). split.
  - eapply run_bind; [exact Hrun1 | exact Hrun2].
  - now rewrite puts_app, Hputs1, Hputs2.
Qed.

Lemma list_or_delete_no_puts (d : trace) :
  forallb is_list_or_delete d = true -> Calls.puts d = [].
Proof.
  induction d as [|e d IH]; [reflexivity|]. simpl. intros Hall.
  apply andb_true_iff in Hall as [He Hd]. destruct e; try discriminate; simpl; auto.
Qed.

(** Whatever the listing does, the sweep only lists and deletes. *)
Lemma sweep_pages_calls W :
  forall fuel cursor t deleted o d,
    cleanCorruptedR2Keys_pages fuel cursor deleted W t = (o, d) ->
    forallb is_list_or_delete d = true.
Proof.
  induction fuel as [|fuel IH]; intros cursor t deleted o d; simpl.
  - unfold out_of_fuel. now intros [= _ <-].
  - unfold bind at 1. unfold Bucket.list at 1, await.
    destruct (bucket_list W t None cursor) as [page|e]; [|now intros [= _ <-]].
    set (e := EvBucketList None cursor (Resolved page)).
    destruct (sweep_page W (list_objects page) (t ++ [e]) deleted)
      as (d1 & deleted1 & Hrun1 & _ & Hall1).
    destruct (only_deletes_no_listing d1 Hall1) as [_ Hld1].
    unfold bind at 1. rewrite Hrun1.
    destruct (truthy _).
    + destruct (cleanCorruptedR2Keys_pages fuel _ deleted1 W ((t ++ [e]) ++ d1))
        as [o2 d2] eqn:Hrun2.
      apply IH in Hrun2. intros [= _ <-]. simpl. now rewrite forallb_app, Hld1, Hrun2.
    + unfold ret. intros [= _ <-]. simpl. now rewrite app_nil_r.
Qed.

Lemma cleanCorruptedR2Keys_calls W t fuel o d :
  cleanCorruptedR2Keys fuel W t = (o, d) -> Calls.puts d = [].
Proof.
  unfold cleanCorruptedR2Keys, bind.
  destruct (cleanCorruptedR2Keys_pages fuel None 0 W t) as [[n| |] d1] eqn:Hrun;
    apply sweep_pages_calls in Hrun.
  - unfold ret. intros [= _ <-]. rewrite app_nil_r. now apply list_or_delete_no_puts.
  - intros [= _ <-]. now apply list_or_delete_no_puts.
  - intros [= _ <-]. now apply list_or_delete_no_puts.
Qed.

Lemma upload_of_key containerDir r2Prefix (d : trace) :
  Forall (fun kv => Js.startsWith (fst kv) (r2Prefix +:+ "/") = true)
    (omap (upload_of containerDir r2Prefix) d).
Proof.
  induction d as [|e d IH]; [constructor|]. simpl.
  destruct (upload_of containerDir r2Prefix e) as [kv|] eqn:He; [|exact IH].
  constructor; [|exact IH].
  destruct e as [| | | | |path [raw|?]| | | | | | | | | | |]; try discriminate.
  simpl in He. destruct (chunk_content (parseSSEEvents raw)) as [[|c rest]| |];
    try discriminate.
  injection He as <-. simpl. apply startsWith_spec.
  eexists. unfold r2Key_of. now rewrite sapp_assoc.
Qed.

(** A directory sync returns the number of its stored uploads, or throws
    before any upload; its uploads go under its prefix. *)
Lemma syncDirectory_outcome W t containerDir r2Prefix excludeDirs :
  exists o d,
    syncDirectory containerDir r2Prefix excludeDirs W t = (o, d)
    /\ (o = Ret (length (Calls.stored d))
        \/ (exists e, o = Throw e) /\ Calls.stored d = [])
    /\ Forall (fun kv => Js.startsWith (fst kv) (r2Prefix +:+ "/") = true) (Calls.puts d).
Proof.
  destruct (listContainerFiles_calls W t containerDir excludeDirs) as (o & r & Hlist & Hfuel).
  destruct o as [files|e|]; [| |congruence].
  - destruct (syncDirectory_run W t containerDir r2Prefix excludeDirs files _ Hlist)
      as (d & Hrun & _ & Hputs & _).
    eexists _, _. split; [exact Hrun|]. split.
    + left. reflexivity.
    + change (Calls.puts ([EvExecStream (find_command containerDir excludeDirs) r] ++ d))
        with (Calls.puts d).
      rewrite Hputs. apply upload_of_key.
  - exists (Throw e), [EvExecStream (find_command containerDir excludeDirs) r]. split.
    + unfold syncDirectory. apply run_bind_throw. exact Hlist.
    + split; [right; split; [now exists e | reflexivity] | constructor].
Qed.

Lemma tree_key_openclaw (puts : list (string * string)) :
  Forall (fun kv => Js.startsWith (fst kv) ("openclaw" +:+ "/") = true) puts ->
  Forall (fun kv => is_tree_key (fst kv) = true) puts.
Proof.
  intros Hall. eapply List.Forall_impl; [|exact Hall]. intros kv Hkv. unfold is_tree_key.
  change ("openclaw" +:+ "/") with "openclaw/" in Hkv. now rewrite Hkv.
Qed.

Lemma tree_key_workspace (puts : list (string * string)) :
  Forall (fun kv => Js.startsWith (fst kv) ("workspace" +:+ "/") = true) puts ->
  Forall (fun kv => is_tree_key (fst kv) = true) puts.
Proof.
  intros Hall. eapply List.Forall_impl; [|exact Hall]. intros kv Hkv. unfold is_tree_key.
  change ("workspace" +:+ "/") with "workspace/" in Hkv. rewrite Hkv.
  now rewrite orb_true_r.
Qed.

Lemma tree_key_skills (puts : list (string * string)) :
  Forall (fun kv => Js.startsWith (fst kv) ("skills" +:+ "/") = true) puts ->
  Forall (fun kv => is_tree_key (fst kv) = true) puts.
Proof.
  intros Hall. eapply List.Forall_impl; [|exact Hall]. intros kv Hkv. unfold is_tree_key.
  change ("skills" +:+ "/") with "skills/" in Hkv. rewrite Hkv.
  now rewrite orb_true_r.
Qed.

(** One of the two optional trees: its count is added when it returns, and
    nothing is when it throws. *)
Lemma optional_tree W t containerDir r2Prefix excludeDirs totalFiles :
  exists o d,
    try_catch
      (bind (syncDirectory containerDir r2Prefix excludeDirs)
         (fun files => ret (totalFiles + files)%nat))
      (fun _ => ret totalFiles) W t = (o, d)
    /\ o = Ret (totalFiles + length (Calls.stored d))%nat
    /\ Forall (fun kv => Js.startsWith (fst kv) (r2Prefix +:+ "/") = true) (Calls.puts d).
Proof.
  destruct (syncDirectory_outcome W t containerDir r2Prefix excludeDirs)
    as (o & d & Hrun & Hcount & Hkeys).
  destruct Hcount as [->|[[e ->] Hnone]].
  - exists (Ret (totalFiles + length (Calls.stored d))%nat), d. repeat split; trivial.
    apply run_try. eapply run_bind_last; [exact Hrun | reflexivity].
  - exists (Ret (totalFiles + length (Calls.stored d))%nat), (d ++ []).
    rewrite app_nil_r at 2. rewrite app_nil_r at 2. repeat split; trivial.
    eapply run_catch; [apply run_bind_throw; exact Hrun|].
    rewrite Hnone. unfold ret. do 2 f_equal. simpl. lia.
Qed.

(** The count of the three trees is the number of their stored uploads, and
    all of their uploads go under the three prefixes. *)
Lemma syncTrees_count W t configDir n d :
  syncTrees configDir W t = (Ret n, d) ->
  n = length (Calls.stored d)
  /\ Forall (fun kv => is_tree_key (fst kv) = true) (Calls.puts d).
Proof.
  unfold syncTrees. intros Hrun.
  apply bind_Ret in Hrun as (c1 & d1 & d1' & Hconfig & Hrun & ->).
  destruct (syncDirectory_outcome W t configDir "openclaw" [])
    as (o1 & d1'' & Hrun1 & Hcount1 & Hkeys1).
  rewrite Hconfig in Hrun1. injection Hrun1 as <- <-.
  destruct Hcount1 as [[= ->]|[[e [=]] _]].
  apply bind_Ret in Hrun as (c2 & d2 & d3 & Hws & Hrun & ->).
  destruct (optional_tree W (t ++ d1) "/root/clawd" "workspace" ["skills"]
              (length (Calls.stored d1))) as (o2 & d2' & Hrun2 & -> & Hkeys2).
  rewrite Hws in Hrun2. injection Hrun2 as -> <-.
  destruct (optional_tree W ((t ++ d1) ++ d2) "/root/clawd/skills" "skills" []
              (length (Calls.stored d1) + length (Calls.stored d2))%nat)
    as (o3 & d3' & Hrun3 & -> & Hkeys3).
  rewrite Hrun in Hrun3. injection Hrun3 as -> <-.
  split.
  - rewrite !stored_app, !length_app. lia.
  - rewrite !puts_app. repeat apply Forall_app_2.
    + now apply tree_key_openclaw.
    + now apply tree_key_workspace.
    + now apply tree_key_skills.
Qed.

Lemma tree_key_not_marker (puts : list (string * string)) :
  Forall (fun kv => is_tree_key (fst kv) = true) puts ->
  ~ In ".last-sync" (map fst puts).
Proof.
  intros Hall Hin. apply in_map_iff in Hin as (kv & Hkey & Hin).
  rewrite List.Forall_forall in Hall. specialize (Hall kv Hin).
  rewrite Hkey in Hall. discriminate.
Qed.

(** C1, as the code has it.  Take a run of syncToR2 that finds a config
    directory, completes the corruption sweep and comes through the three
    trees (config, workspace without skills, skills) with a total of [n].
    That total is the number of files uploaded, and no upload so far went to
    the key [.last-sync].  If [n] is zero the run makes no further call and
    returns the failure whose error is "Nothing to sync".  If [n] is positive
    the run takes the current ISO-8601 timestamp and puts it under
    [.last-sync]; when the bucket accepts the write it returns success
    carrying that same timestamp and the total [n]; when the bucket rejects
    it, the failure whose error is "Sync error". *)
Theorem syncToR2_total W t fuel configDir d1 d2 n d3 :
  MOLTBOT_BUCKET W = true ->
  detectConfigDir W t = (Ret (Some configDir), d1) ->
  cleanCorruptedR2Keys fuel W (t ++ d1) = (Ret tt, d2) ->
  syncTrees configDir W ((t ++ d1) ++ d2) = (Ret n, d3) ->
  let now := Date_toISOString W (((t ++ d1) ++ d2) ++ d3) in
  let marker :=
    bucket_put W ((((t ++ d1) ++ d2) ++ d3) ++ [EvToISOString now]) ".last-sync" now in
  n = length (Calls.stored (d1 ++ d2 ++ d3))
  /\ ~ In ".last-sync" (map fst (Calls.puts (d1 ++ d2 ++ d3)))
  /\ (n = 0%nat ->
      syncToR2 fuel W t
      = (Ret (failed "Nothing to sync"
                "Config directory exists but contained no syncable files."),
         d1 ++ d2 ++ d3))
  /\ ((0 < n)%nat ->
      syncToR2 fuel W t
      = (Ret match marker with
             | Resolved _ => synced now n
             | Rejected err => failed "Sync error" (error_details err)
             end,
         d1 ++ d2 ++ d3 ++ [EvToISOString now; EvBucketPut ".last-sync" now marker])).
Proof.
  intros Hbucket Hdetect Hsweep Htrees now marker.
  destruct (detectConfigDir_calls W t) as (c & d1' & Hdetect' & Hputs1).
  rewrite Hdetect in Hdetect'. injection Hdetect' as <- <-.
  pose proof (cleanCorruptedR2Keys_calls W _ fuel _ _ Hsweep) as Hputs2.
  destruct (syncTrees_count W _ configDir n d3 Htrees) as [Hn Hkeys].
  assert (Hstored : forall d, Calls.puts d = [] -> Calls.stored d = []).
  { clear. induction d as [|e d IH]; [reflexivity|]. simpl.
    destruct e as [| key value [u|err] | | | | | | | | | | | | | | |]; simpl; auto; discriminate. }
  assert (Hhead : forall o d,
             try_catch
               (bind (syncTrees configDir) (fun totalFiles =>
                  if (0 <? totalFiles)%nat
                  then bind now_iso (fun now0 =>
                         bind (Bucket.put ".last-sync" now0) (fun _ =>
                           ret (synced now0 totalFiles)))
                  else ret (failed "Nothing to sync"
                              "Config directory exists but contained no syncable files.")))
               (fun err => ret (failed "Sync error" (error_details err)))
               W ((t ++ d1) ++ d2) = (o, d) ->
             syncToR2 fuel W t = (o, d1 ++ d2 ++ d)).
  { intros o d Hrest. unfold syncToR2.
    eapply (run_bind _ _ _ _ _ []).
    { unfold Bucket.bound. now rewrite Hbucket. }
    simpl negb. cbv iota. rewrite app_nil_r.
    eapply run_bind; [exact Hdetect|].
    eapply run_bind; [exact Hsweep | exact Hrest]. }
  repeat split.
  - rewrite !stored_app, (Hstored _ Hputs1), (Hstored _ Hputs2). exact Hn.
  - rewrite !puts_app, Hputs1, Hputs2. simpl. now apply tree_key_not_marker.
  - intros ->. apply Hhead.
    apply run_try. eapply run_bind_last; [exact Htrees | reflexivity].
  - intros Hpos. apply Hhead.
    assert (Hlt : (0 <? n)%nat = true) by now apply Nat.ltb_lt.
    destruct marker as [u|err] eqn:Hmarker.
    + apply run_try. eapply run_bind; [exact Htrees|]. rewrite Hlt.
      eapply (run_bind _ _ _ _ _ [_] _ [_]); [reflexivity|].
      eapply (run_bind_last _ _ _ _ _ [_]); [|reflexivity].
      unfold Bucket.put, await. fold now. fold marker. now rewrite Hmarker.
    + eapply run_catch_last; [|reflexivity].
      eapply run_bind; [exact Htrees|]. rewrite Hlt.
      eapply (run_bind _ _ _ _ _ [_] _ [_]); [reflexivity|].
      apply run_bind_throw.
      unfold Bucket.put, await. fold now. fold marker. now rewrite Hmarker.
Qed.
End SyncProperties.

Lemma syncToR2_total_witness :
  MOLTBOT_BUCKET Examples.three_files = true
  /\ fst (@detectConfigDir Json.parse Examples.three_files []) = Ret (Some "/root/.openclaw")
  /\ fst (@syncToR2 Json.parse 3 Examples.three_files [])
     = Ret (synced "2026-01-01T00:00:00.000Z" 3).
Proof.
  set (W := Examples.three_files).
  set (d1 := snd (@detectConfigDir Json.parse W [])).
  set (d2 := snd (cleanCorruptedR2Keys 3 W ([] ++ d1))).
  set (d3 := snd (@syncTrees Json.parse "/root/.openclaw" W (([] ++ d1) ++ d2))).
  assert (H1 : @detectConfigDir Json.parse W [] = (Ret (Some "/root/.openclaw"), d1))
    by (vm_compute; reflexivity).
  assert (H2 : cleanCorruptedR2Keys 3 W ([] ++ d1) = (Ret tt, d2))
    by (vm_compute; reflexivity).
  assert (H3 : @syncTrees Json.parse "/root/.openclaw" W (([] ++ d1) ++ d2) = (Ret 3%nat, d3))
    by (vm_compute; reflexivity).
  destruct (@syncToR2_total Json.parse W [] 3 "/root/.openclaw" d1 d2 3 d3 eq_refl H1 H2 H3)
    as (Hn & Hmarker & _ & Hpos).
  split; [reflexivity|]. split; [vm_compute; reflexivity|].
  rewrite Hpos by lia. vm_compute. reflexivity.
Defined.

(** Against C1 as the specification words it. In the first run the config
    directory is found and three files are uploaded, so the count is positive,
    but the bucket rejects the write of the marker and the run returns the
    failure "Sync error", not success. In the second the config directory is
    found, its listing then fails, nothing is uploaded, and the run returns
    "Sync error", not "Nothing to sync". *)
Lemma syncToR2_marker_refused :
  (fst (@detectConfigDir Json.parse Examples.marker_refused [])
   = Ret (Some "/root/.openclaw")
   /\ length (Calls.stored (snd (@syncToR2 Json.parse 3 Examples.marker_refused [])))
      = 3%nat
   /\ fst (@syncToR2 Json.parse 3 Examples.marker_refused [])
      = Ret (failed "Sync error" "put failed"))
  /\ (fst (@detectConfigDir Json.parse Examples.listing_fails [])
      = Ret (Some "/root/.openclaw")
      /\ Calls.puts (snd (@syncToR2 Json.parse 3 Examples.listing_fails [])) = []
      /\ fst (@syncToR2 Json.parse 3 Examples.listing_fails [])
         = Ret (failed "Sync error" "exec failed")).
Proof.
  repeat split; vm_compute; reflexivity.
Qed.

(** ** The repository's test suite, replayed

    The cases of [sync.test.ts], run on the embedding with the test doubles
    above. *)

Section TestSuite.

Example returns_error_when_bucket_not_configured :
  @syncToR2 Json.parse 3 (Mock.withoutBucket Examples.no_config) []
  = (Ret {| success := false; lastSync := None;
            error := Some "R2 bucket binding not configured"; details := None |}, []).
Proof. vm_compute. reflexivity. Qed.

Example returns_nothing_to_sync_when_no_config_directory :
  fst (@syncToR2 Json.parse 3 Examples.no_config [])
  = Ret (failed "Nothing to sync"
           "No config directory found in the container. Pair a device first to generate config.").
Proof. vm_compute. reflexivity. Qed.

Example syncs_files_and_returns_success :
  fst (@syncToR2 Json.parse 3 Examples.three_files [])
  = Ret (synced "2026-01-01T00:00:00.000Z" 3)
  /\ Calls.puts (snd (@syncToR2 Json.parse 3 Examples.three_files []))
     = [ ("openclaw/openclaw.json", "{}"); ("openclaw/state.json", "[1, 2]");
         ("workspace/IDENTITY.md", "# Identity");
         (".last-sync", "2026-01-01T00:00:00.000Z") ].
Proof. split; vm_compute; reflexivity. Qed.

Example handles_read_errors_and_continues :
  fst (@syncToR2 Json.parse 3 Examples.second_read_fails [])
  = Ret (synced "2026-01-01T00:00:00.000Z" 1).
Proof. vm_compute. reflexivity. Qed.

End TestSuite.

(** * Further properties *)

(** ** What every run does *)

Section Only.
Context {A : Type}.
Implicit Types (P : event -> Prop) (E : js_exn -> Prop) (F : Prop) (m : M A).

Lemma only_ret P (R : A -> Prop) E F (a : A) : R a -> does_only P R E F (ret a).
Proof. intros Ha W t. split; [constructor | exact Ha]. Qed.

Lemma only_throw P (R : A -> Prop) E F (e : js_exn) : E e -> does_only P R E F (throw e).
Proof. intros He W t. split; [constructor | exact He]. Qed.

Lemma only_lift P (R : A -> Prop) E F (o : outcome A) :
  meets R E F o -> does_only P R E F (lift o).
Proof. intros Ho W t. split; [constructor | exact Ho]. Qed.

Lemma only_await P (R : A -> Prop) E F (ask : World -> trace -> result A)
    (ev : result A -> event) :
  (forall r, P (ev r)) -> (forall a, R a) -> (forall e, E e) ->
  does_only P R E F (await ask ev).
Proof.
  intros HP HR HE W t. unfold await. split; [repeat constructor; apply HP|].
  simpl. destruct (ask W t); [apply HR | apply HE].
Qed.

Lemma only_observe P (R : A -> Prop) E F (ask : World -> trace -> A) (ev : A -> event) :
  (forall a, P (ev a)) -> (forall a, R a) -> does_only P R E F (observe ask ev).
Proof.
  intros HP HR W t. unfold observe. split; [repeat constructor; apply HP | apply HR].
Qed.

Lemma only_weaken P P' (R R' : A -> Prop) E E' F F' m :
  does_only P R E F m ->
  (forall e, P e -> P' e) -> (forall a, R a -> R' a) -> (forall e, E e -> E' e) ->
  (F -> F') ->
  does_only P' R' E' F' m.
Proof.
  intros Hm HP HR HE HF W t. destruct (Hm W t) as [Hd Ho]. split.
  - eapply List.Forall_impl; [|exact Hd]. exact HP.
  - destruct (fst (m W t)); simpl in *; auto.
Qed.

Lemma only_try P (R : A -> Prop) E E' F m (h : js_exn -> M A) :
  does_only P R E' F m -> (forall e, E' e -> does_only P R E F (h e)) ->
  does_only P R E F (try_catch m h).
Proof.
  intros Hm Hh W t. unfold try_catch. destruct (Hm W t) as [Hd Ho].
  destruct (m W t) as [[a|e|] d]; simpl in *; [now split| |now split].
  destruct (Hh e Ho W (t ++ d)) as [Hd' Ho'].
  destruct (h e W (t ++ d)) as [o d']. simpl in *. split; [|exact Ho'].
  apply Forall_app. now split.
Qed.
End Only.

Lemma only_bind {A B} (P : event -> Prop) (Q : A -> Prop) (R : B -> Prop)
    (E : js_exn -> Prop) (F : Prop) (m : M A) (k : A -> M B) :
  does_only P Q E F m -> (forall a, Q a -> does_only P R E F (k a)) ->
  does_only P R E F (bind m k).
Proof.
  intros Hm Hk W t. unfold bind. destruct (Hm W t) as [Hd Ho].
  destruct (m W t) as [[a|e|] d]; simpl in *; [|now split|now split].
  destruct (Hk a Ho W (t ++ d)) as [Hd' Ho'].
  destruct (k a W (t ++ d)) as [o d']. simpl in *. split; [|exact Ho'].
  apply Forall_app. now split.
Qed.

Lemma only_for_of {A S} (P : event -> Prop) (Q : A -> Prop) (I : S -> Prop)
    (E : js_exn -> Prop) (F : Prop) (xs : list A) (body : A -> S -> M S) :
  Forall Q xs ->
  (forall x s, Q x -> I s -> does_only P I E F (body x s)) ->
  forall s, I s -> does_only P I E F (for_of xs body s).
Proof.
  intros Hxs Hbody. induction Hxs as [|x xs Hx Hxs IH]; intros s Hs; simpl.
  - now apply only_ret.
  - eapply only_bind; [apply Hbody; assumption|]. exact IH.
Qed.

Lemma Forall_True {A} (xs : list A) : Forall (fun _ => True) xs.
Proof. induction xs; constructor; auto. Qed.

(** ** More on strings *)

Lemma slice_to_from (n : nat) (s : string) : Js.slice_to n s +:+ Js.slice_from n s = s.
Proof.
  revert s. induction n as [|n IH]; intros s; [reflexivity|].
  destruct s as [|c s]; [reflexivity|]. simpl. now rewrite sapp_cons, IH.
Qed.

(** What a tail of a text includes, the text includes. *)
Lemma includes_slice_from (n : nat) (s needle : string) :
  Js.includes s needle = false -> Js.includes (Js.slice_from n s) needle = false.
Proof.
  intros Hs. destruct (Js.includes (Js.slice_from n s) needle) eqn:Hi; [|reflexivity].
  apply includes_spec in Hi as (a & b & Hab).
  assert (Js.includes s needle = true); [|congruence].
  apply includes_spec. exists (Js.slice_to n s +:+ a), b.
  now rewrite sapp_assoc, <- Hab, slice_to_from.
Qed.

Lemma includes_char_app (x : ascii) (a b : string) :
  Js.includes (a +:+ b) (String x EmptyString)
  = Js.includes a (String x EmptyString) || Js.includes b (String x EmptyString).
Proof.
  induction a as [|c a IH]; [reflexivity|].
  now rewrite sapp_cons, !includes_char_cons, IH, orb_assoc.
Qed.

(** A pattern of two characters, neither of them the separator, does not
    straddle the separator. *)
Lemma includes_pair_sep (x y sep : ascii) (a b : string) :
  Ascii.eqb x sep = false -> Ascii.eqb y sep = false ->
  Js.includes (a +:+ String sep b) (String x (String y EmptyString))
  = Js.includes a (String x (String y EmptyString))
    || Js.includes b (String x (String y EmptyString)).
Proof.
  intros Hx Hy. induction a as [|c a IH].
  - rewrite sapp_nil. simpl. now rewrite Hx.
  - rewrite sapp_cons.
    change (Js.includes (String c (a +:+ String sep b)) (String x (String y EmptyString)))
      with (Js.startsWith (String c (a +:+ String sep b)) (String x (String y EmptyString))
            || Js.includes (a +:+ String sep b) (String x (String y EmptyString))).
    change (Js.includes (String c a) (String x (String y EmptyString)))
      with (Js.startsWith (String c a) (String x (String y EmptyString))
            || Js.includes a (String x (String y EmptyString))).
    rewrite IH, orb_assoc. f_equal. f_equal.
    simpl. f_equal. destruct a as [|d a]; simpl; [now rewrite Hy | reflexivity].
Qed.

Section KeyProperties.
Context `{JsonRuntime}.

Lemma isCleanPath_not_corrupted (path : string) :
  isCleanPath path = true -> isCorruptedKey path = false.
Proof.
  intros Hclean. apply isCleanPath_true in Hclean as (Hq & Hl & _ & Hn & _).
  unfold isCorruptedKey. now rewrite Hq, Hl, Hn.
Qed.

(** The key of a clean path under an uncorrupted prefix is not corrupted. *)
Lemma r2Key_of_not_corrupted (containerDir r2Prefix filePath : string) :
  isCorruptedKey r2Prefix = false -> isCleanPath filePath = true ->
  isCorruptedKey (r2Key_of containerDir r2Prefix filePath) = false.
Proof.
  intros Hprefix Hclean. apply isCleanPath_true in Hclean as (Hq & Hl & _ & Hn & _).
  unfold isCorruptedKey in *.
  apply orb_false_elim in Hprefix as [Hp Hpn]. apply orb_false_elim in Hp as [Hpq Hpl].
  unfold r2Key_of. set (rel := Js.slice_from (String.length containerDir + 1) filePath).
  assert (Hrq : Js.includes rel Js.DQUOTE = false) by now apply includes_slice_from.
  assert (Hrl : Js.includes rel "{" = false) by now apply includes_slice_from.
  assert (Hrn : Js.includes rel Js.BACKSLASH_N = false) by now apply includes_slice_from.
  unfold Js.DQUOTE in *.
  rewrite !includes_char_app, Hpq, Hpl, Hrq, Hrl.
  change (r2Prefix +:+ "/" +:+ rel) with (r2Prefix +:+ String "/"%char rel).
  unfold Js.BACKSLASH_N in *.
  rewrite (includes_pair_sep "\"%char "n"%char "/"%char) by reflexivity.
  now rewrite Hpn, Hrn.
Qed.

End KeyProperties.

(** ** The calls of a sync pass *)

Section SyncCalls.
Context `{JsonRuntime}.

Lemma listContainerFiles_only (dirPath : string) (excludeDirs : list string) :
  does_only sync_call clean_paths (fun _ => True) False
    (listContainerFiles dirPath excludeDirs).
Proof.
  unfold listContainerFiles. cbv zeta.
  eapply (only_bind _ (fun _ => True)).
  - apply only_await; [intros r; exact I | trivial | trivial].
  - intros raw _. apply only_lift.
    pose proof (listed_paths_no_fuel (parseSSEEvents raw)) as Hfuel.
    destruct (listed_paths (parseSSEEvents raw)) as [files|e|] eqn:Hrun; simpl;
      [|exact I|congruence].
    apply (listed_paths_loop _ _ _ Hrun). constructor.
Qed.

Lemma chunk_content_meets (events : list json) :
  meets (fun _ : string => True) (fun _ => True) False (chunk_content events).
Proof.
  pose proof (chunk_content_no_fuel events) as Hfuel.
  destruct (chunk_content events); simpl; [exact I | exact I | congruence].
Qed.

Lemma syncDirectory_only (containerDir r2Prefix : string) (excludeDirs : list string) :
  In r2Prefix ["openclaw"; "workspace"; "skills"] ->
  does_only sync_call (fun _ : nat => True) (fun _ => True) False
    (syncDirectory containerDir r2Prefix excludeDirs).
Proof.
  intros Hprefix. unfold syncDirectory.
  eapply only_bind; [apply listContainerFiles_only|].
  intros files Hfiles.
  apply (only_for_of _ _ (fun _ => True) _ _ _ _ Hfiles); [|exact I].
  intros filePath count [_ Hclean] _. cbv zeta.
  apply (only_try _ _ _ (fun _ => True)); [|intros e _; now apply only_ret].
  eapply (only_bind _ (fun _ => True)).
  { apply only_await; [intros r; exact I | trivial | trivial]. }
  intros raw _.
  eapply (only_bind _ (fun _ => True)); [apply only_lift, chunk_content_meets|].
  intros [|c content] _; [now apply only_ret|].
  eapply (only_bind _ (fun _ => True)); [|intros; now apply only_ret].
  apply only_await; [|trivial|trivial].
  intros r. simpl. split.
  - apply r2Key_of_not_corrupted; [|exact Hclean].
    destruct Hprefix as [<-|[<-|[<-|[]]]]; reflexivity.
  - left. destruct Hprefix as [<-|[<-|[<-|[]]]]; reflexivity.
Qed.

Lemma probe_only (configDir : option string) (dir : string) :
  does_only sync_call (fun _ : option string => True) (fun _ => False) False
    (probe configDir dir).
Proof.
  unfold probe. destruct configDir; [now apply only_ret|].
  apply (only_try _ _ _ (fun _ => True)); [|intros e _; now apply only_ret].
  eapply (only_bind _ (fun _ => True)).
  - eapply only_weaken; [apply listContainerFiles_only|auto..].
  - intros files _. now apply only_ret.
Qed.

Lemma detectConfigDir_only :
  does_only sync_call (fun _ : option string => True) (fun _ => False) False
    detectConfigDir.
Proof.
  unfold detectConfigDir. eapply only_bind; [apply probe_only|].
  intros c _. apply probe_only.
Qed.

Lemma cleanCorruptedR2Keys_pages_only (fuel : nat) :
  forall cursor deleted,
    does_only sync_call (fun _ : nat => True) (fun _ => True) True
      (cleanCorruptedR2Keys_pages fuel cursor deleted).
Proof.
  induction fuel as [|fuel IH]; intros cursor deleted; simpl.
  - intros W t. split; [constructor | exact I].
  - eapply (only_bind _ (fun _ => True)).
    { apply only_await; [intros r; reflexivity | trivial | trivial]. }
    intros page _. eapply (only_bind _ (fun _ => True)).
    + apply (only_for_of _ (fun _ => True) (fun _ => True)); [apply Forall_True| |exact I].
      intros key n _ _. destruct (isCorruptedKey key) eqn:Hkey; [|now apply only_ret].
      apply (only_try _ _ _ (fun _ => True)); [|intros e _; now apply only_ret].
      eapply (only_bind _ (fun _ => True)); [|intros; now apply only_ret].
      apply only_await; [intros r; exact Hkey | trivial | trivial].
    + intros deleted' _. destruct (truthy _); [apply IH | now apply only_ret].
Qed.

Lemma syncTrees_only (configDir : string) :
  does_only sync_call (fun _ : nat => True) (fun _ => True) False (syncTrees configDir).
Proof.
  unfold syncTrees. eapply only_bind; [apply syncDirectory_only; simpl; auto|].
  intros configFiles _. cbv zeta. eapply (only_bind _ (fun _ => True)).
  - apply (only_try _ _ _ (fun _ => True)); [|intros e _; now apply only_ret].
    eapply only_bind; [apply syncDirectory_only; simpl; auto|].
    intros; now apply only_ret.
  - intros totalFiles _.
    apply (only_try _ _ _ (fun _ => True)); [|intros e _; now apply only_ret].
    eapply only_bind; [apply syncDirectory_only; simpl; auto|].
    intros; now apply only_ret.
Qed.

(** Every run of syncToR2 makes only the calls of a sync pass, whatever it
    comes to. *)
Lemma syncToR2_only (fuel : nat) :
  does_only sync_call (fun _ : SyncResult => True) (fun _ => True) True (syncToR2 fuel).
Proof.
  unfold syncToR2. eapply (only_bind _ (fun _ => True)).
  { intros W t. split; [constructor | exact I]. }
  intros bucket _. destruct (negb bucket); [now apply only_ret|].
  eapply (only_bind _ (fun _ => True)).
  { eapply only_weaken; [apply detectConfigDir_only|auto..]. }
  intros [configDir|] _; [|now apply only_ret].
  eapply (only_bind _ (fun _ => True)).
  { unfold cleanCorruptedR2Keys. eapply only_bind; [apply cleanCorruptedR2Keys_pages_only|].
    intros; now apply only_ret. }
  intros _ _.
  apply (only_try _ _ _ (fun _ => True)); [|intros e _; now apply only_ret].
  eapply (only_bind _ (fun _ => True)).
  { eapply only_weaken; [apply syncTrees_only|auto..]. }
  intros totalFiles _. destruct (0 <? totalFiles)%nat; [|now apply only_ret].
  eapply (only_bind _ (fun _ => True)).
  { apply only_observe; [intros a; exact I | trivial]. }
  intros now _. eapply (only_bind _ (fun _ => True)); [|intros; now apply only_ret].
  apply only_await; [|trivial|trivial].
  intros r. simpl. split; [reflexivity | now right].
Qed.

End SyncCalls.

(** ** The runs of syncToR2, by case *)

Section SyncRuns.
Context `{JsonRuntime}.

Lemma no_puts_no_stored (d : trace) : Calls.puts d = [] -> Calls.stored d = [].
Proof.
  induction d as [|e d IH]; [reflexivity|]. simpl.
  destruct e as [| key value [u|err] | | | | | | | | | | | | | | |]; simpl; auto; discriminate.
Qed.

Lemma stored_in_puts (d : trace) (kv : string * string) :
  In kv (Calls.stored d) -> In kv (Calls.puts d).
Proof.
  induction d as [|e d IH]; [trivial|]. simpl.
  destruct e as [| key value [u|err] | | | | | | | | | | | | | | |]; simpl; auto.
  intros [Hkv|Hin]; auto.
Qed.

(** The three trees come to the number of their stored uploads, or to the
    exception of the config listing; their uploads go under the three
    prefixes either way. *)
Lemma syncTrees_outcome W t configDir :
  exists o d,
    syncTrees configDir W t = (o, d)
    /\ (o = Ret (length (Calls.stored d)) \/ exists e, o = Throw e)
    /\ Forall (fun kv => is_tree_key (fst kv) = true) (Calls.puts d).
Proof.
  unfold syncTrees.
  destruct (syncDirectory_outcome W t configDir "openclaw" [])
    as (o1 & d1 & Hrun1 & Hcount1 & Hkeys1).
  apply tree_key_openclaw in Hkeys1.
  destruct Hcount1 as [->|[[e ->] _]].
  - destruct (optional_tree W (t ++ d1) "/root/clawd" "workspace" ["skills"]
                (length (Calls.stored d1))) as (o2 & d2 & Hrun2 & -> & Hkeys2).
    destruct (optional_tree W ((t ++ d1) ++ d2) "/root/clawd/skills" "skills" []
                (length (Calls.stored d1) + length (Calls.stored d2))%nat)
      as (o3 & d3 & Hrun3 & -> & Hkeys3).
    apply tree_key_workspace in Hkeys2. apply tree_key_skills in Hkeys3.
    eexists _, (d1 ++ d2 ++ d3). split; [|split].
    + eapply run_bind; [exact Hrun1|]. cbv zeta.
      eapply run_bind; [exact Hrun2 | exact Hrun3].
    + left. rewrite !stored_app, !length_app. f_equal. lia.
    + rewrite !puts_app. repeat apply Forall_app_2; assumption.
  - exists (Throw e), d1. split; [|split]; [|right; now exists e|exact Hkeys1].
    apply run_bind_throw. exact Hrun1.
Qed.

(** When the sweep raises, what it raises is the rejection of a listing of
    the bucket, its last call. *)
Lemma sweep_pages_throw W :
  forall fuel cursor t deleted e d,
    cleanCorruptedR2Keys_pages fuel cursor deleted W t = (Throw e, d) ->
    exists d' c, d = d' ++ [EvBucketList None c (Rejected e)].
Proof.
  induction fuel as [|fuel IH]; intros cursor t deleted e0 d; simpl.
  - unfold out_of_fuel. discriminate.
  - unfold bind at 1. unfold Bucket.list at 1, await.
    destruct (bucket_list W t None cursor) as [page|e].
    2: { intros [= <- <-]. now exists [], cursor. }
    set (ev := EvBucketList None cursor (Resolved page)).
    destruct (sweep_page W (list_objects page) (t ++ [ev]) deleted)
      as (d1 & deleted1 & Hrun1 & _ & _).
    unfold bind at 1. rewrite Hrun1.
    destruct (truthy _).
    + destruct (cleanCorruptedR2Keys_pages fuel _ deleted1 W ((t ++ [ev]) ++ d1))
        as [o2 d2] eqn:Hrun2.
      intros [= -> <-]. apply IH in Hrun2 as (d' & c & ->).
      exists ([ev] ++ d1 ++ d'), c. now rewrite <- !app_assoc.
    + unfold ret. discriminate.
Qed.

Lemma syncToR2_cases W t fuel :
  sync_run W t (fst (syncToR2 fuel W t)) (snd (syncToR2 fuel W t)).
Proof.
  destruct (MOLTBOT_BUCKET W) eqn:Hbucket.
  2: { assert (Hrun : syncToR2 fuel W t = (Ret not_configured, [])).
       { unfold syncToR2. eapply (run_bind_last _ _ _ _ _ []).
         - unfold Bucket.bound. now rewrite Hbucket.
         - reflexivity. }
       rewrite Hrun. now constructor. }
  destruct (detectConfigDir_calls W t) as (found & d1 & Hdetect & Hputs1).
  assert (Hhead : forall o d,
             match found with
             | None => ret no_config_dir
             | Some configDir =>
                 bind (cleanCorruptedR2Keys fuel) (fun _ =>
                   try_catch
                     (bind (syncTrees configDir) (fun totalFiles =>
                        if (0 <? totalFiles)%nat
                        then bind now_iso (fun now0 =>
                               bind (Bucket.put ".last-sync" now0) (fun _ =>
                                 ret (synced now0 totalFiles)))
                        else ret no_files))
                     (fun err => ret (failed "Sync error" (error_details err))))
             end W (t ++ d1) = (o, d) ->
             syncToR2 fuel W t = (o, d1 ++ d)).
  { intros o d Hrest. unfold syncToR2.
    eapply (run_bind _ _ _ _ _ []).
    { unfold Bucket.bound. now rewrite Hbucket. }
    simpl negb. cbv iota. rewrite app_nil_r.
    eapply run_bind; [exact Hdetect|]. exact Hrest. }
  destruct found as [configDir|].
  2: { rewrite (Hhead _ [] eq_refl), app_nil_r. now constructor. }
  destruct (cleanCorruptedR2Keys fuel W (t ++ d1)) as [o2 d2] eqn:Hsweep.
  pose proof (cleanCorruptedR2Keys_calls W _ fuel _ _ Hsweep) as Hputs2.
  destruct o2 as [[]|e|].
  - destruct (syncTrees_outcome W ((t ++ d1) ++ d2) configDir)
      as (o3 & d3 & Htrees & Hcount & Hkeys).
    destruct Hcount as [->|[e ->]].
    + destruct (length (Calls.stored d3)) as [|n] eqn:Hn.
      * erewrite Hhead.
        2: { eapply run_bind; [exact Hsweep|]. apply run_try.
             eapply run_bind_last; [exact Htrees | reflexivity]. }
        apply run_no_files; trivial. now destruct (Calls.stored d3).
      * set (now := Date_toISOString W (((t ++ d1) ++ d2) ++ d3)).
        set (r := bucket_put W ((((t ++ d1) ++ d2) ++ d3) ++ [EvToISOString now])
                    ".last-sync" now).
        assert (Hrun : syncToR2 fuel W t
                       = (Ret match r with
                              | Resolved _ => synced now (S n)
                              | Rejected err => failed "Sync error" (error_details err)
                              end,
                          d1 ++ d2 ++ d3 ++ [EvToISOString now; EvBucketPut ".last-sync" now r])).
        { apply Hhead. eapply run_bind; [exact Hsweep|].
          destruct r as [u|err] eqn:Hr.
          - apply run_try. eapply run_bind; [exact Htrees|]. simpl Nat.ltb. cbv iota.
            eapply (run_bind _ _ _ _ _ [_] _ [_]); [reflexivity|].
            eapply (run_bind_last _ _ _ _ _ [_]); [|reflexivity].
            unfold Bucket.put, await. fold now. fold r. now rewrite Hr.
          - eapply run_catch_last; [|reflexivity].
            eapply run_bind; [exact Htrees|]. simpl Nat.ltb. cbv iota.
            eapply (run_bind _ _ _ _ _ [_] _ [_]); [reflexivity|].
            apply run_bind_throw.
            unfold Bucket.put, await. fold now. fold r. now rewrite Hr. }
        rewrite Hrun. simpl fst. simpl snd. rewrite <- Hn.
        apply run_marker; trivial. lia.
    + erewrite Hhead.
      2: { eapply run_bind; [exact Hsweep|].
           eapply run_catch_last; [|reflexivity].
           apply run_bind_throw. exact Htrees. }
      now apply run_listing_raises.
  - assert (Hpages : exists d' c, d2 = d' ++ [EvBucketList None c (Rejected e)]).
    { unfold cleanCorruptedR2Keys, bind in Hsweep.
      destruct (cleanCorruptedR2Keys_pages fuel None 0 W (t ++ d1)) as [[n|e'|] dp] eqn:Hp;
        try discriminate.
      injection Hsweep as -> ->. now apply sweep_pages_throw in Hp. }
    destruct Hpages as (d' & c & ->).
    erewrite Hhead; [|apply run_bind_throw; exact Hsweep].
    simpl fst. simpl snd. apply run_sweep_raises; trivial.
    rewrite puts_app in Hputs2. now apply app_eq_nil in Hputs2 as [-> _].
  - erewrite Hhead; [|apply run_bind_fuel; exact Hsweep].
    now apply run_sweep_fuel.
Qed.

End SyncRuns.

(** ** What syncToR2 does and does not do *)

Section SyncExtras.
Context `{JsonRuntime}.

Lemma sync_calls_projections (d : trace) :
  Forall sync_call d ->
  Calls.writes d = [] /\ Calls.mkdirs d = [] /\ starts d = [] /\ Calls.kills d = []
  /\ Calls.gets d = []
  /\ Forall (fun kv => isCorruptedKey (fst kv) = false) (Calls.puts d)
  /\ Forall (fun key => isCorruptedKey key = true) (Calls.deletes d).
Proof.
  induction 1 as [|e d He Hd (Hw & Hm & Hs & Hk & Hg & Hp & Hx)]; [now repeat split|].
  destruct e; simpl in He; try contradiction; simpl; repeat split; trivial.
  - constructor; [apply He | exact Hp].
  - constructor; [exact He | exact Hx].
Qed.

(** X1. A sync pass only reads the container.  In every run of
    syncToR2, whatever it comes to, there is no writeFile, no mkdir, no
    startProcess and no kill, and the bucket is never read with get: the
    sandbox is only asked for listings and file streams. *)
Theorem syncToR2_reads_sandbox_only W t fuel :
  let d := snd (syncToR2 fuel W t) in
  Calls.writes d = [] /\ Calls.mkdirs d = [] /\ starts d = [] /\ Calls.kills d = []
  /\ Calls.gets d = []
  /\ Forall (fun e => Calls.is_sandbox e = true ->
                      Mock.is_execStream e = true \/ Mock.is_readFileStream e = true) d.
Proof.
  intros d. destruct (syncToR2_only fuel W t) as [Hcalls _]. fold d in Hcalls.
  destruct (sync_calls_projections d Hcalls) as (Hw & Hm & Hs & Hk & Hg & _).
  repeat split; trivial.
  eapply List.Forall_impl; [|exact Hcalls].
  intros e He Hsb. destruct e; simpl in *; try contradiction; try discriminate; auto.
Qed.

(** X2. A sync pass never uploads what a sweep deletes.  In every run
    of syncToR2 every key written to the bucket passes the corruption test
    of the sweep, every key deleted fails it, and so no key is both deleted
    and written in the same run. *)
Theorem syncToR2_uploads_survive_sweep W t fuel :
  let d := snd (syncToR2 fuel W t) in
  Forall (fun kv => isCorruptedKey (fst kv) = false) (Calls.puts d)
  /\ Forall (fun key => isCorruptedKey key = true) (Calls.deletes d)
  /\ (forall key, In key (Calls.deletes d) -> ~ In key (map fst (Calls.puts d))).
Proof.
  intros d. destruct (syncToR2_only fuel W t) as [Hcalls _]. fold d in Hcalls.
  destruct (sync_calls_projections d Hcalls) as (_ & _ & _ & _ & _ & Hp & Hx).
  repeat split; trivial.
  intros key Hdel Hput. apply in_map_iff in Hput as (kv & <- & Hkv).
  rewrite List.Forall_forall in Hp, Hx.
  specialize (Hp kv Hkv). specialize (Hx _ Hdel). congruence.
Qed.

Lemma marker_not_tree_key (d : trace) (now : string) :
  Forall (fun kv => is_tree_key (fst kv) = true) (Calls.puts d) ->
  ~ In (".last-sync", now) (Calls.stored d).
Proof.
  intros Hkeys Hin. apply stored_in_puts in Hin.
  rewrite List.Forall_forall in Hkeys. specialize (Hkeys _ Hin). discriminate.
Qed.

Lemma marker_not_stored (d : trace) (now : string) :
  Calls.puts d = [] -> ~ In (".last-sync", now) (Calls.stored d).
Proof. intros Hputs. now rewrite (no_puts_no_stored d Hputs). Qed.

(** X3. The marker tells the truth about a run.  When syncToR2 returns,
    it reports success exactly when the bucket accepted a write of
    [.last-sync] in that run; the timestamp it reports is the one it wrote;
    and the marker is written only after at least one file of the three
    trees was stored. *)
Theorem syncToR2_success_iff_marker W t fuel r d :
  syncToR2 fuel W t = (Ret r, d) ->
  (success r = true <-> exists now, In (".last-sync", now) (Calls.stored d))
  /\ (forall now, In (".last-sync", now) (Calls.stored d) -> lastSync r = Some now)
  /\ ((exists now, In (".last-sync", now) (Calls.puts d)) ->
      exists kv, In kv (Calls.stored d) /\ is_tree_key (fst kv) = true).
Proof.
  intros Hrun. pose proof (syncToR2_cases W t fuel) as Hcase.
  rewrite Hrun in Hcase. simpl in Hcase.
  assert (Hno : forall d1 d2 d3 now,
             Calls.puts d1 = [] -> Calls.puts d2 = [] ->
             Forall (fun kv => is_tree_key (fst kv) = true) (Calls.puts d3) ->
             ~ In (".last-sync", now) (Calls.puts (d1 ++ d2 ++ d3))).
  { intros d1 d2 d3 now Hp1 Hp2 Hk3 Hin. rewrite !puts_app, Hp1, Hp2 in Hin. simpl in Hin.
    rewrite List.Forall_forall in Hk3. specialize (Hk3 _ Hin). discriminate. }
  inversion Hcase as [Hb Ho Hd | d1 Hb Hp1 Ho Hd | | | d1 d2 d3 e Hb Hp1 Hp2 Hk3 Ho Hd
                      | d1 d2 d3 Hb Hp1 Hp2 Hk3 Hs3 Ho Hd
                      | d1 d2 d3 now r0 Hb Hp1 Hp2 Hk3 Hpos Ho Hd]; subst.
  - simpl. repeat split; try discriminate; intros [now []] || intros now [].
  - assert (Hnone : Calls.stored d = []) by now apply no_puts_no_stored.
    rewrite Hnone, Hp1. simpl.
    repeat split; try discriminate; intros [now []] || intros now [].
  - simpl. repeat split.
    + discriminate.
    + intros [now Hin]. apply stored_in_puts in Hin. now apply Hno in Hin.
    + intros now Hin. apply stored_in_puts in Hin. now apply Hno in Hin.
    + intros [now Hin]. now apply Hno in Hin.
  - simpl. repeat split.
    + discriminate.
    + intros [now Hin]. apply stored_in_puts in Hin. now apply Hno in Hin.
    + intros now Hin. apply stored_in_puts in Hin. now apply Hno in Hin.
    + intros [now Hin]. now apply Hno in Hin.
  - assert (Htree : exists kv, In kv (Calls.stored (d1 ++ d2 ++ d3 ++
                      [EvToISOString now; EvBucketPut ".last-sync" now r0]))
                               /\ is_tree_key (fst kv) = true).
    { destruct (Calls.stored d3) as [|kv rest] eqn:Hs3; [simpl in Hpos; lia|].
      exists kv. split.
      - rewrite !stored_app, Hs3, !in_app_iff. right. right. left. now left.
      - assert (Hin : In kv (Calls.puts d3)) by (apply stored_in_puts; rewrite Hs3; now left).
        rewrite List.Forall_forall in Hk3. now apply Hk3. }
    assert (Hmark : forall now',
               In (".last-sync", now')
                 (Calls.stored (d1 ++ d2 ++ d3 ++
                    [EvToISOString now; EvBucketPut ".last-sync" now r0])) ->
               now' = now /\ exists u, r0 = Resolved u).
    { intros now' Hin.
      rewrite !app_assoc, stored_app, <- !app_assoc, in_app_iff in Hin.
      destruct Hin as [Hin|Hin].
      - apply stored_in_puts in Hin. now apply Hno in Hin.
      - destruct r0 as [u|err]; simpl in Hin; [|contradiction].
        destruct Hin as [[= <-]|[]]. split; [reflexivity | now exists u]. }
    repeat split.
    + intros Hok. exists now. destruct r0 as [u|err]; [|discriminate].
      rewrite !stored_app, !in_app_iff. right. right. right. now left.
    + intros [now' Hin]. apply Hmark in Hin as [_ [u ->]]. reflexivity.
    + intros now' Hin. apply Hmark in Hin as [-> [u ->]]. reflexivity.
    + intros _. exact Htree.
Qed.

End SyncExtras.

Section SyncExtras2.
Context `{JsonRuntime}.

(** X4. The only exception syncToR2 lets through is a failing listing
    of the bucket during the corruption sweep: when a run raises [e], its
    last call is a list of the whole bucket that was rejected with [e], and
    nothing has been written to the bucket.  Every other failure comes back
    as a result. *)
Theorem syncToR2_raises_only_listing W t fuel e d :
  syncToR2 fuel W t = (Throw e, d) ->
  (exists d' cursor, d = d' ++ [EvBucketList None cursor (Rejected e)])
  /\ Calls.puts d = [].
Proof.
  intros Hrun. pose proof (syncToR2_cases W t fuel) as Hcase.
  rewrite Hrun in Hcase. simpl in Hcase.
  inversion Hcase as [ | | d1 d2 c e' Hb Hp1 Hp2 Ho Hd | | | | ]; subst.
  split.
  - exists (d1 ++ d2), c. now rewrite <- app_assoc.
  - now rewrite !puts_app, Hp1, Hp2.
Qed.

(** X5. The config directory is looked for at the new path first and
    at the legacy path only when the new one has no file.  Each probe is one
    listing; a listing that fails counts as an empty one.  So the detection
    never raises, takes one call when [/root/.openclaw] has a file and two
    otherwise. *)
Theorem detectConfigDir_prefers_openclaw W t :
  exists o1 r1,
    let ev1 := EvExecStream (find_command "/root/.openclaw" []) r1 in
    listContainerFiles "/root/.openclaw" [] W t = (o1, [ev1])
    /\ match o1 with
       | Ret (_ :: _) => detectConfigDir W t = (Ret (Some "/root/.openclaw"), [ev1])
       | _ =>
           exists o2 r2,
             let ev2 := EvExecStream (find_command "/root/.clawdbot" []) r2 in
             listContainerFiles "/root/.clawdbot" [] W (t ++ [ev1]) = (o2, [ev2])
             /\ detectConfigDir W t
                = (Ret match o2 with
                       | Ret (_ :: _) => Some "/root/.clawdbot"
                       | _ => None
                       end, [ev1; ev2])
       end.
Proof.
  destruct (listContainerFiles_calls W t "/root/.openclaw" []) as (o1 & r1 & Hlist1 & Hfuel1).
  exists o1, r1. cbv zeta. split; [exact Hlist1|].
  set (ev1 := EvExecStream (find_command "/root/.openclaw" []) r1) in *.
  assert (Hlegacy :
             probe None "/root/.openclaw" W t = (Ret None, [ev1]) ->
             exists o2 r2,
               listContainerFiles "/root/.clawdbot" [] W (t ++ [ev1])
               = (o2, [EvExecStream (find_command "/root/.clawdbot" []) r2])
               /\ detectConfigDir W t
                  = (Ret match o2 with
                         | Ret (_ :: _) => Some "/root/.clawdbot"
                         | _ => None
                         end, [ev1; EvExecStream (find_command "/root/.clawdbot" []) r2])).
  { intros Hprobe.
    destruct (listContainerFiles_calls W (t ++ [ev1]) "/root/.clawdbot" [])
      as (o2 & r2 & Hlist2 & Hfuel2).
    exists o2, r2. split; [exact Hlist2|].
    unfold detectConfigDir. eapply (run_bind _ _ _ _ _ [_] _ [_]); [exact Hprobe|].
    unfold probe. destruct o2 as [files|e|]; [| |congruence].
    - apply run_try. eapply run_bind_last; [exact Hlist2|]. now destruct files.
    - eapply run_catch_last; [|reflexivity]. apply run_bind_throw. exact Hlist2. }
  destruct o1 as [[|file files]|e|]; [| | |congruence].
  - apply Hlegacy.
    unfold probe. apply run_try. eapply run_bind_last; [exact Hlist1 | reflexivity].
  - unfold detectConfigDir.
    eapply (run_bind_last _ _ _ _ (Some "/root/.openclaw")); [|reflexivity].
    unfold probe. apply run_try. eapply run_bind_last; [exact Hlist1 | reflexivity].
  - apply Hlegacy.
    unfold probe. eapply run_catch_last; [|reflexivity]. apply run_bind_throw. exact Hlist1.
Qed.

(** X6. The status of a manual sync.  When the route answers, its
    status is 200, 400 or 500: it is 400 exactly when the bucket binding is
    missing, and 200 exactly when the marker [.last-sync] was stored in the
    run. *)
Theorem post_storage_sync_status W t fuel status body d :
  post_storage_sync fuel W t = (Ret (status, body), d) ->
  (status = 200 \/ status = 400 \/ status = 500)%Z
  /\ (status = 400%Z <-> MOLTBOT_BUCKET W = false)
  /\ (status = 200%Z <-> exists now, In (".last-sync", now) (Calls.stored d)).
Proof.
  unfold post_storage_sync. intros Hrun.
  apply bind_Ret in Hrun as (r & d1 & d2 & Hsync & Hret & ->).
  assert (Hd2 : d2 = []).
  { destruct (success r); unfold ret in Hret; now injection Hret. }
  subst d2. rewrite app_nil_r.
  pose proof (syncToR2_cases W t fuel) as Hcase.
  rewrite Hsync in Hcase. simpl in Hcase.
  assert (Hno : forall d1 d2 d3 now,
             Calls.puts d1 = [] -> Calls.puts d2 = [] ->
             Forall (fun kv => is_tree_key (fst kv) = true) (Calls.puts d3) ->
             ~ In (".last-sync", now) (Calls.stored (d1 ++ d2 ++ d3))).
  { intros e1 e2 e3 now Hp1 Hp2 Hk3 Hin. apply stored_in_puts in Hin.
    rewrite !puts_app, Hp1, Hp2 in Hin. simpl in Hin.
    rewrite List.Forall_forall in Hk3. specialize (Hk3 _ Hin). discriminate. }
  inversion Hcase as [Hb Ho Hd | d0 Hb Hp1 Ho Hd | | | d0 d2 d3 e Hb Hp1 Hp2 Hk3 Ho Hd
                      | d0 d2 d3 Hb Hp1 Hp2 Hk3 Hs3 Ho Hd
                      | d0 d2 d3 now r0 Hb Hp1 Hp2 Hk3 Hpos Ho Hd]; subst.
  - simpl in Hret. unfold ret in Hret. injection Hret as <- _. rewrite Hb.
    repeat split; auto; try discriminate. intros [now []].
  - simpl in Hret. unfold ret in Hret. injection Hret as <- _. rewrite Hb.
    rewrite (no_puts_no_stored d1 Hp1).
    repeat split; auto; try discriminate. intros [now []].
  - simpl in Hret. unfold ret in Hret. injection Hret as <- _. rewrite Hb.
    repeat split; auto; try discriminate. intros [now Hin]. now apply Hno in Hin.
  - simpl in Hret. unfold ret in Hret. injection Hret as <- _. rewrite Hb.
    repeat split; auto; try discriminate. intros [now Hin]. now apply Hno in Hin.
  - rewrite Hb. destruct r0 as [u|err].
    + simpl in Hret. unfold ret in Hret. injection Hret as <- _.
      repeat split; auto; try discriminate. intros _. exists now.
      rewrite !stored_app, !in_app_iff. right. right. right. now left.
    + simpl in Hret. unfold ret in Hret. injection Hret as <- _.
      repeat split; auto; try discriminate. intros [now' Hin].
      rewrite !app_assoc, stored_app, <- !app_assoc, in_app_iff in Hin.
      destruct Hin as [Hin|[]]. now apply Hno in Hin.
Qed.

End SyncExtras2.

Lemma syncToR2_success_iff_marker_witness :
  In (".last-sync", "2026-01-01T00:00:00.000Z")
    (Calls.stored (snd (@syncToR2 Json.parse 3 Examples.three_files [])))
  /\ lastSync (synced "2026-01-01T00:00:00.000Z" 3) = Some "2026-01-01T00:00:00.000Z".
Proof.
  assert (Hrun : @syncToR2 Json.parse 3 Examples.three_files []
                 = (Ret (synced "2026-01-01T00:00:00.000Z" 3),
                    snd (@syncToR2 Json.parse 3 Examples.three_files [])))
    by (vm_compute; reflexivity).
  destruct (@syncToR2_success_iff_marker Json.parse _ _ _ _ _ Hrun) as (_ & Hstamp & _).
  assert (Hin : In (".last-sync", "2026-01-01T00:00:00.000Z")
                  (Calls.stored (snd (@syncToR2 Json.parse 3 Examples.three_files []))))
    by (vm_compute; tauto).
  split; [exact Hin | exact (Hstamp _ Hin)].
Defined.

Lemma syncToR2_raises_only_listing_witness :
  exists d' cursor,
    snd (@syncToR2 Json.parse 3 Scenarios.broken_listing [])
    = d' ++ [EvBucketList None cursor (Rejected (JsError "list failed"))].
Proof.
  assert (Hrun : @syncToR2 Json.parse 3 Scenarios.broken_listing []
                 = (Throw (JsError "list failed"),
                    snd (@syncToR2 Json.parse 3 Scenarios.broken_listing [])))
    by (vm_compute; reflexivity).
  exact (proj1 (@syncToR2_raises_only_listing Json.parse _ _ _ _ _ Hrun)).
Defined.

Lemma post_storage_sync_status_witness :
  MOLTBOT_BUCKET (Mock.withoutBucket Examples.three_files) = false
  /\ fst (@post_storage_sync Json.parse 3 (Mock.withoutBucket Examples.three_files) [])
     = Ret (400%Z,
            JObject [("success", JBool false);
                     ("error", JString "R2 bucket binding not configured")]).
Proof.
  assert (Hrun : @post_storage_sync Json.parse 3 (Mock.withoutBucket Examples.three_files) []
                 = (Ret (400%Z,
                         JObject [("success", JBool false);
                                  ("error", JString "R2 bucket binding not configured")]), []))
    by (vm_compute; reflexivity).
  destruct (@post_storage_sync_status Json.parse _ _ _ _ _ _ Hrun) as (_ & Hbad & _).
  split; [exact (proj1 Hbad eq_refl) | now rewrite Hrun].
Defined.

(** ** The calls of a restore *)

Section RestoreCalls.

Lemma mkdirCached_only (dir : string) (cache : gset string) :
  does_only restore_call (fun _ : gset string => True) (fun _ => False) False
    (mkdirCached dir cache).
Proof.
  unfold mkdirCached. destruct (decide (dir ∈ cache)); [now apply only_ret|].
  eapply (only_bind _ (fun _ => True)); [|intros; now apply only_ret].
  apply (only_try _ _ _ (fun _ => True)); [|intros e _; now apply only_ret].
  apply only_await; [intros r; exact I | trivial | trivial].
Qed.

Lemma restoreObject_only (prefix containerDir key : string) (st : nat * gset string) :
  In (prefix, containerDir) RESTORE_PREFIXES ->
  does_only restore_call (fun _ : nat * gset string => True) (fun _ => False) False
    (restoreObject prefix containerDir key st).
Proof.
  intros Hin. destruct st as [count createdDirs]. unfold restoreObject.
  destruct (shouldSkipKey key) eqn:Hskip; [now apply only_ret|].
  destruct (Js.slice_from (String.length prefix) key) as [|c rel] eqn:Hrel;
    [now apply only_ret|].
  cbv zeta. eapply (only_bind _ (fun _ => True)).
  { destruct (0 <? _)%Z; [apply mkdirCached_only | now apply only_ret]. }
  intros dirs _.
  apply (only_try _ _ _ (fun _ => True)); [|intros e _; now apply only_ret].
  eapply (only_bind _ (fun _ => True)).
  { apply only_await; [intros r; now right | trivial | trivial]. }
  intros [content|] _; [|now apply only_ret].
  eapply (only_bind _ (fun _ => True)); [|intros; now apply only_ret].
  apply only_await; [|trivial|trivial].
  intros r. right. exists prefix, containerDir, key.
  split; [exact Hin|]. split; [exact Hskip|].
  unfold target_path. now rewrite Hrel.
Qed.

Lemma restorePrefix_pages_only (fuel : nat) (prefix containerDir : string) :
  In (prefix, containerDir) RESTORE_PREFIXES ->
  forall cursor st,
    does_only restore_call (fun _ : nat * gset string => True) (fun _ => True) True
      (restorePrefix_pages fuel prefix containerDir cursor st).
Proof.
  intros Hin. induction fuel as [|fuel IH]; intros cursor st; simpl.
  - intros W t. split; [constructor | exact I].
  - eapply (only_bind _ (fun _ => True)).
    { apply only_await; [|trivial|trivial].
      intros r. destruct Hin as [[= <- <-]|[[= <- <-]|[]]]; [now left | now right]. }
    intros page _. eapply (only_bind _ (fun _ => True)).
    + apply (only_for_of _ (fun _ => True) (fun _ => True)); [apply Forall_True| |exact I].
      intros key st' _ _.
      eapply only_weaken; [apply restoreObject_only; exact Hin|auto..].
    + intros st' _. destruct (truthy _); [apply IH | now apply only_ret].
Qed.

Lemma restorePrefix_only (fuel : nat) (prefix containerDir : string) :
  In (prefix, containerDir) RESTORE_PREFIXES ->
  does_only restore_call (fun _ : nat => True) (fun _ => True) True
    (restorePrefix fuel prefix containerDir).
Proof.
  intros Hin. unfold restorePrefix. eapply (only_bind _ (fun _ => True)).
  { eapply only_weaken; [apply mkdirCached_only|auto..]. }
  intros dirs _. eapply (only_bind _ (fun _ => True)).
  - now apply restorePrefix_pages_only.
  - intros; now apply only_ret.
Qed.

Lemma restoreFromR2_only (fuel : nat) :
  does_only restore_call (fun _ : bool => True) (fun _ => True) True (restoreFromR2 fuel).
Proof.
  unfold restoreFromR2. eapply (only_bind _ (fun _ => True)).
  { intros W t. split; [constructor | exact I]. }
  intros bucket _. destruct (negb bucket); [now apply only_ret|].
  eapply (only_bind _ (fun _ => True)).
  { apply only_await; [intros r; now left | trivial | trivial]. }
  intros [lastSync|] _; [|now apply only_ret].
  eapply (only_bind _ (fun _ => True)).
  - apply (only_for_of _ (fun pc => In pc RESTORE_PREFIXES) (fun _ => True));
      [now apply List.Forall_forall| |exact I].
    intros [prefix containerDir] totalFiles Hin _.
    apply (only_try _ _ _ (fun _ => True)); [|intros e _; now apply only_ret].
    eapply (only_bind _ (fun _ => True)); [now apply restorePrefix_only|].
    intros; now apply only_ret.
  - intros totalFiles _. destruct (0 <? totalFiles)%nat; [|now apply only_ret].
    eapply (only_bind _ (fun _ => True)); [|intros; now apply only_ret].
    apply (only_try _ _ _ (fun _ => True)); [|intros e _; now apply only_ret].
    apply only_await; [intros r; now left | trivial | trivial].
Qed.

Lemma shouldSkipKey_corrupted (key : string) :
  shouldSkipKey key = false -> isCorruptedKey key = false.
Proof.
  unfold shouldSkipKey, isCorruptedKey.
  destruct (Js.endsWith key "/"); [discriminate|].
  destruct (existsb _ SKIP_EXTENSIONS); [discriminate|].
  now destruct (Js.includes key Js.DQUOTE || Js.includes key "{"
                || Js.includes key Js.BACKSLASH_N).
Qed.

(** The path of a restored file is put together from the key as it is:
    a key with [..] segments is restored to a file outside the container
    directory of its prefix. *)
Lemma restoreFromR2_writes_as_keyed :
  shouldSkipKey "workspace/../../etc/cron.d/x" = false
  /\ Calls.writes (snd (restoreFromR2 3 Scenarios.climbing []))
     = [("/root/clawd/../../etc/cron.d/x", "x");
        ("/root/.openclaw/.last-sync", "2026-01-01T00:00:00.000Z")].
Proof. split; vm_compute; reflexivity. Qed.

(** X7. A restore never changes the backup.  In every run of
    restoreFromR2, whatever it comes to, nothing is written to the bucket
    and nothing deleted from it; the only prefixes listed are [openclaw/]
    and [workspace/] (never [skills/], never the whole bucket); no key is
    fetched that the corruption sweep would delete; and every file written
    is the marker file [/root/.openclaw/.last-sync], or has as its path the
    container directory of one of the two mappings, a slash, and what a key
    that is not skipped has after as many characters as the prefix is long.
    The path is used as it is put together: nothing here keeps a key with
    [..] segments below the container directory. *)
Theorem restoreFromR2_leaves_bucket W t fuel :
  let d := snd (restoreFromR2 fuel W t) in
  Calls.puts d = [] /\ Calls.deletes d = []
  /\ Forall (fun e => match e with
                      | EvBucketList prefix _ _ =>
                          prefix = Some "openclaw/" \/ prefix = Some "workspace/"
                      | _ => True
                      end) d
  /\ Forall (fun key => isCorruptedKey key = false) (Calls.gets d)
  /\ Forall (fun pc =>
               fst pc = "/root/.openclaw/.last-sync"
               \/ exists prefix containerDir key,
                    In (prefix, containerDir) RESTORE_PREFIXES
                    /\ shouldSkipKey key = false
                    /\ fst pc = containerDir +:+ "/" +:+ Js.slice_from (String.length prefix) key)
       (Calls.writes d).
Proof.
  intros d. destruct (restoreFromR2_only fuel W t) as [Hcalls _]. fold d in Hcalls.
  clearbody d. induction Hcalls as [|e d He Hd (Hp & Hx & Hl & Hg & Hw)]; [now repeat split|].
  destruct e; simpl in He; try contradiction; simpl; repeat split; trivial;
    try (constructor; trivial).
  destruct He as [->|He]; [reflexivity | now apply shouldSkipKey_corrupted].
Qed.

End RestoreCalls.

(** ** The directories of a restore *)

Section RestoreDirs.

Lemma mkdirs_app (d1 d2 : trace) :
  Calls.mkdirs (d1 ++ d2) = Calls.mkdirs d1 ++ Calls.mkdirs d2.
Proof. apply omap_app. Qed.

Lemma parents_first_app (d1 d2 : trace) :
  forall made,
    parents_first made (d1 ++ d2)
    <-> parents_first made d1
        /\ parents_first (list_to_set (Calls.mkdirs d1) ∪ made) d2.
Proof.
  induction d1 as [|e d1 IH]; intros made.
  - assert (list_to_set (Calls.mkdirs []) ∪ made = made) as -> by set_solver.
    simpl. tauto.
  - destruct e;
      try (change (parents_first made ((?e :: d1) ++ d2))
             with (parents_first made (d1 ++ d2)));
      simpl app; simpl parents_first; rewrite ?IH; try tauto.
    change (Calls.mkdirs (EvMkdir path r :: d1)) with (path :: Calls.mkdirs d1).
    assert (list_to_set (Calls.mkdirs d1) ∪ ({[path]} ∪ made)
            = list_to_set (path :: Calls.mkdirs d1) ∪ made) as -> by set_solver.
    tauto.
Qed.

(** One run after the other. *)
Lemma makes_dirs_app (cache : gset string) (d1 d2 : trace) :
  makes_dirs cache d1 ->
  makes_dirs (list_to_set (Calls.mkdirs d1) ∪ cache) d2 ->
  makes_dirs cache (d1 ++ d2).
Proof.
  intros (Hnd1 & Hnew1 & Hpar1) (Hnd2 & Hnew2 & Hpar2). repeat split.
  - rewrite mkdirs_app. apply List.NoDup_app; [exact Hnd1 | exact Hnd2 |].
    intros dir Hin1 Hin2. apply Hnew2 in Hin2. apply Hin2.
    apply elem_of_union_l, elem_of_list_to_set, list_elem_of_In, Hin1.
  - intros dir Hin. rewrite mkdirs_app, in_app_iff in Hin. destruct Hin as [Hin|Hin].
    + now apply Hnew1.
    + apply Hnew2 in Hin. set_solver.
  - apply parents_first_app. now split.
Qed.

Lemma dirs_nil (cache : gset string) : list_to_set (Calls.mkdirs []) ∪ cache = cache.
Proof. set_solver. Qed.

Lemma makes_dirs_nil (cache : gset string) : makes_dirs cache [].
Proof. repeat split; [constructor | intros dir []]. Qed.

Lemma mkdirCached_dirs W t dir (cache : gset string) :
  exists d,
    mkdirCached dir cache W t = (Ret (list_to_set (Calls.mkdirs d) ∪ cache), d)
    /\ makes_dirs cache d
    /\ Calls.writes d = []
    /\ dir ∈ (list_to_set (Calls.mkdirs d) ∪ cache : gset string).
Proof.
  unfold mkdirCached. destruct (decide (dir ∈ cache)) as [Hin|Hnot].
  - exists []. rewrite dirs_nil.
    repeat split; [constructor | intros ? [] | exact Hin].
  - assert (Hdirs : forall r, makes_dirs cache [EvMkdir dir r]).
    { intros r. repeat split.
      - simpl. constructor; [intros [] | constructor].
      - intros dir' [<-|[]]. exact Hnot. }
    assert (Hset : list_to_set [dir] ∪ cache = {[dir]} ∪ cache) by set_solver.
    destruct (sandbox_mkdir W t dir) as [[]|e] eqn:Hmk.
    + exists [EvMkdir dir (Resolved tt)]. simpl Calls.mkdirs. rewrite Hset.
      repeat split; try apply Hdirs; [|set_solver].
      eapply (run_bind_last _ _ _ _ _ [_]); [|reflexivity].
      apply run_try. unfold Sandbox.mkdir, await. now rewrite Hmk.
    + exists [EvMkdir dir (Rejected e)]. simpl Calls.mkdirs. rewrite Hset.
      repeat split; try apply Hdirs; [|set_solver].
      eapply (run_bind_last _ _ _ _ _ [_]); [|reflexivity].
      eapply (run_catch _ _ _ _ _ [_] _ []); [|reflexivity].
      unfold Sandbox.mkdir, await. now rewrite Hmk.
Qed.

Lemma restoreObject_dirs W t prefix containerDir key count (cache : gset string) :
  exists d count',
    restoreObject prefix containerDir key (count, cache) W t
    = (Ret (count', list_to_set (Calls.mkdirs d) ∪ cache), d)
    /\ makes_dirs cache d.
Proof.
  unfold restoreObject.
  pose proof (dirs_nil cache) as Hnil.
  destruct (shouldSkipKey key).
  { exists [], count. rewrite Hnil. split; [reflexivity | apply makes_dirs_nil]. }
  destruct (Js.slice_from (String.length prefix) key) as [|c rel].
  { exists [], count. rewrite Hnil. split; [reflexivity | apply makes_dirs_nil]. }
  cbv zeta. set (containerPath := (containerDir +:+ "/" +:+ String c rel)%string).
  assert (Hmk : exists dm,
             (if (0 <? Js.lastIndexOf containerPath "/")%Z
              then mkdirCached
                     (Js.slice_to (Z.to_nat (Js.lastIndexOf containerPath "/")) containerPath)
                     cache
              else ret cache) W t = (Ret (list_to_set (Calls.mkdirs dm) ∪ cache), dm)
             /\ makes_dirs cache dm /\ Calls.writes dm = []
             /\ ((0 < Js.lastIndexOf containerPath "/")%Z ->
                 parent_dir containerPath ∈ (list_to_set (Calls.mkdirs dm) ∪ cache : gset string))).
  { destruct (0 <? Js.lastIndexOf containerPath "/")%Z eqn:Hslash.
    - destruct (mkdirCached_dirs W t
                  (Js.slice_to (Z.to_nat (Js.lastIndexOf containerPath "/")) containerPath)
                  cache) as (dm & Hrun & Hdirs & Hw & Hin).
      exists dm. split; [exact Hrun|]. split; [exact Hdirs|]. split; [exact Hw|].
      intros _. exact Hin.
    - exists []. rewrite Hnil. split; [reflexivity|]. split; [apply makes_dirs_nil|].
      split; [reflexivity|]. intros Hpos. apply Z.ltb_ge in Hslash. lia. }
  destruct Hmk as (dm & Hrun & Hdirs & Hw & Hparent).
  assert (Htail : forall tail,
             Calls.mkdirs tail = [] ->
             parents_first (list_to_set (Calls.mkdirs dm) ∪ cache) tail ->
             list_to_set (Calls.mkdirs (dm ++ tail)) ∪ cache
             = list_to_set (Calls.mkdirs dm) ∪ cache
             /\ makes_dirs cache (dm ++ tail)).
  { intros tail Hnone Hpar. rewrite mkdirs_app, Hnone, app_nil_r. split; [reflexivity|].
    apply makes_dirs_app; [exact Hdirs|].
    repeat split; rewrite ?Hnone; [constructor | intros ? [] | exact Hpar]. }
  destruct (bucket_get W (t ++ dm) key) as [[content|]|e] eqn:Hget.
  - destruct (sandbox_writeFile W ((t ++ dm) ++ [EvBucketGet key (Resolved (Some content))])
                containerPath content) as [[]|e] eqn:Hwrite.
    + destruct (Htail [EvBucketGet key (Resolved (Some content));
                       EvWriteFile containerPath content (Resolved tt)]) as [Hset Hall];
        [reflexivity | simpl; now split|].
      eexists _, (S count). split; [rewrite Hset|exact Hall].
      eapply run_bind; [exact Hrun|]. apply run_try.
      eapply (run_bind _ _ _ _ _ [_] _ [_]).
      { unfold Bucket.get, await. now rewrite Hget. }
      eapply (run_bind_last _ _ _ _ _ [_]); [|reflexivity].
      unfold Sandbox.writeFile, await. now rewrite Hwrite.
    + destruct (Htail [EvBucketGet key (Resolved (Some content));
                       EvWriteFile containerPath content (Rejected e)]) as [Hset Hall];
        [reflexivity | simpl; now split|].
      eexists _, count. split; [rewrite Hset|exact Hall].
      eapply run_bind; [exact Hrun|].
      eapply (run_catch _ _ _ _ _ [_; _] _ []); [|reflexivity].
      eapply (run_bind _ _ _ _ _ [_] _ [_]).
      { unfold Bucket.get, await. now rewrite Hget. }
      apply run_bind_throw. unfold Sandbox.writeFile, await. now rewrite Hwrite.
  - destruct (Htail [EvBucketGet key (Resolved None)]) as [Hset Hall];
      [reflexivity | exact I|].
    eexists _, count. split; [rewrite Hset|exact Hall].
    eapply run_bind; [exact Hrun|]. apply run_try.
    eapply (run_bind_last _ _ _ _ _ [_]);
      [unfold Bucket.get, await; now rewrite Hget | reflexivity].
  - destruct (Htail [EvBucketGet key (Rejected e)]) as [Hset Hall];
      [reflexivity | exact I|].
    eexists _, count. split; [rewrite Hset|exact Hall].
    eapply run_bind; [exact Hrun|].
    eapply (run_catch _ _ _ _ _ [_] _ []); [|reflexivity].
    apply run_bind_throw. unfold Bucket.get, await. now rewrite Hget.
Qed.

Lemma restore_page_dirs W prefix containerDir (keys : list string) :
  forall t count (cache : gset string), exists d count',
    for_of keys (restoreObject prefix containerDir) (count, cache) W t
    = (Ret (count', list_to_set (Calls.mkdirs d) ∪ cache), d)
    /\ makes_dirs cache d.
Proof.
  induction keys as [|key keys IH]; intros t count cache.
  - exists [], count. rewrite dirs_nil.
    split; [reflexivity | apply makes_dirs_nil].
  - destruct (restoreObject_dirs W t prefix containerDir key count cache)
      as (d1 & count1 & Hrun1 & Hdirs1).
    destruct (IH (t ++ d1) count1 (list_to_set (Calls.mkdirs d1) ∪ cache))
      as (d2 & count2 & Hrun2 & Hdirs2).
    exists (d1 ++ d2), count2. split.
    + simpl for_of. eapply run_bind; [exact Hrun1|]. rewrite Hrun2. do 3 f_equal.
      rewrite mkdirs_app. set_solver.
    + now apply makes_dirs_app.
Qed.

Lemma makes_dirs_cons_list (cache : gset string) prefix cursor r (d : trace) :
  makes_dirs cache d -> makes_dirs cache (EvBucketList prefix cursor r :: d).
Proof. intros H. exact H. Qed.

Lemma restorePrefix_pages_dirs W prefix containerDir :
  forall fuel cursor t count (cache : gset string),
    makes_dirs cache
      (snd (restorePrefix_pages fuel prefix containerDir cursor (count, cache) W t)).
Proof.
  induction fuel as [|fuel IH]; intros cursor t count cache; [apply makes_dirs_nil|].
  simpl restorePrefix_pages. unfold bind at 1. unfold Bucket.list at 1, await.
  destruct (bucket_list W t (Some prefix) cursor) as [page|e]; [|apply makes_dirs_nil].
  set (ev := EvBucketList (Some prefix) cursor (Resolved page)).
  destruct (restore_page_dirs W prefix containerDir (list_objects page) (t ++ [ev]) count cache)
    as (d1 & count1 & Hrun1 & Hdirs1).
  unfold bind at 1. rewrite Hrun1.
  destruct (truthy _).
  - specialize (IH (if list_truncated page then list_cursor page else None)
                  ((t ++ [ev]) ++ d1) count1 (list_to_set (Calls.mkdirs d1) ∪ cache)).
    destruct (restorePrefix_pages fuel prefix containerDir _ _ W ((t ++ [ev]) ++ d1))
      as [o2 d2].
    simpl in *. apply makes_dirs_cons_list. now apply makes_dirs_app.
  - simpl. rewrite app_nil_r. exact Hdirs1.
Qed.

(** A restore of a prefix first asks for the container directory, and then
    makes its directories as above. *)
Lemma restorePrefix_dirs W t fuel prefix containerDir :
  exists r d,
    snd (restorePrefix fuel prefix containerDir W t) = EvMkdir containerDir r :: d
    /\ makes_dirs ∅ (EvMkdir containerDir r :: d).
Proof.
  destruct (mkdirCached_dirs W t containerDir ∅) as (dm & Hrun & Hdirs & _ & _).
  assert (Hdm : exists r, dm = [EvMkdir containerDir r]).
  { unfold mkdirCached in Hrun.
    destruct (decide (containerDir ∈ (∅ : gset string))) as [Hin|_]; [set_solver|].
    unfold bind, try_catch, Sandbox.mkdir, await, ret in Hrun.
    destruct (sandbox_mkdir W t containerDir) as [[]|e]; injection Hrun as _ <-; eauto. }
  destruct Hdm as [r ->].
  pose proof (restorePrefix_pages_dirs W prefix containerDir fuel None
                (t ++ [EvMkdir containerDir r]) 0
                (list_to_set (Calls.mkdirs [EvMkdir containerDir r]) ∪ ∅)) as Hpages.
  destruct (restorePrefix_pages fuel prefix containerDir None _ W
              (t ++ [EvMkdir containerDir r])) as [o d] eqn:Hrun2.
  exists r, d. split.
  - unfold restorePrefix, bind at 1. rewrite Hrun. unfold bind at 1. rewrite Hrun2.
    destruct o; [|reflexivity|reflexivity].
    unfold ret. simpl. now rewrite app_nil_r.
  - apply (makes_dirs_app ∅ [EvMkdir containerDir r] d Hdirs Hpages).
Qed.

(** X8. The directory cache works: in every run of restorePrefix,
    whatever it comes to, the first call asks for the container directory,
    and no directory is asked for twice. *)
Theorem restorePrefix_mkdir_once W t fuel prefix containerDir :
  let d := snd (restorePrefix fuel prefix containerDir W t) in
  (exists r rest, d = EvMkdir containerDir r :: rest)
  /\ List.NoDup (Calls.mkdirs d).
Proof.
  intros d. destruct (restorePrefix_dirs W t fuel prefix containerDir)
    as (r & rest & Hd & Hnd & _).
  fold d in Hd. rewrite Hd. split; [now exists r, rest | exact Hnd].
Qed.

Lemma parents_first_lookup (d : trace) :
  forall (made : gset string) i path content r,
    parents_first made d ->
    d !! i = Some (EvWriteFile path content r) ->
    (0 < Js.lastIndexOf path "/"%char)%Z ->
    parent_dir path ∈ made \/ In (parent_dir path) (Calls.mkdirs (take i d)).
Proof.
  induction d as [|e d IH]; intros made i path content r Hpar Hi Hpos; [discriminate|].
  destruct i as [|i].
  - injection Hi as ->. simpl in Hpar. left. now apply Hpar.
  - simpl in Hi. assert (Hrest : exists made',
                            parents_first made' d
                            /\ (forall x, x ∈ made' ->
                                  x ∈ made \/ In x (Calls.mkdirs [e]))).
    { destruct e; simpl in Hpar; try (exists made; split; [tauto | auto]).
      exists ({[path0]} ∪ made). split; [exact Hpar|].
      intros x Hx. apply elem_of_union in Hx as [Hx|Hx]; [|now left].
      right. apply elem_of_singleton in Hx as ->. now left. }
    destruct Hrest as (made' & Hpar' & Hsub).
    destruct (IH made' i path content r Hpar' Hi Hpos) as [Hin|Hin].
    + destruct (Hsub _ Hin) as [Hm|Hm]; [now left|]. right.
      change (take (S i) (e :: d)) with ([e] ++ take i d).
      rewrite mkdirs_app, in_app_iff. now left.
    + right. change (take (S i) (e :: d)) with ([e] ++ take i d).
      rewrite mkdirs_app, in_app_iff. now right.
Qed.

(** X9. Directories come before files: in every run of restorePrefix,
    when the call number [i] writes a file whose path has a slash after its
    first character, one of the calls before it asked for the directory of
    that file (the path up to its last slash). *)
Theorem restorePrefix_parent_first W t fuel prefix containerDir i path content r :
  snd (restorePrefix fuel prefix containerDir W t) !! i = Some (EvWriteFile path content r) ->
  (0 < Js.lastIndexOf path "/"%char)%Z ->
  In (parent_dir path)
    (Calls.mkdirs (take i (snd (restorePrefix fuel prefix containerDir W t)))).
Proof.
  intros Hi Hpos.
  destruct (restorePrefix_dirs W t fuel prefix containerDir) as (r0 & rest & Hd & _ & _ & Hpar).
  rewrite Hd in *.
  destruct (parents_first_lookup _ ∅ i path content r Hpar Hi Hpos) as [Hin|Hin];
    [set_solver | exact Hin].
Qed.

End RestoreDirs.

(** ** The result of a restore *)

Section RestoreResult.

(** When the listing of a prefix comes to an end, its restore returns the
    number of files it wrote. *)
Lemma restorePrefix_run W t fuel remaining prefix containerDir :
  listing_ends W (Some prefix) remaining ->
  (remaining None < fuel)%nat ->
  exists d, restorePrefix fuel prefix containerDir W t = (Ret (length (Calls.written d)), d).
Proof.
  intros Hends Hfuel.
  destruct (mkdirCached_run W t containerDir ∅) as (dm & dirs & Hmk & _ & _ & _ & _ & Hwn).
  destruct (restore_pages W remaining prefix containerDir Hends fuel None (t ++ dm)
              (0%nat, dirs) Hfuel)
    as (d & st & Hrun & _ & _ & _ & _ & Hcount & _).
  exists (dm ++ d). rewrite written_app, Hwn. simpl in *.
  unfold restorePrefix. eapply run_bind; [exact Hmk|].
  eapply run_bind_last; [exact Hrun|]. unfold ret. now rewrite Hcount.
Qed.

(** X10. What a restore comes to when the bucket has a marker and the
    listings of the two prefixes come to an end.  restoreFromR2 returns, and
    it returns true exactly when the sandbox accepted the write of at least
    one restored file.  In that case, and only then, its last call writes
    the timestamp of the bucket's marker to [/root/.openclaw/.last-sync];
    whether that last write goes through does not change the result. *)
Theorem restoreFromR2_restores W t fuel remaining1 remaining2 lastSync :
  MOLTBOT_BUCKET W = true ->
  bucket_get W t ".last-sync" = Resolved (Some lastSync) ->
  listing_ends W (Some "openclaw/") remaining1 ->
  listing_ends W (Some "workspace/") remaining2 ->
  (remaining1 None < fuel)%nat -> (remaining2 None < fuel)%nat ->
  exists d r,
    let restored := (0 <? length (Calls.written d))%nat in
    restoreFromR2 fuel W t
    = (Ret restored,
       EvBucketGet ".last-sync" (Resolved (Some lastSync)) :: d
       ++ (if restored then [EvWriteFile "/root/.openclaw/.last-sync" lastSync r] else [])).
Proof.
  intros Hbucket Hget Hends1 Hends2 Hfuel1 Hfuel2.
  set (ev := EvBucketGet ".last-sync" (Resolved (Some lastSync))).
  destruct (restorePrefix_run W (t ++ [ev]) fuel remaining1 "openclaw/" "/root/.openclaw"
              Hends1 Hfuel1) as (d1 & Hrun1).
  destruct (restorePrefix_run W ((t ++ [ev]) ++ d1) fuel remaining2 "workspace/" "/root/clawd"
              Hends2 Hfuel2) as (d2 & Hrun2).
  set (n := length (Calls.written (d1 ++ d2))).
  assert (Hn : n = (0 + length (Calls.written d1) + length (Calls.written d2))%nat).
  { unfold n. rewrite written_app, length_app. lia. }
  assert (Hloop : for_of RESTORE_PREFIXES
            (fun '(prefix, containerDir) totalFiles =>
               try_catch
                 (bind (restorePrefix fuel prefix containerDir)
                    (fun count => ret (totalFiles + count)%nat))
                 (fun _ => ret totalFiles)) 0%nat W (t ++ [ev])
          = (Ret n, d1 ++ d2)).
  { unfold RESTORE_PREFIXES. simpl for_of.
    eapply run_bind.
    { apply run_try. eapply run_bind_last; [exact Hrun1 | reflexivity]. }
    eapply run_bind_last.
    { apply run_try. eapply run_bind_last; [exact Hrun2 | reflexivity]. }
    unfold ret. now rewrite Hn. }
  assert (Hhead : forall o d,
             (if (0 <? n)%nat
              then bind (try_catch (Sandbox.writeFile "/root/.openclaw/.last-sync" lastSync)
                           (fun _ => ret tt))
                     (fun _ => ret true)
              else ret false) W ((t ++ [ev]) ++ d1 ++ d2) = (o, d) ->
             restoreFromR2 fuel W t = (o, ev :: (d1 ++ d2) ++ d)).
  { intros o d Hrest. unfold restoreFromR2.
    eapply (run_bind _ _ _ _ _ []).
    { unfold Bucket.bound. now rewrite Hbucket. }
    simpl negb. cbv iota. rewrite app_nil_r.
    eapply (run_bind _ _ _ _ _ [_]).
    { unfold Bucket.get, await. now rewrite Hget. }
    eapply run_bind; [exact Hloop | exact Hrest]. }
  destruct (0 <? n)%nat eqn:Hpos.
  - destruct (sandbox_writeFile W ((t ++ [ev]) ++ d1 ++ d2) "/root/.openclaw/.last-sync"
                lastSync) as [u|e] eqn:Hr.
    + exists (d1 ++ d2), (Resolved u). cbv zeta. fold n. rewrite Hpos.
      apply Hhead. eapply (run_bind_last _ _ _ _ _ [_]); [|reflexivity].
      apply run_try. unfold Sandbox.writeFile, await. now rewrite Hr.
    + exists (d1 ++ d2), (Rejected e). cbv zeta. fold n. rewrite Hpos.
      apply Hhead. eapply (run_bind_last _ _ _ _ _ [_]); [|reflexivity].
      eapply (run_catch _ _ _ _ _ [_] _ []); [|reflexivity].
      unfold Sandbox.writeFile, await. now rewrite Hr.
  - exists (d1 ++ d2), (Resolved tt). cbv zeta. fold n. rewrite Hpos.
    apply Hhead. reflexivity.
Qed.

End RestoreResult.

Lemma restoreFromR2_restores_witness :
  exists d r,
    let restored := (0 <? length (Calls.written d))%nat in
    restoreFromR2 3 Scenarios.backed_up []
    = (Ret restored,
       EvBucketGet ".last-sync" (Resolved (Some "2026-01-01T00:00:00.000Z")) :: d
       ++ (if restored
           then [EvWriteFile "/root/.openclaw/.last-sync" "2026-01-01T00:00:00.000Z" r]
           else [])).
Proof.
  apply (restoreFromR2_restores Scenarios.backed_up [] 3
           (fun cursor => 1 - Mock.page_index cursor)%nat
           (fun cursor => 1 - Mock.page_index cursor)%nat).
  - reflexivity.
  - reflexivity.
  - apply (paged_listing_ends Scenarios.backed_up (Some "openclaw/")
             [List.filter (fun key => Js.startsWith key "openclaw/")
                (map fst Scenarios.backup)]).
    reflexivity.
  - apply (paged_listing_ends Scenarios.backed_up (Some "workspace/")
             [List.filter (fun key => Js.startsWith key "workspace/")
                (map fst Scenarios.backup)]).
    reflexivity.
  - simpl. lia.
  - simpl. lia.
Defined.

Lemma restorePrefix_parent_first_witness :
  In "/root/clawd/memory"
    (Calls.mkdirs
       (take 6 (snd (restorePrefix 3 "workspace/" "/root/clawd" Examples.five_objects [])))).
Proof.
  apply (restorePrefix_parent_first Examples.five_objects [] 3 "workspace/" "/root/clawd" 6
           "/root/clawd/memory/notes.md" "content of workspace/memory/notes.md"
           (Resolved tt)).
  - vm_compute. reflexivity.
  - vm_compute. reflexivity.
Defined.

(** ** The admin routes always answer *)

Section AdminAnswers.
Context `{JsonRuntime}.

Lemma readFile_only (path : string) (timeoutMs : Z) :
  does_only (fun _ => True) (fun _ : option string => True) (fun _ => False) False
    (readFile path timeoutMs).
Proof.
  unfold readFile. eapply (only_bind _ (fun _ => True)).
  - apply only_observe; trivial.
  - intros [[out|e]|] _; now apply only_ret.
Qed.

Lemma execCommand_only (cmd : string) (timeoutMs : Z) :
  does_only (fun _ => True) (fun _ : string => True) (fun _ => True) False
    (execCommand cmd timeoutMs).
Proof.
  assert (Hread : forall path ms,
             does_only (fun _ => True) (fun _ : option string => True) (fun _ => True) False
               (readFile path ms)).
  { intros path ms. eapply only_weaken; [apply readFile_only|auto..]. }
  unfold execCommand. eapply (only_bind _ (fun _ => True)).
  { apply only_observe; trivial. }
  intros tag _. cbv zeta. eapply (only_bind _ (fun _ => True)).
  { apply only_await; trivial. }
  intros _ _. eapply (only_bind _ (fun _ => True)).
  { intros W t. split; [repeat constructor | exact I]. }
  intros _ _. eapply (only_bind _ (fun _ => True)); [apply Hread|].
  intros content _. destruct (match content with Some c => _ | None => false end);
    [now apply only_ret|].
  eapply (only_bind _ (fun _ => True)).
  { intros W t. split; [repeat constructor | exact I]. }
  intros _ _. eapply (only_bind _ (fun _ => True)); [apply Hread|].
  intros [r|] _; now apply only_ret.
Qed.

Lemma cleanupOrphanedProcesses_only :
  does_only (fun _ => True) (fun _ : nat => True) (fun _ => False) False
    cleanupOrphanedProcesses.
Proof.
  unfold cleanupOrphanedProcesses.
  apply (only_try _ _ _ (fun _ => True)); [|intros e _; now apply only_ret].
  eapply (only_bind _ (fun _ => True)).
  { apply only_await; trivial. }
  intros processes _. destruct (length processes <=? 5)%nat; [now apply only_ret|].
  apply (only_for_of _ (fun _ => True) (fun _ => True)); [apply Forall_True| |exact I].
  intros proc killed _ _. destruct (negb (isGateway proc) && isLive proc);
    [|now apply only_ret].
  apply (only_try _ _ _ (fun _ => True)); [|intros e _; now apply only_ret].
  eapply (only_bind _ (fun _ => True)); [|intros; now apply only_ret].
  apply only_await; trivial.
Qed.

Lemma devices_handler_only :
  does_only (fun _ => True) (fun _ : json => True) (fun _ => True) False devices_handler.
Proof.
  unfold devices_handler. eapply (only_bind _ (fun _ => True)).
  { apply only_await; trivial. }
  intros _ _. eapply (only_bind _ (fun _ => True)).
  { eapply only_weaken; [apply cleanupOrphanedProcesses_only|auto..]. }
  intros _ _. eapply (only_bind _ (fun _ => True)).
  { intros W t. split; [constructor | exact I]. }
  intros token _. cbv zeta. eapply (only_bind _ (fun _ => True)); [apply execCommand_only|].
  intros stdout _. now apply only_ret.
Qed.

(** X11. The device listing always answers.  In every world the route
    returns a response and raises nothing: with status 200, or with status
    500 and a body that holds an error message and empty pending and paired
    lists (the message of the time-out when the timer of the route settles
    first, else that of the handler's failure).  Its first call is the one
    that ensures the gateway; when that call fails, the route makes no
    other call into the sandbox and answers 500. *)
Theorem get_devices_answers W t :
  exists status body d,
    get_devices W t = (Ret (status, body), d)
    /\ (status = 200%Z \/ status = 500%Z /\ exists message, body = devices_error message)
    /\ (exists r rest, d = EvEnsureGateway r :: rest)
    /\ (forall e, ensureMoltbotGateway W t = Rejected e ->
          status = 500%Z /\ Calls.sandbox d = [EvEnsureGateway (Rejected e)]).
Proof.
  assert (Hfirst : exists o r rest,
             devices_handler W t = (o, EvEnsureGateway r :: rest)
             /\ o <> OutOfFuel
             /\ (forall e, ensureMoltbotGateway W t = Rejected e ->
                   o = Throw e /\ r = Rejected e /\ rest = [])).
  { destruct (devices_handler_only W t) as [_ Hfuel].
    unfold devices_handler in *. unfold bind at 1 in Hfuel. unfold bind at 1.
    unfold ensure_gateway at 1 in Hfuel. unfold ensure_gateway at 1. unfold await in *.
    destruct (ensureMoltbotGateway W t) as [[]|e].
    - match goal with
      | |- context [let '(o, d') := ?run in _] => destruct run as [o rest]
      end.
      exists o, (Resolved tt), rest. split; [reflexivity|]. split; [|discriminate].
      intros ->. exact Hfuel.
    - exists (Throw e), (Rejected e), []. split; [reflexivity|]. split; [discriminate|].
      intros e' [= <-]. now repeat split. }
  destruct Hfirst as (o & r & rest & Hrun & Hfuel & Hfail).
  assert (Hsettled : settled devices_handler W t = (Ret o, EvEnsureGateway r :: rest)).
  { unfold settled. rewrite Hrun. destruct o; [reflexivity | reflexivity | congruence]. }
  set (late := timer_first W (t ++ EvEnsureGateway r :: rest) DEVICES_TIMEOUT_MS).
  set (timer := EvTimer DEVICES_TIMEOUT_MS late).
  assert (Htimer : timer_wins DEVICES_TIMEOUT_MS W (t ++ EvEnsureGateway r :: rest)
                   = (Ret late, [timer])) by reflexivity.
  assert (Hsandbox : forall e, ensureMoltbotGateway W t = Rejected e ->
             Calls.sandbox ((EvEnsureGateway r :: rest) ++ [timer])
             = [EvEnsureGateway (Rejected e)]).
  { intros e He. destruct (Hfail e He) as (_ & -> & ->). reflexivity. }
  unfold get_devices. destruct late eqn:Hlate.
  - exists 500%Z, (devices_error "Devices endpoint timed out"),
      ((EvEnsureGateway r :: rest) ++ [timer]).
    split; [|split; [|split]].
    + eapply (run_catch_last _ _ _ _ (JsError "Devices endpoint timed out")); [|reflexivity].
      eapply run_bind; [exact Hsettled|].
      eapply (run_bind_last _ _ _ _ true [_]); [exact Htimer | reflexivity].
    + right. split; [reflexivity | now eexists].
    + now exists r, (rest ++ [timer]).
    + intros e He. split; [reflexivity | now apply Hsandbox].
  - destruct o as [answer|e|]; [| |congruence].
    + exists 200%Z, answer, ((EvEnsureGateway r :: rest) ++ [timer]).
      split; [|split; [|split]].
      * apply run_try. eapply run_bind; [exact Hsettled|].
        eapply (run_bind_last _ _ _ _ false [_]); [exact Htimer | reflexivity].
      * now left.
      * now exists r, (rest ++ [timer]).
      * intros e He. destruct (Hfail e He) as [[=] _].
    + exists 500%Z, (devices_error (error_details e)), ((EvEnsureGateway r :: rest) ++ [timer]).
      split; [|split; [|split]].
      * eapply (run_catch_last _ _ _ _ e); [|reflexivity].
        eapply run_bind; [exact Hsettled|].
        eapply (run_bind_last _ _ _ _ false [_]); [exact Htimer | reflexivity].
      * right. split; [reflexivity | now eexists].
      * now exists r, (rest ++ [timer]).
      * intros e' He. split; [reflexivity | now apply Hsandbox].
Qed.

End AdminAnswers.

(** ** The time execCommand asks for *)

Section ExecBudget.

(** The calls of execCommand: the clock, the start of the process, and,
    when the process was started, a sleep and a read, then at most one
    more sleep and one more read. *)
Lemma execCommand_shape W t cmd timeoutMs :
  let waitMs := Z.min (timeoutMs - 2000) 10000 in
  exists tag c,
    (exists e, snd (execCommand cmd timeoutMs W t)
               = [EvDateNow tag; EvStartProcess c (Rejected e)])
    \/ (exists p1 r1,
          snd (execCommand cmd timeoutMs W t)
          = [EvDateNow tag; EvStartProcess c (Resolved tt); EvSleep waitMs;
             EvReadFileRace p1 5000 r1])
    \/ (exists p1 r1 p2 r2,
          snd (execCommand cmd timeoutMs W t)
          = [EvDateNow tag; EvStartProcess c (Resolved tt); EvSleep waitMs;
             EvReadFileRace p1 5000 r1; EvSleep 3000; EvReadFileRace p2 5000 r2]).
Proof.
  intros waitMs. set (tag := Date_now W t). exists tag, (shell_command cmd tag).
  set (outFile := ("/tmp/exec-" +:+ Js.of_Z tag +:+ ".out")%string).
  set (e1 := EvDateNow tag).
  destruct (sandbox_startProcess W (t ++ [e1]) (shell_command cmd tag)) as [[]|e] eqn:Hstart.
  - set (e2 := EvStartProcess (shell_command cmd tag) (Resolved tt)).
    set (e3 := EvSleep waitMs).
    set (r1 := sandbox_readFileRace W (((t ++ [e1]) ++ [e2]) ++ [e3]) outFile 5000).
    set (e4 := EvReadFileRace outFile 5000 r1).
    set (r2 := sandbox_readFileRace W
                 (((((t ++ [e1]) ++ [e2]) ++ [e3]) ++ [e4]) ++ [EvSleep 3000]) outFile 5000).
    set (e6 := EvReadFileRace outFile 5000 r2).
    assert (Hhead : forall (k : unit -> M string) o d,
               k tt W (((t ++ [e1]) ++ [e2]) ++ [e3]) = (o, d) ->
               bind now_ms (fun tag0 =>
                 bind (Sandbox.startProcess (shell_command cmd tag0)) (fun _ =>
                   bind (sleep (Z.min (timeoutMs - 2000) 10000)) k)) W t
               = (o, [e1] ++ [e2] ++ [e3] ++ d)).
    { intros k o d Hk.
      eapply (run_bind _ _ _ _ _ [_]); [reflexivity|].
      eapply (run_bind _ _ _ _ _ [_]).
      { unfold Sandbox.startProcess, await. cbv zeta.
        change (Date_now W t) with tag. fold e1. rewrite Hstart. reflexivity. }
      eapply (run_bind _ _ _ _ _ [_]); [reflexivity|]. exact Hk. }
    right.
    destruct (observed_done (read_of r1)) eqn:Hdone.
    + left. exists outFile, r1.
      assert (Hrun : exists o, execCommand cmd timeoutMs W t = (o, [e1; e2; e3; e4]));
        [|destruct Hrun as [o ->]; reflexivity].
      exists (Ret (default EmptyString (strip_marker <$> read_of r1))).
      unfold execCommand. apply (Hhead _ _ [e4]).
      eapply (run_bind _ _ _ _ _ [_] _ []); [apply readFile_run|].
      change (Date_now W t) with tag. fold outFile. fold e1 e2 e3. fold r1.
      unfold observed_done in Hdone.
      destruct (read_of r1) as [c|]; [|discriminate]. rewrite Hdone. reflexivity.
    + right. exists outFile, r1, outFile, r2.
      assert (Hrun : exists o, execCommand cmd timeoutMs W t
                               = (o, [e1; e2; e3; e4; EvSleep 3000; e6]));
        [|destruct Hrun as [o ->]; reflexivity].
      exists (Ret (default EmptyString
                     (strip_marker <$> chosen_read (read_of r1) (read_of r2)))).
      unfold execCommand. apply (Hhead _ _ [e4; EvSleep 3000; e6]).
      eapply (run_bind _ _ _ _ _ [_] _ [_; _]); [apply readFile_run|].
      change (Date_now W t) with tag. fold outFile. fold e1 e2 e3. fold r1. fold e4.
      assert (Hd : match read_of r1 with
                   | Some c => Js.includes c DONE_MARKER
                   | None => false
                   end = false) by exact Hdone.
      rewrite Hd.
      eapply (run_bind _ _ _ _ _ [_] _ [_]); [reflexivity|].
      eapply (run_bind _ _ _ _ _ [_] _ []); [apply readFile_run|].
      change (Date_now W t) with tag. fold outFile. fold e1 e2 e3. fold r1. fold e4. fold r2.
      unfold chosen_read. rewrite Hdone.
      destruct (read_of r2) as [r|]; [reflexivity|].
      destruct (read_of r1); reflexivity.
  - left. exists e. unfold execCommand.
    erewrite (run_bind _ _ _ _ _ [_]); [| reflexivity |].
    2: { apply run_bind_throw. unfold Sandbox.startProcess, await. cbv zeta.
         change (sandbox_startProcess W (t ++ [EvDateNow (Date_now W t)]) _)
           with (sandbox_startProcess W (t ++ [e1]) (shell_command cmd tag)).
         rewrite Hstart. reflexivity. }
    reflexivity.
Qed.

(** X12. How long execCommand can take.  In every run it starts one
    process, reads the output file at most twice, and the time it asks its
    timers for (the first wait, the 3 seconds before the retry, and the
    5-second limit of each read) is at most the first wait plus 13 seconds,
    so at most 23 seconds whatever [timeoutMs] is. *)
Theorem execCommand_time_budget W t cmd timeoutMs :
  let d := snd (execCommand cmd timeoutMs W t) in
  length (starts d) = 1%nat
  /\ (length (Calls.reads d) <= 2)%nat
  /\ (time_budget d <= Z.max 0 (Z.min (timeoutMs - 2000) 10000) + 13000)%Z
  /\ (time_budget d <= 23000)%Z.
Proof.
  intros d. subst d.
  destruct (execCommand_shape W t cmd timeoutMs)
    as (tag & c & [[e ->]|[(p1 & r1 & ->)|(p1 & r1 & p2 & r2 & ->)]]).
  - simpl. repeat split; lia.
  - change (Calls.reads _) with (Calls.reads [EvReadFileRace p1 5000 r1]).
    rewrite reads_race. unfold time_budget. simpl fold_right. simpl length.
    repeat split; lia.
  - change (Calls.reads _)
      with (Calls.reads (EvReadFileRace p1 5000 r1 :: [EvSleep 3000; EvReadFileRace p2 5000 r2])).
    rewrite reads_race.
    change (Calls.reads [EvSleep 3000; EvReadFileRace p2 5000 r2])
      with (Calls.reads [EvReadFileRace p2 5000 r2]).
    rewrite reads_race. unfold time_budget. simpl fold_right. simpl length.
    repeat split; lia.
Qed.

End ExecBudget.

(** ** The quoting of execCommand *)

Section Quoting.

Lemma sh_word_literal (a rest : string) :
  Js.includes a "'" = false ->
  sh_word true (a +:+ rest) = (fun v => a +:+ v) <$> sh_word true rest.
Proof.
  induction a as [|c a IH]; intros Hno.
  - rewrite sapp_nil. now destruct (sh_word true rest).
  - rewrite includes_char_cons in Hno. apply orb_false_elim in Hno as [Hc Ha].
    rewrite sapp_cons. simpl sh_word. rewrite Ascii.eqb_sym, Hc, (IH Ha).
    now destruct (sh_word true rest).
Qed.

Lemma sh_word_escaped (cmd rest : string) :
  sh_word true (escape_single_quotes cmd +:+ rest)
  = (fun v => cmd +:+ v) <$> sh_word true rest.
Proof.
  induction cmd as [|c cmd IH].
  - simpl escape_single_quotes. rewrite sapp_nil. now destruct (sh_word true rest).
  - simpl escape_single_quotes. destruct (Ascii.eqb c "'") eqn:Hc.
    + apply Ascii.eqb_eq in Hc as ->. rewrite sapp_assoc.
      change ("'\''" +:+ escape_single_quotes cmd +:+ rest)
        with (String "'" (String "\" (String "'" (String "'"
                (escape_single_quotes cmd +:+ rest))))).
      simpl sh_word. rewrite IH. now destruct (sh_word true rest).
    + rewrite sapp_cons. simpl sh_word. rewrite Hc, IH.
      now destruct (sh_word true rest).
Qed.

Lemma digits_no_quote (d : Decimal.uint) :
  Js.includes (NilEmpty.string_of_uint d) "'" = false.
Proof.
  induction d; simpl NilEmpty.string_of_uint; [reflexivity|..];
    rewrite includes_char_cons; exact IHd.
Qed.

Lemma string_of_uint_no_quote (d : Decimal.uint) :
  Js.includes (NilZero.string_of_uint d) "'" = false.
Proof.
  destruct d; [reflexivity|..]; apply (digits_no_quote (_ d)).
Qed.

Lemma of_Z_no_quote (n : Z) : Js.includes (Js.of_Z n) "'" = false.
Proof.
  unfold Js.of_Z, NilZero.string_of_int. destruct (Z.to_int n) as [d|d].
  - apply string_of_uint_no_quote.
  - rewrite includes_char_cons. apply string_of_uint_no_quote.
Qed.

(** X13. The quoting of execCommand is right.  The command line handed
    to startProcess is [sh -c] followed by one quoted word, and [sh] reads
    that word as the script [timeout 12 cmd > outFile 2>&1; echo
    __EXEC_DONE__ >> outFile] with [cmd] exactly as it was given, whatever
    single quotes it holds. *)
Theorem shell_command_quotes (cmd : string) (tag : Z) :
  let outFile := "/tmp/exec-" +:+ Js.of_Z tag +:+ ".out" in
  exists word,
    shell_command cmd tag = "sh -c " +:+ word
    /\ sh_word false word
       = Some ("timeout 12 " +:+ cmd +:+ " > " +:+ outFile +:+ " 2>&1; echo "
               +:+ DONE_MARKER +:+ " >> " +:+ outFile).
Proof.
  intros outFile.
  exists ("'timeout 12 " +:+ escape_single_quotes cmd +:+ " > " +:+ outFile +:+ " 2>&1; echo "
          +:+ DONE_MARKER +:+ " >> " +:+ outFile +:+ "'").
  split; [reflexivity|].
  assert (Hfile : Js.includes outFile "'" = false).
  { unfold outFile. rewrite !includes_char_app, of_Z_no_quote. reflexivity. }
  change (sh_word false ("'timeout 12 " +:+ ?rest)) with (sh_word true ("timeout 12 " +:+ rest)).
  rewrite (sh_word_literal "timeout 12 ") by reflexivity.
  rewrite sh_word_escaped.
  rewrite (sh_word_literal " > ") by reflexivity.
  rewrite (sh_word_literal outFile) by exact Hfile.
  rewrite (sh_word_literal " 2>&1; echo ") by reflexivity.
  rewrite (sh_word_literal DONE_MARKER) by reflexivity.
  rewrite (sh_word_literal " >> ") by reflexivity.
  rewrite (sh_word_literal outFile) by exact Hfile.
  change (sh_word true "'") with (Some EmptyString).
  cbn [fmap option_fmap option_map]. now rewrite sapp_nil_r.
Qed.

End Quoting.

(** ** Approvals and the storage status *)

Section Approvals.
Context `{JsonRuntime}.

Lemma toLowerCase_app (a b : string) :
  toLowerCase (a +:+ b) = toLowerCase a +:+ toLowerCase b.
Proof.
  induction a as [|c a IH]; [reflexivity|]. rewrite sapp_cons. simpl. now rewrite IH.
Qed.

Lemma toLowerCase_split (s x y : string) :
  toLowerCase s = x +:+ y ->
  exists s1 s2, s = s1 +:+ s2 /\ toLowerCase s1 = x /\ toLowerCase s2 = y.
Proof.
  revert s. induction x as [|c x IH]; intros s Hs.
  - exists EmptyString, s. now repeat split.
  - destruct s as [|d s]; [discriminate|]. rewrite sapp_cons in Hs. simpl in Hs.
    injection Hs as Hc Hs. destruct (IH s Hs) as (s1 & s2 & -> & <- & <-).
    exists (String d s1), s2. repeat split. simpl. now rewrite Hc.
Qed.

(** The success indicator, through lower case. *)
Lemma approved_lower_case (stdout : string) :
  approved stdout = true
  <-> exists a word b, stdout = a +:+ word +:+ b /\ toLowerCase word = "approved".
Proof.
  unfold approved. rewrite includes_spec. split.
  - intros (x & y & Hxy).
    apply toLowerCase_split in Hxy as (a & rest & -> & _ & Hrest).
    apply toLowerCase_split in Hrest as (word & b & -> & Hword & _).
    now exists a, word, b.
  - intros (a & word & b & -> & Hword).
    exists (toLowerCase a), (toLowerCase b). now rewrite !toLowerCase_app, Hword.
Qed.

Lemma units_complete (c : ascii) : In c all_units.
Proof.
  unfold all_units. rewrite <- (ascii_nat_embedding c). apply in_map, in_seq.
  pose proof (nat_ascii_bounded c). lia.
Qed.

(** Checked on every code unit and every small letter: lower case gives
    the small letter exactly for the letter itself and for its capital. *)
Lemma toLowerCase_unit_letters :
  forallb (fun l =>
    forallb (fun c =>
      Bool.eqb (Ascii.eqb (toLowerCase_unit c) l) (letter_or_capital l c)) all_units)
    small_letters = true.
Proof. vm_compute. reflexivity. Qed.

Lemma toLowerCase_unit_letter (l c : ascii) :
  In l small_letters -> Ascii.eqb (toLowerCase_unit c) l = letter_or_capital l c.
Proof.
  intros Hl. pose proof toLowerCase_unit_letters as Hall.
  rewrite forallb_forall in Hall. specialize (Hall l Hl).
  rewrite forallb_forall in Hall. specialize (Hall c (units_complete c)).
  now apply Bool.eqb_prop in Hall.
Qed.

Lemma toLowerCase_reads_as (word text : string) :
  (forall l, In l (list_ascii_of_string word) -> In l small_letters) ->
  toLowerCase text = word <-> reads_as word text = true.
Proof.
  revert text. induction word as [|l word IH]; intros [|c text] Hsmall; simpl;
    try (split; [discriminate | discriminate]).
  - now split.
  - rewrite andb_true_iff, <- (IH text), <- toLowerCase_unit_letter, Ascii.eqb_eq.
    + split; [now intros [= -> ->] | now intros [-> ->]].
    + apply Hsmall. now left.
    + intros l' Hl'. apply Hsmall. now right.
Qed.

(** An answer of 200 carries the approval of the command output. *)
Lemma approve_device_200 W t (requestId : option string) (body : json) d :
  approve_device requestId W t = (Ret (200%Z, body), d) ->
  exists id stdout, requestId = Some id /\ body = approval id stdout.
Proof.
  destruct requestId as [[|c id]|]; [intros [=] | | intros [=]].
  unfold approve_device. intros Hrun.
  apply try_catch_Ret in Hrun as [Hrun|(e & d1 & d2 & _ & [=] & _)].
  apply bind_Ret in Hrun as ([] & d1 & d2 & _ & Hrun & _).
  apply bind_Ret in Hrun as (token & d3 & d4 & _ & Hrun & _).
  apply bind_Ret in Hrun as (stdout & d5 & d6 & _ & [= <-] & _).
  now exists (String c id), stdout.
Qed.

(** X14. Approvals are recognised in any case.  When the approval route
    answers 200, its body holds the request id, the command output and the
    success indicator, and the indicator is true exactly when the output
    holds, somewhere, the letters of [approved] one after the other, each of
    them small or capital ([approved], [Approved], [APPROVED], ...); the
    message goes with the indicator. *)
Theorem approved_any_case W t (requestId : option string) (body : json) d :
  approve_device requestId W t = (Ret (200%Z, body), d) ->
  exists id stdout success,
    requestId = Some id
    /\ body = JObject [("success", JBool success); ("requestId", JString id);
                       ("message", JString (if success then "Device approved"
                                            else "Approval may have failed"));
                       ("stdout", JString stdout)]
    /\ (success = true
        <-> exists a word b,
              stdout = a +:+ word +:+ b /\ reads_as "approved" word = true).
Proof.
  intros Hrun. apply approve_device_200 in Hrun as (id & stdout & -> & ->).
  exists id, stdout, (approved stdout). split; [reflexivity|]. split; [reflexivity|].
  rewrite approved_lower_case. split; intros (a & word & b & Hs & Hword); exists a, word, b;
    (split; [exact Hs|]); apply toLowerCase_reads_as; trivial;
    intros l Hl; vm_compute in Hl; vm_compute; tauto.
Qed.

Lemma approved_any_case_witness :
  exists d,
    approve_device (Some "Req-1") Scenarios.approving []
    = (Ret (200%Z,
            JObject [("success", JBool true); ("requestId", JString "Req-1");
                     ("message", JString "Device approved");
                     ("stdout", JString "Device APPROVED: Req-1")]), d)
    /\ exists id stdout success,
         Some "Req-1" = Some id
         /\ JObject [("success", JBool true); ("requestId", JString "Req-1");
                     ("message", JString "Device approved");
                     ("stdout", JString "Device APPROVED: Req-1")]
            = JObject [("success", JBool success); ("requestId", JString id);
                       ("message", JString (if success then "Device approved"
                                            else "Approval may have failed"));
                       ("stdout", JString stdout)]
         /\ (success = true
             <-> exists a word b,
                   stdout = a +:+ word +:+ b /\ reads_as "approved" word = true).
Proof.
  eexists. split; [vm_compute; reflexivity|].
  eapply (approved_any_case Scenarios.approving [] (Some "Req-1")).
  vm_compute. reflexivity.
Defined.

(** X15. The approval route always answers.  Without a request id it
    answers 400 and makes no call at all.  With one it returns a response
    and raises nothing: status 200 with the approval (its success indicator
    computed from the command output), or status 500 with an error message;
    its first call ensures the gateway, and when that call fails it makes no
    other and answers 500. *)
Theorem approve_device_answers W t (requestId : option string) :
  exists status body d,
    approve_device requestId W t = (Ret (status, body), d)
    /\ (truthy requestId = false ->
        status = 400%Z /\ d = []
        /\ body = JObject [("error", JString "requestId is required")])
    /\ (forall id, requestId = Some id -> truthy requestId = true ->
        (status = 200%Z /\ exists stdout, body = approval id stdout)
        \/ (status = 500%Z /\ exists message, body = JObject [("error", JString message)]))
    /\ (forall e, truthy requestId = true -> ensureMoltbotGateway W t = Rejected e ->
        status = 500%Z /\ d = [EvEnsureGateway (Rejected e)]
        /\ body = JObject [("error", JString (error_details e))]).
Proof.
  destruct requestId as [[|c id]|].
  1, 3: (eexists _, _, []; split; [reflexivity|];
         split; [now intros _|]; split; [intros id _ [=] | intros e [=]]).
  set (requestId := String c id).
  set (cmd := fun token : option string =>
                "openclaw devices approve " +:+ requestId +:+ " --url ws://localhost:18789"
                +:+ tokenArg token).
  unfold approve_device. fold requestId.
  destruct (ensureMoltbotGateway W t) as [[]|e] eqn:Hensure.
  - set (ev := EvEnsureGateway (Resolved tt)).
    destruct (execCommand_only (cmd (MOLTBOT_GATEWAY_TOKEN W)) CLI_TIMEOUT_MS W (t ++ [ev]))
      as [_ Hfuel].
    destruct (execCommand (cmd (MOLTBOT_GATEWAY_TOKEN W)) CLI_TIMEOUT_MS W (t ++ [ev]))
      as [[stdout|e|] d1] eqn:Hexec; [| |contradiction].
    + exists 200%Z, (approval requestId stdout), (ev :: d1).
      split; [|split; [discriminate|split; [|intros e _ [=]]]].
      * apply run_try. eapply (run_bind _ _ _ _ _ [_]).
        { unfold ensure_gateway, await. now rewrite Hensure. }
        eapply (run_bind _ _ _ _ _ []); [reflexivity|]. rewrite app_nil_r.
        eapply run_bind_last; [exact Hexec | reflexivity].
      * intros id' [= <-] _. left. split; [reflexivity | now exists stdout].
    + exists 500%Z, (JObject [("error", JString (error_details e))]), (ev :: d1).
      split; [|split; [discriminate|split; [|intros e' _ [=]]]].
      * eapply (run_catch_last _ _ _ _ e); [|reflexivity].
        eapply (run_bind _ _ _ _ _ [_]).
        { unfold ensure_gateway, await. now rewrite Hensure. }
        eapply (run_bind _ _ _ _ _ []); [reflexivity|]. rewrite app_nil_r.
        apply run_bind_throw. exact Hexec.
      * intros id' _ _. right. split; [reflexivity | now eexists].
  - exists 500%Z, (JObject [("error", JString (error_details e))]),
      [EvEnsureGateway (Rejected e)].
    split; [|split; [discriminate|split]].
    + eapply (run_catch_last _ _ _ _ e); [|reflexivity].
      apply run_bind_throw. unfold ensure_gateway, await. now rewrite Hensure.
    + intros id' _ _. right. split; [reflexivity | now eexists].
    + intros e' _ [= <-]. now repeat split.
Qed.

Lemma hasCredentials_missing (env : R2Credentials) :
  hasCredentials env = true <-> missing env = [].
Proof.
  unfold hasCredentials, missing.
  destruct (truthy (R2_ACCESS_KEY_ID env)), (truthy (R2_SECRET_ACCESS_KEY env)),
    (truthy (CF_ACCOUNT_ID env)); simpl; split; congruence.
Qed.

Lemma storage_lastSync_run (env : R2Credentials) W t :
  exists stamp d,
    storage_lastSync env W t = (Ret stamp, d)
    /\ (hasCredentials env = false -> stamp = None /\ d = [])
    /\ (d = [] \/ exists r, d = [EvBucketGet ".last-sync" r])
    /\ stamp <> Some EmptyString.
Proof.
  unfold storage_lastSync. destruct (hasCredentials env).
  2: { exists None, []. repeat split; auto; discriminate. }
  destruct (MOLTBOT_BUCKET W) eqn:Hbucket.
  2: { exists None, []. split; [|repeat split; auto; discriminate].
       eapply (run_catch_last _ _ _ _ (JsError _)); [|reflexivity].
       eapply (run_bind_last _ _ _ _ false []); [|reflexivity].
       unfold Bucket.bound. now rewrite Hbucket. }
  assert (Hhead : forall o stamp r,
             bucket_get W t ".last-sync" = r ->
             match r with
             | Resolved (Some text) =>
                 o = Ret match Js.trim text with
                         | EmptyString => None
                         | timestamp => Some timestamp
                         end
             | Resolved None => o = Ret None
             | Rejected e => o = Throw e
             end ->
             stamp = match o with Ret s => s | _ => None end ->
             try_catch
               (bind Bucket.bound (fun bucket =>
                  if negb bucket
                  then throw (JsError "Cannot read properties of undefined (reading 'get')")
                  else bind (Bucket.get ".last-sync") (fun tsObj =>
                         match tsObj with
                         | Some text =>
                             match Js.trim text with
                             | EmptyString => ret None
                             | timestamp => ret (Some timestamp)
                             end
                         | None => ret None
                         end)))
               (fun _ => ret None) W t
             = (Ret stamp, [EvBucketGet ".last-sync" r])).
  { intros o stamp r Hget Ho ->. destruct r as [[text|]|e]; subst o.
    - apply run_try. eapply (run_bind _ _ _ _ true []).
      { unfold Bucket.bound. now rewrite Hbucket. }
      rewrite app_nil_r. simpl negb. cbv iota.
      eapply (run_bind_last _ _ _ _ (Some text) [_]).
      { unfold Bucket.get, await. now rewrite Hget. }
      now destruct (Js.trim text).
    - apply run_try. eapply (run_bind _ _ _ _ true []).
      { unfold Bucket.bound. now rewrite Hbucket. }
      rewrite app_nil_r. simpl negb. cbv iota.
      eapply (run_bind_last _ _ _ _ None [_]); [|reflexivity].
      unfold Bucket.get, await. now rewrite Hget.
    - eapply (run_catch_last _ _ _ _ e); [|reflexivity].
      eapply (run_bind _ _ _ _ true []).
      { unfold Bucket.bound. now rewrite Hbucket. }
      rewrite app_nil_r. simpl negb. cbv iota.
      apply run_bind_throw. unfold Bucket.get, await. now rewrite Hget. }
  destruct (bucket_get W t ".last-sync") as [[text|]|e] eqn:Hget.
  - eexists _, _. split; [eapply (Hhead _ _ _ eq_refl); reflexivity|].
    split; [discriminate|]. split; [right; now eexists|].
    simpl. now destruct (Js.trim text).
  - eexists _, _. split; [eapply (Hhead _ _ _ eq_refl); reflexivity|].
    split; [discriminate|]. split; [right; now eexists | discriminate].
  - eexists _, _. split; [eapply (Hhead _ _ _ eq_refl); reflexivity|].
    split; [discriminate|]. split; [right; now eexists | discriminate].
Qed.

(** X16. The storage status always answers and never touches the
    bucket unless all three credentials are set.  The route returns an
    object and raises nothing, whatever the bucket does.  The object says
    configured exactly when it names no missing credential, and otherwise
    its missing list is the credentials that are not set.  Without the
    three credentials it makes no call and its lastSync is null; with them
    it makes at most one call, a read of [.last-sync].  Its lastSync is null
    or a non-empty text. *)
Theorem get_storage_answers (env : R2Credentials) W t :
  exists members d,
    get_storage env W t = (Ret (JObject members), d)
    /\ (Json.lookup "configured" members = Some (JBool true)
        <-> Json.lookup "missing" members = None)
    /\ (forall names, Json.lookup "missing" members = Some names ->
          names = JArray (map JString (missing env)) /\ missing env <> [])
    /\ (hasCredentials env = false ->
        d = [] /\ Json.lookup "lastSync" members = Some JNull)
    /\ (d = [] \/ exists r, d = [EvBucketGet ".last-sync" r])
    /\ (Json.lookup "lastSync" members = Some JNull
        \/ exists stamp, Json.lookup "lastSync" members = Some (JString stamp)
                         /\ stamp <> EmptyString).
Proof.
  destruct (storage_lastSync_run env W t) as (stamp & d & Hrun & Hnone & Hcalls & Hstamp).
  pose proof (hasCredentials_missing env) as Hiff.
  eexists _, d. split.
  { unfold get_storage. eapply run_bind_last; [exact Hrun | reflexivity]. }
  destruct (missing env) as [|name names] eqn:Hmissing.
  - assert (Hcfg : hasCredentials env = true) by now apply Hiff.
    rewrite Hcfg. simpl.
    split; [now split|]. split; [discriminate|]. split; [discriminate|].
    split; [exact Hcalls|].
    destruct stamp as [[|c s]|]; [congruence | right | left]; [|reflexivity].
    exists (String c s). now split.
  - assert (Hcfg : hasCredentials env = false).
    { destruct (hasCredentials env); [|reflexivity].
      destruct Hiff as [Hiff _]. discriminate (Hiff eq_refl). }
    rewrite Hcfg. destruct (Hnone Hcfg) as [-> ->]. simpl.
    split; [split; discriminate|]. split; [now intros ? [= <-]|].
    split; [now intros _|]. split; [now left | now left].
Qed.

End Approvals.

(** ** waitForProcess *)

Section Waiting.

Lemma waitForProcess_loop_run W (proc_status : trace -> string) (pollIntervalMs m : Z) :
  forall fuel attempts t,
    (Z.to_nat (m - attempts) <= fuel)%nat ->
    exists k,
      waitForProcess_loop fuel proc_status pollIntervalMs (JsFinite m) attempts W t
      = (Ret tt, repeat (EvSleep pollIntervalMs) k)
      /\ (attempts + Z.of_nat k <= Z.max attempts m)%Z
      /\ (forall j, (j < k)%nat ->
            live (proc_status (t ++ repeat (EvSleep pollIntervalMs) j)) = true)
      /\ ((attempts + Z.of_nat k < m)%Z ->
          live (proc_status (t ++ repeat (EvSleep pollIntervalMs) k)) = false).
Proof.
  induction fuel as [|fuel IH]; intros attempts t Hfuel.
  - exists 0%nat. assert (Hle : (attempts <? m)%Z = false) by (apply Z.ltb_ge; lia).
    simpl. rewrite Hle, andb_false_r. repeat split; try lia.
  - simpl waitForProcess_loop. fold (live (proc_status t)).
    destruct (live (proc_status t) && (attempts <? m)%Z) eqn:Hgo.
    + apply andb_true_iff in Hgo as [Hlive Hlt]. apply Z.ltb_lt in Hlt.
      destruct (IH (attempts + 1)%Z (t ++ [EvSleep pollIntervalMs])) as (k & Hrun & Hk & Hall & Hend);
        [lia|].
      exists (S k). split; [|split; [|split]].
      * eapply (run_bind _ _ _ _ tt [_]); [reflexivity | exact Hrun].
      * lia.
      * intros [|j] Hj; [simpl; now rewrite app_nil_r|].
        simpl repeat. change (EvSleep pollIntervalMs :: ?l) with ([EvSleep pollIntervalMs] ++ l).
        rewrite app_assoc. apply Hall. lia.
      * intros Hlt'. simpl repeat.
        change (EvSleep pollIntervalMs :: ?l) with ([EvSleep pollIntervalMs] ++ l).
        rewrite app_assoc. apply Hend. lia.
    + exists 0%nat. split; [reflexivity|]. split; [lia|]. split; [intros j Hj; lia|].
      intros Hlt. simpl. rewrite app_nil_r.
      apply andb_false_iff in Hgo as [Hdead|Hge]; [exact Hdead|].
      apply Z.ltb_ge in Hge. lia.
Qed.

(** X17. waitForProcess polls at most ceil(timeoutMs / pollIntervalMs)
    times.  With a positive poll interval it returns (given that many
    iterations) after [k] sleeps of [pollIntervalMs] each and no other call,
    where [k] is at most that ceiling, so that the sleeps add up to less than
    [timeoutMs + pollIntervalMs]; the process was running or starting at each
    of the [k] checks before a sleep; and if [k] is below the ceiling, the
    last check saw the process neither running nor starting. *)
Theorem waitForProcess_polls W t fuel (proc_status : trace -> string)
    (timeoutMs pollIntervalMs : Z) :
  (0 < pollIntervalMs)%Z ->
  let maxAttempts := (- ((- timeoutMs) / pollIntervalMs))%Z in
  (Z.to_nat maxAttempts <= fuel)%nat ->
  exists k,
    waitForProcess fuel proc_status timeoutMs pollIntervalMs W t
    = (Ret tt, repeat (EvSleep pollIntervalMs) k)
    /\ (Z.of_nat k <= Z.max 0 maxAttempts)%Z
    /\ (Z.of_nat k * pollIntervalMs < Z.max 0 timeoutMs + pollIntervalMs)%Z
    /\ (forall j, (j < k)%nat ->
          live (proc_status (t ++ repeat (EvSleep pollIntervalMs) j)) = true)
    /\ ((Z.of_nat k < maxAttempts)%Z ->
        live (proc_status (t ++ repeat (EvSleep pollIntervalMs) k)) = false).
Proof.
  intros Hpoll maxAttempts Hfuel.
  destruct (waitForProcess_loop_run W proc_status pollIntervalMs maxAttempts fuel 0 t)
    as (k & Hrun & Hk & Hall & Hend); [now rewrite Z.sub_0_r|].
  exists k. split; [|split; [|split; [|split]]]; trivial.
  - unfold waitForProcess, ceil_div.
    assert (Hnz : (pollIntervalMs =? 0)%Z = false) by (apply Z.eqb_neq; lia).
    rewrite Hnz. exact Hrun.
  - pose proof (Z.div_mod (- timeoutMs) pollIntervalMs) as Hdiv.
    pose proof (Z.mod_pos_bound (- timeoutMs) pollIntervalMs Hpoll) as Hmod.
    unfold maxAttempts in *. nia.
Qed.

End Waiting.

Lemma waitForProcess_polls_witness :
  waitForProcess 6 two_polls 3000 500 Examples.no_config []
  = (Ret tt, [EvSleep 500; EvSleep 500])
  /\ exists k,
      waitForProcess 6 two_polls 3000 500 Examples.no_config []
      = (Ret tt, repeat (EvSleep 500) k)
      /\ (Z.of_nat k <= Z.max 0 (- ((- 3000) / 500)))%Z
      /\ (Z.of_nat k * 500 < Z.max 0 3000 + 500)%Z
      /\ (forall j, (j < k)%nat -> live (two_polls ([] ++ repeat (EvSleep 500) j)) = true)
      /\ ((Z.of_nat k < - ((- 3000) / 500))%Z ->
          live (two_polls ([] ++ repeat (EvSleep 500) k)) = false).
Proof.
  split; [vm_compute; reflexivity|].
  apply (waitForProcess_polls Examples.no_config [] 6 two_polls 3000 500).
  - lia.
  - vm_compute. lia.
Defined.

(** ** Frames and keys *)

Section Frames.
Context `{JsonRuntime}.

Lemma split_go_frame (a rest : string) :
  Js.includes a Js.LF = false ->
  forall cur,
    Js.split_go (Js.LF +:+ Js.LF) 0 cur (a +:+ Js.LF +:+ Js.LF +:+ rest)
    = (cur +:+ a) :: Js.split_go (Js.LF +:+ Js.LF) 0 EmptyString rest.
Proof.
  induction a as [|c a IH]; intros Hno cur.
  - rewrite sapp_nil, sapp_nil_r. reflexivity.
  - unfold Js.LF in Hno. rewrite includes_char_cons in Hno.
    apply orb_false_elim in Hno as [Hc Ha].
    rewrite sapp_cons.
    set (sep := Js.LF +:+ Js.LF). set (tail := a +:+ Js.LF +:+ Js.LF +:+ rest).
    assert (Hs : Js.startsWith (String c tail) sep = false).
    { change (Js.startsWith (String c tail) sep)
        with (Ascii.eqb "010" c && Js.startsWith tail Js.LF).
      now rewrite Hc. }
    change (Js.split_go sep 0 cur (String c tail))
      with (if Js.startsWith (String c tail) sep
            then cur :: Js.split_go sep (String.length sep - 1) EmptyString tail
            else Js.split_go sep 0 (cur +:+ String c EmptyString) tail).
    rewrite Hs. unfold tail, sep. rewrite (IH Ha). now rewrite sapp_assoc.
Qed.

Lemma trimEnd_app (a b : string) :
  Js.trimEnd b <> EmptyString -> Js.trimEnd (a +:+ b) = a +:+ Js.trimEnd b.
Proof.
  intros Hb. induction a as [|c a IH]; [reflexivity|].
  rewrite sapp_cons. simpl Js.trimEnd. rewrite IH.
  destruct (a +:+ Js.trimEnd b) as [|x r] eqn:Hab; [|now rewrite sapp_cons, Hab].
  destruct a; [rewrite sapp_nil in Hab; contradiction | now rewrite sapp_cons in Hab].
Qed.

Lemma decode_block_frame (payload : string) :
  one_line payload -> decode_block ("data: " +:+ payload) = JSON_parse payload.
Proof.
  intros (_ & Hne & _ & Hend). unfold decode_block, Js.trim.
  change (Js.trimStart ("data: " +:+ payload)) with ("data: " +:+ payload).
  rewrite trimEnd_app by now rewrite Hend. rewrite Hend. reflexivity.
Qed.

Lemma split_stream (payloads : list string) :
  Forall one_line payloads ->
  Js.split (sse_stream payloads) (Js.LF +:+ Js.LF)
  = map (fun payload => "data: " +:+ payload) payloads ++ [EmptyString].
Proof.
  unfold Js.split. induction 1 as [|payload payloads Hone Hall IH]; [reflexivity|].
  simpl sse_stream. unfold Mock.sse.
  assert (Hno : Js.includes ("data: " +:+ payload) Js.LF = false).
  { destruct Hone as (Hno & _). unfold Js.LF in *. now rewrite includes_char_app, Hno. }
  replace (("data: " +:+ payload +:+ Js.LF +:+ Js.LF) +:+ sse_stream payloads)
    with (("data: " +:+ payload) +:+ Js.LF +:+ Js.LF +:+ sse_stream payloads)
    by now rewrite !sapp_assoc.
  rewrite (split_go_frame _ _ Hno), IH. reflexivity.
Qed.

(** X18. The parser reads back what the sandbox streams.  For payloads
    written on one line, not empty and with no white space at either end (as
    JSON.stringify writes them), the text made of one frame [data: payload]
    and a blank line for each is parsed into the JSON values of the
    payloads that parse, in order: no frame is lost, merged with another or
    read twice. *)
Theorem parseSSEEvents_frames (payloads : list string) :
  Forall one_line payloads ->
  parseSSEEvents (sse_stream payloads) = omap JSON_parse payloads.
Proof.
  intros Hall. unfold parseSSEEvents. rewrite parseSSEEvents_fold, split_stream by exact Hall.
  rewrite app_nil_l, omap_app.
  change (omap decode_block [EmptyString]) with (@nil json). rewrite app_nil_r.
  induction Hall as [|payload payloads Hone Hall IH]; [reflexivity|].
  rewrite map_cons.
  change (omap decode_block (?b :: ?bs))
    with (match decode_block b with
          | Some v => v :: omap decode_block bs
          | None => omap decode_block bs
          end).
  rewrite (decode_block_frame payload Hone), IH. reflexivity.
Qed.

End Frames.

Section Keys.

(** X19. Restore undoes the key scheme of sync.  For each of the two
    restored prefixes there is a prefix of the sync pass (the same without
    its final slash, one of openclaw and workspace) such that the key sync
    gives to a file of the container directory is mapped by restore to the
    path of that very file. *)
Theorem restore_inverts_sync (prefix containerDir rel : string) :
  In (prefix, containerDir) RESTORE_PREFIXES ->
  exists r2Prefix,
    prefix = r2Prefix +:+ "/"
    /\ In r2Prefix ["openclaw"; "workspace"]
    /\ target_path prefix containerDir
         (r2Key_of containerDir r2Prefix (containerDir +:+ "/" +:+ rel))
       = containerDir +:+ "/" +:+ rel.
Proof.
  assert (Hround : forall dir r2Prefix,
             target_path (r2Prefix +:+ "/") dir (r2Key_of dir r2Prefix (dir +:+ "/" +:+ rel))
             = dir +:+ "/" +:+ rel).
  { intros dir r2Prefix. unfold target_path, r2Key_of.
    replace (String.length dir + 1)%nat with (String.length (dir +:+ "/"))
      by (rewrite length_sapp; reflexivity).
    rewrite <- (sapp_assoc dir "/" rel), slice_from_app.
    rewrite <- (sapp_assoc r2Prefix "/" rel), slice_from_app. now rewrite sapp_assoc. }
  intros [[= <- <-]|[[= <- <-]|[]]].
  - exists "openclaw". split; [reflexivity|]. split; [now left|]. apply (Hround _ "openclaw").
  - exists "workspace". split; [reflexivity|]. split; [right; now left|].
    apply (Hround _ "workspace").
Qed.

End Keys.

Lemma parseSSEEvents_frames_witness :
  @parseSSEEvents Json.parse
    (sse_stream ["{" +:+ Mock.stringify "type" +:+ ":" +:+ Mock.stringify "chunk" +:+ "}";
                 "[1, 2]"; "not json"])
  = [JObject [("type", JString "chunk")]; JArray [JNumber "1"; JNumber "2"]].
Proof.
  rewrite (@parseSSEEvents_frames Json.parse).
  - vm_compute. reflexivity.
  - repeat constructor; try discriminate.
Defined.

Lemma restore_inverts_sync_witness :
  In ("workspace/", "/root/clawd") RESTORE_PREFIXES
  /\ exists r2Prefix,
      "workspace/" = r2Prefix +:+ "/"
      /\ In r2Prefix ["openclaw"; "workspace"]
      /\ target_path "workspace/" "/root/clawd"
           (r2Key_of "/root/clawd" r2Prefix ("/root/clawd" +:+ "/" +:+ "memory/notes.md"))
         = "/root/clawd" +:+ "/" +:+ "memory/notes.md".
Proof.
  split; [right; now left|].
  apply (@restore_inverts_sync "workspace/" "/root/clawd" "memory/notes.md").
  right. now left.
Defined.

(** ** One prefix fails *)

Section PrefixIsolation.

(** X20. One prefix that cannot be listed does not stop the restore of the
    other.  When the bucket has a marker, every listing of [openclaw/] is
    rejected and the listing of [workspace/] comes to an end, restoreFromR2
    still returns: after the failed listing it restores [workspace/] as
    restorePrefix does on its own, and its result is true exactly when a
    file of that prefix was written; the marker file follows in that
    case. *)
Theorem restoreFromR2_prefix_isolation W t fuel remaining lastSync e :
  MOLTBOT_BUCKET W = true ->
  bucket_get W t ".last-sync" = Resolved (Some lastSync) ->
  (forall t' cursor, bucket_list W t' (Some "openclaw/") cursor = Rejected e) ->
  listing_ends W (Some "workspace/") remaining ->
  (remaining None < fuel)%nat ->
  exists r0 d r,
    let failed :=
      [EvBucketGet ".last-sync" (Resolved (Some lastSync));
       EvMkdir "/root/.openclaw" r0;
       EvBucketList (Some "openclaw/") None (Rejected e)] in
    let restored := (0 <? length (Calls.written d))%nat in
    restorePrefix fuel "workspace/" "/root/clawd" W (t ++ failed)
    = (Ret (length (Calls.written d)), d)
    /\ restoreFromR2 fuel W t
       = (Ret restored,
          failed ++ d
          ++ (if restored then [EvWriteFile "/root/.openclaw/.last-sync" lastSync r] else [])).
Proof.
  intros Hbucket Hget Hbroken Hends Hfuel.
  set (ev := EvBucketGet ".last-sync" (Resolved (Some lastSync))).
  set (r0 := sandbox_mkdir W (t ++ [ev]) "/root/.openclaw").
  set (e1 := EvMkdir "/root/.openclaw" r0).
  set (e2 := EvBucketList (Some "openclaw/") None (Rejected e)).
  assert (Hrun1 : restorePrefix fuel "openclaw/" "/root/.openclaw" W (t ++ [ev])
                  = (Throw e, [e1; e2])).
  { unfold restorePrefix. eapply (run_bind _ _ _ _ ({["/root/.openclaw"]} ∪ ∅) [e1]).
    - unfold mkdirCached.
      destruct (decide ("/root/.openclaw" ∈ (∅ : gset string))) as [Hin|_]; [set_solver|].
      eapply (run_bind_last _ _ _ _ tt [_]); [|reflexivity].
      unfold e1. destruct r0 as [[]|e0] eqn:Hr0.
      + apply run_try. unfold Sandbox.mkdir, await. fold r0. now rewrite Hr0.
      + eapply (run_catch _ _ _ _ _ [_] _ []); [|reflexivity].
        unfold Sandbox.mkdir, await. fold r0. now rewrite Hr0.
    - apply run_bind_throw. destruct fuel as [|fuel']; [lia|].
      simpl restorePrefix_pages. apply run_bind_throw.
      unfold Bucket.list, await. now rewrite Hbroken. }
  destruct (restorePrefix_run W ((t ++ [ev]) ++ [e1; e2]) fuel remaining "workspace/"
              "/root/clawd" Hends Hfuel) as (d & Hrun2).
  set (n := length (Calls.written d)).
  assert (Hloop : for_of RESTORE_PREFIXES
            (fun '(prefix, containerDir) totalFiles =>
               try_catch
                 (bind (restorePrefix fuel prefix containerDir)
                    (fun count => ret (totalFiles + count)%nat))
                 (fun _ => ret totalFiles)) 0%nat W (t ++ [ev])
          = (Ret n, [e1; e2] ++ d)).
  { unfold RESTORE_PREFIXES. simpl for_of.
    eapply run_bind.
    { eapply run_catch_last; [|reflexivity]. apply run_bind_throw. exact Hrun1. }
    eapply run_bind_last.
    { apply run_try. eapply run_bind_last; [exact Hrun2 | reflexivity]. }
    reflexivity. }
  assert (Hhead : forall o d',
             (if (0 <? n)%nat
              then bind (try_catch (Sandbox.writeFile "/root/.openclaw/.last-sync" lastSync)
                           (fun _ => ret tt))
                     (fun _ => ret true)
              else ret false) W ((t ++ [ev]) ++ [e1; e2] ++ d) = (o, d') ->
             restoreFromR2 fuel W t = (o, [ev; e1; e2] ++ d ++ d')).
  { intros o d' Hrest. unfold restoreFromR2.
    eapply (run_bind _ _ _ _ _ []).
    { unfold Bucket.bound. now rewrite Hbucket. }
    simpl negb. cbv iota. rewrite app_nil_r.
    eapply (run_bind _ _ _ _ _ [_]).
    { unfold Bucket.get, await. now rewrite Hget. }
    eapply (run_bind _ _ _ _ _ ([e1; e2] ++ d) _ d'); [exact Hloop | exact Hrest]. }
  assert (Hprefix : restorePrefix fuel "workspace/" "/root/clawd" W (t ++ [ev; e1; e2])
                    = (Ret n, d)).
  { replace (t ++ [ev; e1; e2]) with ((t ++ [ev]) ++ [e1; e2]) by now rewrite <- app_assoc.
    exact Hrun2. }
  destruct (0 <? n)%nat eqn:Hpos.
  - destruct (sandbox_writeFile W ((t ++ [ev]) ++ [e1; e2] ++ d) "/root/.openclaw/.last-sync"
                lastSync) as [u|e0] eqn:Hr.
    + exists r0, d, (Resolved u). cbv zeta. fold ev e1 e2 n. rewrite Hpos.
      split; [exact Hprefix|].
      apply Hhead. eapply (run_bind_last _ _ _ _ _ [_]); [|reflexivity].
      apply run_try. unfold Sandbox.writeFile, await. now rewrite Hr.
    + exists r0, d, (Rejected e0). cbv zeta. fold ev e1 e2 n. rewrite Hpos.
      split; [exact Hprefix|].
      apply Hhead. eapply (run_bind_last _ _ _ _ _ [_]); [|reflexivity].
      eapply (run_catch _ _ _ _ _ [_] _ []); [|reflexivity].
      unfold Sandbox.writeFile, await. now rewrite Hr.
  - exists r0, d, (Resolved tt). cbv zeta. fold ev e1 e2 n. rewrite Hpos.
    split; [exact Hprefix|]. apply Hhead. reflexivity.
Qed.

End PrefixIsolation.

Lemma restoreFromR2_prefix_isolation_witness :
  fst (restoreFromR2 3 Scenarios.config_unlistable []) = Ret true
  /\ exists r0 d r,
      let failed :=
        [EvBucketGet ".last-sync" (Resolved (Some "2026-01-01T00:00:00.000Z"));
         EvMkdir "/root/.openclaw" r0;
         EvBucketList (Some "openclaw/") None (Rejected (JsError "list failed"))] in
      let restored := (0 <? length (Calls.written d))%nat in
      restorePrefix 3 "workspace/" "/root/clawd" Scenarios.config_unlistable ([] ++ failed)
      = (Ret (length (Calls.written d)), d)
      /\ restoreFromR2 3 Scenarios.config_unlistable []
         = (Ret restored,
            failed ++ d
            ++ (if restored
                then [EvWriteFile "/root/.openclaw/.last-sync" "2026-01-01T00:00:00.000Z" r]
                else [])).
Proof.
  split; [vm_compute; reflexivity|].
  apply (restoreFromR2_prefix_isolation Scenarios.config_unlistable [] 3
           (fun cursor => 1 - Mock.page_index cursor)%nat).
  - reflexivity.
  - reflexivity.
  - reflexivity.
  - apply (paged_listing_ends Scenarios.config_unlistable (Some "workspace/")
             [List.filter (fun key => Js.startsWith key "workspace/")
                (map fst Scenarios.backup)]).
    reflexivity.
  - simpl. lia.
Defined.

(** ** A poll interval of zero *)

Section ZeroInterval.

Lemma waitForProcess_loop_spins W (proc_status : trace -> string) :
  (forall t, live (proc_status t) = true) ->
  forall fuel attempts t,
    waitForProcess_loop fuel proc_status 0 JsInfinity attempts W t
    = (OutOfFuel, repeat (EvSleep 0) fuel).
Proof.
  intros Hlive. induction fuel as [|fuel IH]; intros attempts t.
  - simpl. fold (live (proc_status t)). now rewrite Hlive.
  - simpl waitForProcess_loop. fold (live (proc_status t)). rewrite Hlive.
    simpl andb. cbv iota.
    eapply (run_bind _ _ _ _ tt [_]); [reflexivity | apply IH].
Qed.

(** X21. A poll interval of zero switches the timeout off.  With
    [pollIntervalMs = 0] and a positive [timeoutMs] the bound on the
    attempts is infinite: as long as the process is seen running or
    starting, waitForProcess goes on polling without delay, and no budget
    of iterations is enough for it to return. *)
Theorem waitForProcess_zero_interval W t fuel (proc_status : trace -> string)
    (timeoutMs : Z) :
  (0 < timeoutMs)%Z ->
  (forall t', live (proc_status t') = true) ->
  waitForProcess fuel proc_status timeoutMs 0 W t
  = (OutOfFuel, repeat (EvSleep 0) fuel).
Proof.
  intros Hpos Hlive. unfold waitForProcess, ceil_div.
  assert (Hlt : (0 <? timeoutMs)%Z = true) by now apply Z.ltb_lt.
  simpl Z.eqb. cbv iota. rewrite Hlt. now apply waitForProcess_loop_spins.
Qed.

End ZeroInterval.

Lemma waitForProcess_zero_interval_witness :
  waitForProcess 4 Scenarios.always_running 30000 0 Examples.no_config []
  = (OutOfFuel, repeat (EvSleep 0) 4).
Proof.
  apply (waitForProcess_zero_interval Examples.no_config [] 4 Scenarios.always_running 30000).
  - lia.
  - intros t'. reflexivity.
Defined.
